(** * vocal-remover: tiling, reconstruction and training-patch construction

    A shallow embedding of [inference.py] (function [reconstruct]) and of
    [lib/dataset.py] ([make_pair], [get_oracle_data], [make_padding],
    [make_training_set]), followed by the properties established about them.

    Conventions.
    - Python integers are [Z]; [//] and [%] are [Z.div] and [Z.modulo]
      (both floor towards the sign of the divisor, as in Python).
    - A Python exception is a [Raise] in the [result] monad.
    - numpy arrays are nested lists in C order; a three-axis array
      [[channels, bins, frames]] is a [list (list (list A))].
    - Array elements live in a [Dtype]; the two instances used by the
      program are IEEE binary32 ([float32], magnitudes) and pairs of
      binary32 ([complex64], spectrograms), both built on the standard
      library's executable IEEE 754 specification [SpecFloat]. *)

From Stdlib Require Import ZArith Bool Lia String Ascii.
From Stdlib Require Import List Permutation FinFun Sorted.
From Stdlib Require Import Floats.SpecFloat.
From Stdlib Require DecimalString.
Import ListNotations.
Local Open Scope Z_scope.

(* ================================================================== *)
(** * Part I. The embedding *)
(* ================================================================== *)

(** ** Exceptions *)

Inductive exn : Set :=
| ZeroDivisionError
| ValueError
| IndexError
| OverflowError
| OSError
| KeyError.

Inductive result (A : Type) : Type :=
| Ok (a : A)
| Raise (e : exn).

Arguments Ok {A} a.
Arguments Raise {A} e.

Definition bind {A B : Type} (m : result A) (k : A -> result B) : result B :=
  match m with
  | Ok a => k a
  | Raise e => Raise e
  end.

Notation "x <- m ;; k" := (bind m (fun x => k))
  (at level 61, m at next level, right associativity).
Notation "' p <- m ;; k" := (bind m (fun p => k))
  (at level 61, p pattern, m at next level, right associativity).

Definition is_ok {A : Type} (m : result A) : bool :=
  match m with Ok _ => true | Raise _ => false end.

Fixpoint mapM {A B : Type} (f : A -> result B) (l : list A) : result (list B) :=
  match l with
  | [] => Ok []
  | x :: l' => y <- f x ;; ys <- mapM f l' ;; Ok (y :: ys)
  end.

(** ** Python sequences *)

(** [range(n)]: empty when [n <= 0]. *)
Definition range (n : Z) : list Z := map Z.of_nat (seq 0 (Z.to_nat n)).

(** Normalisation of one slice bound against a sequence of length [len]
    (step 1): a negative bound counts from the end, then the bound is
    clamped to [0 .. len]. *)
Definition clamp_index (len i : Z) : Z :=
  let i := if i <? 0 then i + len else i in
  Z.max 0 (Z.min len i).

(** [l[start:stop]]; [None] is an omitted bound. *)
Definition py_slice {B : Type} (start stop : option Z) (l : list B) : list B :=
  let len := Z.of_nat (length l) in
  let s := match start with None => 0 | Some i => clamp_index len i end in
  let e := match stop with None => len | Some i => clamp_index len i end in
  firstn (Z.to_nat (e - s)) (skipn (Z.to_nat s) l).

(** [l[i]] for an integer [i]: negative indices count from the end. *)
Definition getitem {B : Type} (l : list B) (i : Z) : result B :=
  let len := Z.of_nat (length l) in
  let j := if i <? 0 then i + len else i in
  if (j <? 0) || (len <=? j) then Raise IndexError
  else match nth_error l (Z.to_nat j) with
       | Some x => Ok x
       | None => Raise IndexError
       end.

(** [int(np.ceil(a / b))] for integers [a], [b] with [b <> 0]: the ceiling of
    the quotient (the float quotient is exact enough below [2^53]). *)
Definition ceil_div (a b : Z) : Z := - ((- a) / b).

(** ** [lib/dataset.py]: [make_padding] *)

Definition make_padding (width cropsize offset : Z) : result (Z * Z * Z) :=
  let left := offset in
  let roi_size := cropsize - left * 2 in
  let roi_size := if roi_size =? 0 then cropsize else roi_size in
  if roi_size =? 0 then Raise ZeroDivisionError
  else
    let right := roi_size - (width mod roi_size) + left in
    Ok (left, right, roi_size).

(** ** numpy element types *)

Class Dtype (A : Type) : Type := {
  zero : A;
  add : A -> A -> A;
  mul : A -> A -> A;
  div : A -> A -> A;
  maximum : A -> A -> A;   (* np.maximum, the reduction behind [.max()] *)
  of_count : nat -> A      (* an element count converted to the dtype *)
}.

(** IEEE binary32. *)
Definition float32 : Type := spec_float.

Definition f32_prec : Z := 24.
Definition f32_emax : Z := 128.

Definition is_nan (x : spec_float) : bool :=
  match x with S754_nan => true | _ => false end.

(** numpy's loop for [maximum]: [(a >= b || isnan(a)) ? a : b]. *)
Definition f32_maximum (a b : float32) : float32 :=
  if SFleb b a || is_nan a then a else b.

Definition f32_of_Z (n : Z) : float32 :=
  binary_normalize f32_prec f32_emax n 0 false.

#[export] Instance float32_dtype : Dtype float32 := {
  zero := S754_zero false;
  add := SFadd f32_prec f32_emax;
  mul := SFmul f32_prec f32_emax;
  div := SFdiv f32_prec f32_emax;
  maximum := f32_maximum;
  of_count := fun n => f32_of_Z (Z.of_nat n)
}.

(** complex64: a pair of binary32 numbers. *)
Record complex64 : Type := Complex { re : float32; im : float32 }.

Definition c64_add (a b : complex64) : complex64 :=
  Complex (add (re a) (re b)) (add (im a) (im b)).

Definition f32_sub : float32 -> float32 -> float32 := SFsub f32_prec f32_emax.

Definition c64_mul (a b : complex64) : complex64 :=
  Complex (f32_sub (mul (re a) (re b)) (mul (im a) (im b)))
          (add (mul (re a) (im b)) (mul (im a) (re b))).

(** numpy's complex division loop (Smith's method). *)
Definition c64_div (a b : complex64) : complex64 :=
  let br_abs := SFabs (re b) in
  let bi_abs := SFabs (im b) in
  if SFleb bi_abs br_abs then
    if SFeqb br_abs zero && SFeqb bi_abs zero then
      Complex (div (re a) br_abs) (div (im a) br_abs)
    else
      let rat := div (im b) (re b) in
      let scl := div (f32_of_Z 1) (add (re b) (mul (im b) rat)) in
      Complex (mul (add (re a) (mul (im a) rat)) scl)
              (mul (f32_sub (im a) (mul (re a) rat)) scl)
  else
    let rat := div (re b) (im b) in
    let scl := div (f32_of_Z 1) (add (im b) (mul (re b) rat)) in
    Complex (mul (add (mul (re a) rat) (im a)) scl)
            (mul (f32_sub (mul (im a) rat) (re a)) scl).

(** numpy orders complex numbers lexicographically; [maximum] keeps its first
    argument when it holds a NaN or is the larger one. *)
Definition c64_ge (a b : complex64) : bool :=
  (SFltb (re b) (re a) && negb (is_nan (im a)) && negb (is_nan (im b)))
  || (SFeqb (re a) (re b) && SFleb (im b) (im a)).

Definition c64_maximum (a b : complex64) : complex64 :=
  if is_nan (re a) || is_nan (im a) || c64_ge a b then a else b.

#[export] Instance complex64_dtype : Dtype complex64 := {
  zero := Complex zero zero;
  add := c64_add;
  mul := c64_mul;
  div := c64_div;
  maximum := c64_maximum;
  of_count := fun n => Complex (of_count n) zero
}.

(** ** numpy arrays *)

Definition ndarray3 (A : Type) : Type := list (list (list A)).
Definition ndarray4 (A : Type) : Type := list (ndarray3 A).

(** Apply [f] to every row along the last (time) axis. *)
Definition map_rows {A B : Type} (f : list A -> list B) (X : ndarray3 A)
  : ndarray3 B :=
  map (map f) X.

(** [X.shape[2]] of a three-axis array holding at least one row. *)
Definition shape2 {A : Type} (X : ndarray3 A) : result Z :=
  match X with
  | (row :: _) :: _ => Ok (Z.of_nat (length row))
  | _ => Raise IndexError
  end.

(** [X[:, :, start:stop]]. *)
Definition slice_time {A : Type} (start stop : option Z) (X : ndarray3 A)
  : ndarray3 A :=
  map_rows (py_slice start stop) X.

(** Element-wise zip of two lists that must have the same length. *)
Fixpoint zip_strict {B : Type} (f : B -> B -> result B) (a b : list B)
  : result (list B) :=
  match a, b with
  | [], [] => Ok []
  | x :: a', y :: b' =>
      z <- f x y ;; zs <- zip_strict f a' b' ;; Ok (z :: zs)
  | _, _ => Raise ValueError
  end.

(** [np.concatenate([a, b], axis=2)]: the first two axes must agree. *)
Definition concatenate2 {A : Type} (a b : ndarray3 A) : result (ndarray3 A) :=
  zip_strict (zip_strict (fun r1 r2 => Ok (r1 ++ r2))) a b.

(** [np.concatenate(arrs, axis=2)]; an empty list of arrays is an error. *)
Definition concatenate {A : Type} (arrs : list (ndarray3 A))
  : result (ndarray3 A) :=
  match arrs with
  | [] => Raise ValueError
  | a :: rest =>
      fold_left (fun acc b => a' <- acc ;; concatenate2 a' b) rest (Ok a)
  end.

Section Arrays.
Context {A : Type} `{Dtype A}.

(** [X.max()]: reduction with [maximum] over the flattened array; a
    zero-size array is an error. *)
Definition amax (X : ndarray3 A) : result A :=
  match concat (concat X) with
  | [] => Raise ValueError
  | x :: xs => Ok (fold_left maximum xs x)
  end.

Definition divide (X : ndarray3 A) (c : A) : ndarray3 A :=
  map_rows (map (fun x => div x c)) X.

Definition multiply (X : ndarray3 A) (c : A) : ndarray3 A :=
  map_rows (map (fun x => mul x c)) X.

Definition zeros (n : Z) : list A := repeat zero (Z.to_nat n).

(** [np.pad(X, ((0, 0), (0, 0), (l, r)), mode='constant')]; negative pad
    widths are rejected. *)
Definition pad_time (X : ndarray3 A) (l r : Z) : result (ndarray3 A) :=
  if (l <? 0) || (r <? 0) then Raise ValueError
  else Ok (map_rows (fun row => zeros l ++ row ++ zeros r) X).

(** ** [inference.py]: [reconstruct] *)

(** The external predictor: its declared context margin and its
    prediction on one window.  The batch axis of size one that
    [reconstruct] adds before the call and strips after it is left out. *)
Record Predictor : Type := {
  offset : Z;
  predict : ndarray3 A -> ndarray3 A
}.

(** Lines 18-24: pad amounts, stride and number of windows. *)
Definition tiling (width window_size : Z) (model : Predictor) (tta : bool)
  : result (Z * Z * Z * Z) :=
  '(l, r, roi_size) <- make_padding width window_size (offset model) ;;
  let n_window := ceil_div width roi_size in
  if tta then Ok (l + roi_size / 2, r + roi_size / 2, roi_size, n_window + 1)
  else Ok (l, r, roi_size, n_window).

Definition reconstruct (X : ndarray3 A) (window_size : Z)
    (model : Predictor) (tta : bool) : result (ndarray3 A) :=
  coef <- amax X ;;
  width <- shape2 X ;;
  '(l, r, roi_size, n_window) <- tiling width window_size model tta ;;
  X_pad <- pad_time (divide X coef) l r ;;
  let preds :=
    map (fun i =>
           let start := i * roi_size in
           let X_window :=
             slice_time (Some start) (Some (start + window_size)) X_pad in
           predict model X_window)
        (range n_window) in
  pred <- concatenate preds ;;
  let pred :=
    if tta then slice_time (Some (roi_size / 2)) None pred else pred in
  Ok (multiply (slice_time None (Some width) pred) coef).

(** [row[o : len(row) - o]]: the row without [o] frames at each end. *)
Definition trim (o : Z) (row : list A) : list A :=
  py_slice (Some o) (Some (Z.of_nat (length row) - o)) row.

(** A predictor that returns each window with its margin [o] removed at both
    ends; with [o = 0] it is the identity on every window. *)
Definition trimming_model (o : Z) : Predictor :=
  {| offset := o; predict := map_rows (trim o) |}.

(** A predictor that declares a margin [o] but returns every window
    unchanged. *)
Definition untrimmed_identity (o : Z) : Predictor :=
  {| offset := o; predict := fun w => w |}.

End Arrays.

Arguments Predictor A : clear implicits.

(** ** [lib/dataset.py]: [make_pair] *)

(** [s.rfind(c)]: index of the last occurrence, [-1] when there is none. *)
Fixpoint rfind_from (c : ascii) (s : string) (i acc : Z) : Z :=
  match s with
  | EmptyString => acc
  | String a s' => rfind_from c s' (i + 1) (if Ascii.eqb a c then i else acc)
  end.

Definition rfind (c : ascii) (s : string) : Z := rfind_from c s 0 (-1).

(** [os.path.splitext(p)[1]] (POSIX): the suffix from the last dot of the
    last path component, unless only dots precede it in that component. *)
Definition splitext_ext (p : string) : string :=
  let sepIndex := rfind "/" p in
  let dotIndex := rfind "." p in
  if sepIndex <? dotIndex then
    let filenameIndex := Z.to_nat (sepIndex + 1) in
    let stem := substring filenameIndex (Z.to_nat dotIndex - filenameIndex) p in
    if existsb (fun a => negb (Ascii.eqb a ".")) (list_ascii_of_string stem)
    then substring (Z.to_nat dotIndex) (String.length p - Z.to_nat dotIndex) p
    else EmptyString
  else EmptyString.

Definition starts_with_sep (s : string) : bool :=
  match s with
  | String a _ => Ascii.eqb a "/"
  | EmptyString => false
  end.

Definition ends_with_sep (s : string) : bool :=
  rfind "/" s =? Z.of_nat (String.length s) - 1.

(** [os.path.join(a, b)] (POSIX). *)
Definition path_join (a b : string) : string :=
  if starts_with_sep b then b
  else if (String.length a =? 0)%nat || ends_with_sep a then (a ++ b)%string
  else (a ++ "/" ++ b)%string.

(** [sorted] on strings: insertion into an ascending list. *)
Fixpoint insert_sorted (x : string) (l : list string) : list string :=
  match l with
  | [] => [x]
  | y :: l' =>
      if String.leb x y then x :: l else y :: insert_sorted x l'
  end.

Definition sorted (l : list string) : list string :=
  fold_right insert_sorted [] l.

Definition input_exts : list string :=
  [".wav"; ".m4a"; ".mp3"; ".mp4"; ".flac"]%string.

Definition has_input_ext (fname : string) : bool :=
  existsb (String.eqb (splitext_ext fname)) input_exts.

Section MakePair.
(** [os.listdir]: the directory contents, or an error. *)
Variable listdir : string -> result (list string).

Definition audio_files (dir : string) : result (list string) :=
  names <- listdir dir ;;
  Ok (sorted (map (path_join dir) (filter has_input_ext names))).

Definition make_pair (mix_dir inst_dir : string)
  : result (list (string * string)) :=
  X_list <- audio_files mix_dir ;;
  y_list <- audio_files inst_dir ;;
  let filelist := combine X_list y_list in   (* list(zip(X_list, y_list)) *)
  Ok filelist.
End MakePair.

(** ** [lib/dataset.py]: [get_oracle_data] *)

(** Python floats are IEEE binary64. *)
Definition float64 : Type := spec_float.
Definition f64_prec : Z := 53.
Definition f64_emax : Z := 1024.

Definition f64_of_Z (n : Z) : float64 :=
  binary_normalize f64_prec f64_emax n 0 false.
Definition f64_mul : float64 -> float64 -> float64 := SFmul f64_prec f64_emax.
Definition f64_sub : float64 -> float64 -> float64 := SFsub f64_prec f64_emax.

(** Python's [a / b] on floats. *)
Definition py_truediv (a b : float64) : result float64 :=
  if SFeqb b (S754_zero false) then Raise ZeroDivisionError
  else Ok (SFdiv f64_prec f64_emax a b).

(** Python's [int(x)] on a float: truncation towards zero. *)
Definition py_int (x : float64) : result Z :=
  match x with
  | S754_zero _ => Ok 0
  | S754_finite s m e =>
      Ok (cond_Zopp s (if 0 <=? e then Zpos m * 2 ^ e else Zpos m / 2 ^ (- e)))
  | S754_infinity _ => Raise OverflowError
  | S754_nan => Raise ValueError
  end.

(** Lines 74-75: the pool size [k] and the sample size [n]. *)
Definition oracle_counts (len : Z) (oracle_rate oracle_drop_rate : float64)
  : result (Z * Z) :=
  inv <- py_truediv (f64_of_Z 1) (f64_sub (f64_of_Z 1) oracle_drop_rate) ;;
  k <- py_int (f64_mul (f64_mul (f64_of_Z len) oracle_rate) inv) ;;
  n <- py_int (f64_mul (f64_of_Z len) oracle_rate) ;;
  Ok (k, n).

(** numpy's sort order on floats: NaN is larger than everything. *)
Definition loss_lt (a b : spec_float) : bool :=
  SFltb a b || (is_nan b && negb (is_nan a)).

Fixpoint insert_by_loss (x : spec_float * Z) (l : list (spec_float * Z))
  : list (spec_float * Z) :=
  match l with
  | [] => [x]
  | y :: l' =>
      if loss_lt (fst y) (fst x) then y :: insert_by_loss x l' else x :: l
  end.

(** One admissible outcome of [np.argsort(a)]: insertion into an ascending
    list, equal entries keeping their original order. *)
Definition insertion_argsort (a : list spec_float) : list Z :=
  map snd (fold_right insert_by_loss [] (combine a (range (Z.of_nat (length a))))).

(** [a[i]] for an index known to be in range. *)
Definition loss_at (a : list spec_float) (i : Z) : spec_float :=
  nth (Z.to_nat i) a S754_nan.

(** What [np.argsort(a)] promises of its result [ix]: it lists every index
    of [a] once, and no entry is below an earlier one.  The default sort
    kind is not stable, so the order among equal entries is numpy's
    choice. *)
Definition is_argsort (a : list spec_float) (ix : list Z) : Prop :=
  Permutation ix (range (Z.of_nat (length a)))
  /\ StronglySorted (fun i j => loss_lt (loss_at a j) (loss_at a i) = false) ix.

(** [np.random.choice(a, size, replace=False)]: the first [size] entries of a
    random permutation of [range(len(a))], used as indices into [a]. *)
Definition choice_without_replacement (permutation : Z -> list Z)
    (a : list Z) (size : Z) : result (list Z) :=
  let pop_size := Z.of_nat (length a) in
  if (pop_size =? 0) && negb (size =? 0) then Raise ValueError
  else if pop_size <? size then Raise ValueError
  else if size <? 0 then Raise ValueError
  else mapM (getitem a) (py_slice None (Some size) (permutation pop_size)).

Section Oracle.
(** Array buffers live in a store; an array is the address of its buffer,
    so that a view and its base would share an address while a copy gets a
    fresh one.  [T] is the type of one entry along the first axis. *)
Context {T : Type}.

Definition heap : Type := list (list T).
Definition ref : Type := nat.

Definition read (h : heap) (p : ref) : result (list T) :=
  match nth_error h p with
  | Some b => Ok b
  | None => Raise ValueError
  end.

Definition alloc (h : heap) (b : list T) : ref * heap :=
  (length h, h ++ [b]).

(** [X[idx]] with an integer index array allocates a new array. *)
Definition take (h : heap) (p : ref) (idx : list Z) : result (ref * heap) :=
  b <- read h p ;;
  v <- mapM (getitem b) idx ;;
  Ok (alloc h v).

(** [a.copy()]. *)
Definition copy (h : heap) (p : ref) : result (ref * heap) :=
  b <- read h p ;;
  Ok (alloc h b).

(** In-place assignment [a[i] = v], for observing sharing. *)
Definition store (h : heap) (p : ref) (i : nat) (v : T) : heap :=
  match nth_error h p with
  | Some b =>
      firstn p h ++ (firstn i b ++ v :: skipn (S i) b) :: skipn (S p) h
  | None => h
  end.

(** [np.argsort] with its default sort kind: a function of the array, of
    which only [is_argsort] is known. *)
Variable argsort : list spec_float -> list Z.

(** [np.random.permutation] is the source of randomness. *)
Variable permutation : Z -> list Z.

Definition get_oracle_data (h : heap) (X y : ref)
    (instance_loss : list spec_float) (oracle_rate oracle_drop_rate : float64)
  : result (ref * ref * list Z * heap) :=
  Xs <- read h X ;;
  '(k, n) <- oracle_counts (Z.of_nat (length Xs)) oracle_rate oracle_drop_rate ;;
  let idx := py_slice None (Some k) (rev (argsort instance_loss)) in
  idx <- choice_without_replacement permutation idx n ;;
  '(tX, h) <- take h X idx ;;
  '(oracle_X, h) <- copy h tX ;;
  '(ty, h) <- take h y idx ;;
  '(oracle_y, h) <- copy h ty ;;
  Ok (oracle_X, oracle_y, idx, h).
End Oracle.

Arguments heap T : clear implicits.

(** ** [lib/dataset.py]: [make_training_set] *)

(** The random source: the successive outcomes of [np.random.randint]
    (before reduction to the requested range) and of [np.random.uniform]. *)
Record Rng : Type := {
  int_tape : nat -> Z;
  uniform_tape : nat -> float64;
  int_pos : nat;
  uniform_pos : nat
}.

(** [np.random.randint(low, high, size)]: [size] integers in [[low, high)];
    an empty range is an error (a request for no sample at all returns an
    empty array before the range is looked at). *)
Definition randint (low high size : Z) (g : Rng) : result (list Z * Rng) :=
  if size <? 0 then Raise ValueError
  else if size =? 0 then Ok ([], g)
  else if high <=? low then Raise ValueError
  else
    Ok (map (fun k => low + int_tape g (int_pos g + k) mod (high - low))
            (seq 0 (Z.to_nat size)),
        {| int_tape := int_tape g; uniform_tape := uniform_tape g;
           int_pos := int_pos g + Z.to_nat size;
           uniform_pos := uniform_pos g |}).

(** [np.random.uniform()]. *)
Definition uniform (g : Rng) : float64 * Rng :=
  (uniform_tape g (uniform_pos g),
   {| int_tape := int_tape g; uniform_tape := uniform_tape g;
      int_pos := int_pos g; uniform_pos := S (uniform_pos g) |}).

(** The binary64 values of the literals [0.5], [0.52] and [0.54]. *)
Definition p_swap : float64 := S754_finite false 0x10000000000000 (-53).
Definition p_mono : float64 := S754_finite false 0x10a3d70a3d70a4 (-53).
Definition p_inst : float64 := S754_finite false 0x1147ae147ae148 (-53).

(** Replace entry [i] of a list. *)
Definition list_set {B : Type} (i : nat) (v : B) (l : list B) : list B :=
  firstn i l ++ v :: skipn (S i) l.

(** Broadcasting of one axis to length [n]. *)
Definition broadcast_axis {B : Type} (n : nat) (l : list B) : result (list B) :=
  if (length l =? n)%nat then Ok l
  else match l with
       | [x] => Ok (repeat x n)
       | _ => Raise ValueError
       end.

(** Broadcasting of a three-axis value to the shape [(c, f, t)]. *)
Definition broadcast_to {B : Type} (shp : nat * nat * nat)
    (v : ndarray3 B) : result (ndarray3 B) :=
  let '(c, f, t) := shp in
  v' <- broadcast_axis c v ;;
  mapM (fun ch => ch' <- broadcast_axis f ch ;; mapM (broadcast_axis t) ch') v'.

(** [D[idx] = v] on a four-axis array whose entries have shape [shp]; the
    right-hand side is broadcast to the entry's shape. *)
Definition setitem {B : Type} (shp : nat * nat * nat) (D : ndarray4 B)
    (idx : Z) (v : ndarray3 B) : result (ndarray4 B) :=
  _ <- getitem D idx ;;
  v' <- broadcast_to shp v ;;
  let len := Z.of_nat (length D) in
  Ok (list_set (Z.to_nat (if idx <? 0 then idx + len else idx)) v' D).

Section TrainingSet.
Context {A : Type} `{Dtype A}.

(** [spec_utils.cache_or_load]: the spectrogram pair of a file pair. *)
Variable cache_or_load :
  string -> string -> Z -> Z -> Z -> result (ndarray3 A * ndarray3 A).

(** [np.zeros((n, c, f, t))]. *)
Definition np_zeros (n c f t : Z) : result (ndarray4 A) :=
  if (n <? 0) || (c <? 0) || (f <? 0) || (t <? 0) then Raise ValueError
  else Ok (repeat (repeat (repeat (zeros t) (Z.to_nat f)) (Z.to_nat c))
                  (Z.to_nat n)).

(** Sum of two channels, element by element. *)
Definition add_channels (a b : list (list A)) : list (list A) :=
  map (fun rs => map (fun uv => add (fst uv) (snd uv))
                     (combine (fst rs) (snd rs)))
      (combine a b).

(** [a.mean(axis=0, keepdims=True)]: the channel sum divided by the number
    of channels, as an array with one channel.  A dataset entry always has
    two channels, so the first case is never reached by the builder. *)
Definition mean_axis0 (a : ndarray3 A) : ndarray3 A :=
  match a with
  | [] => []
  | ch :: rest =>
      [map (map (fun s => div s (of_count (length a))))
           (fold_left add_channels rest ch)]
  end.

(** Lines 117-128: the augmentation of entry [idx], chosen by the draw [p]. *)
Definition augment (shp : nat * nat * nat) (X_dataset y_dataset : ndarray4 A)
    (idx : Z) (p : float64) : result (ndarray4 A * ndarray4 A) :=
  if SFltb p p_swap then
    (* swap channel *)
    Xi <- getitem X_dataset idx ;;
    X_dataset <- setitem shp X_dataset idx (rev Xi) ;;
    yi <- getitem y_dataset idx ;;
    y_dataset <- setitem shp y_dataset idx (rev yi) ;;
    Ok (X_dataset, y_dataset)
  else if SFltb p p_mono then
    (* mono *)
    Xi <- getitem X_dataset idx ;;
    X_dataset <- setitem shp X_dataset idx (mean_axis0 Xi) ;;
    yi <- getitem y_dataset idx ;;
    y_dataset <- setitem shp y_dataset idx (mean_axis0 yi) ;;
    Ok (X_dataset, y_dataset)
  else if SFltb p p_inst then
    (* inst *)
    yi <- getitem y_dataset idx ;;
    X_dataset <- setitem shp X_dataset idx yi ;;
    Ok (X_dataset, y_dataset)
  else Ok (X_dataset, y_dataset).

(** Lines 114-128: one patch of one file. *)
Definition patch_step (shp : nat * nat * nat) (cropsize patches i : Z)
    (X_pad y_pad : ndarray3 A) (starts : list Z)
    (st : ndarray4 A * ndarray4 A * Rng) (j : Z)
  : result (ndarray4 A * ndarray4 A * Rng) :=
  let '(X_dataset, y_dataset, g) := st in
  let idx := i * patches + j in
  s <- getitem starts j ;;
  let e := s + cropsize in
  X_dataset <- setitem shp X_dataset idx
                 (slice_time (Some s) (Some e) X_pad) ;;
  y_dataset <- setitem shp y_dataset idx
                 (slice_time (Some s) (Some e) y_pad) ;;
  let '(p, g) := uniform g in
  '(X_dataset, y_dataset) <- augment shp X_dataset y_dataset idx p ;;
  Ok (X_dataset, y_dataset, g).

(** A [for] loop over a list with an accumulator; the first error stops it. *)
Fixpoint foldM {S B : Type} (f : S -> B -> result S) (l : list B) (s : S)
  : result S :=
  match l with
  | [] => Ok s
  | x :: l' => s' <- f s x ;; foldM f l' s'
  end.

(** Lines 103-128: one file pair. *)
Definition file_step (shp : nat * nat * nat)
    (cropsize patches sr hop_length n_fft offset : Z)
    (st : ndarray4 A * ndarray4 A * Rng) (entry : Z * (string * string))
  : result (ndarray4 A * ndarray4 A * Rng) :=
  let '(X_dataset, y_dataset, g) := st in
  let '(i, (X_path, y_path)) := entry in
  '(X, y) <- cache_or_load X_path y_path sr hop_length n_fft ;;
  Xmax <- amax X ;;
  ymax <- amax y ;;
  let coef := maximum Xmax ymax in
  let X := divide X coef in
  let y := divide y coef in
  width <- shape2 X ;;
  '(l, r, roi_size) <- make_padding width cropsize offset ;;
  X_pad <- pad_time X l r ;;
  y_pad <- pad_time y l r ;;
  padded <- shape2 X_pad ;;
  '(starts, g) <- randint 0 (padded - cropsize) patches g ;;
  foldM (patch_step shp cropsize patches i X_pad y_pad starts)
        (range patches) (X_dataset, y_dataset, g).

Definition make_training_set (filelist : list (string * string))
    (cropsize patches sr hop_length n_fft offset : Z) (g : Rng)
  : result (ndarray4 A * ndarray4 A) :=
  let len_dataset := patches * Z.of_nat (length filelist) in
  X_dataset <- np_zeros len_dataset 2 (n_fft / 2 + 1) cropsize ;;
  y_dataset <- np_zeros len_dataset 2 (n_fft / 2 + 1) cropsize ;;
  let shp := (2%nat, Z.to_nat (n_fft / 2 + 1), Z.to_nat cropsize) in
  '(X_dataset, y_dataset, _) <-
    foldM (file_step shp cropsize patches sr hop_length n_fft offset)
          (combine (range (Z.of_nat (length filelist))) filelist)
          (X_dataset, y_dataset, g) ;;
  Ok (X_dataset, y_dataset).
End TrainingSet.

(** ** Auxiliary notions for the properties *)

(** The part of window [i] of a padded row [p] that a margin-trimming
    predictor returns: the window of width [T] at stride [roi], without [o]
    frames at each end. *)
Definition kept {B : Type} (roi T o : nat) (p : list B) (i : nat) : list B :=
  let w := firstn T (skipn (i * roi) p) in
  firstn (length w - 2 * o) (skipn o w).

(** A three-axis array of shape [(c, f, t)]. *)
Definition has_shape {B : Type} (X : ndarray3 B) (c f t : nat) : Prop :=
  length X = c
  /\ Forall (fun ch => length ch = f /\ Forall (fun row => length row = t) ch) X.

(** Every entry of the array satisfies [P]. *)
Definition all_entries {B : Type} (P : B -> Prop) (X : ndarray3 B) : Prop :=
  Forall (Forall (Forall P)) X.

(** The predictor returns the region of interest of each window: the window
    without its declared margin at both ends. *)
Definition returns_roi {A : Type} (model : Predictor A) : Prop :=
  forall w, predict model w = map_rows (trim (offset model)) w.


(** A float that is a zero of either sign. *)
Definition is_zero (x : spec_float) : Prop :=
  match x with S754_zero _ => True | _ => False end.

(** Ascending order of losses: the second is not below the first. *)
Definition loss_le (a b : spec_float * Z) : Prop :=
  loss_lt (fst b) (fst a) = false.

(** The place of a float in numpy's sort order, as a triple compared
    lexicographically: sign class, then exponent, then mantissa. *)
Definition loss_key (x : spec_float) : Z * Z * Z :=
  match x with
  | S754_nan => (3, 0, 0)
  | S754_infinity false => (2, 0, 0)
  | S754_infinity true => (-2, 0, 0)
  | S754_zero _ => (0, 0, 0)
  | S754_finite false m e => (1, e, Zpos m)
  | S754_finite true m e => (-1, - e, Zneg m)
  end.

Definition key_lt (a b : Z * Z * Z) : Prop :=
  let '(a1, a2, a3) := a in
  let '(b1, b2, b3) := b in
  a1 < b1 \/ (a1 = b1 /\ (a2 < b2 \/ (a2 = b2 /\ a3 < b3))).

(** ** Concrete inputs used by the examples below *)

(** A directory tree with three recognised files under [mix] and two under
    [inst]. *)
Definition uneven_tree (dir : string) : result (list string) :=
  if String.eqb dir "mix" then
    Ok ["b.wav"; "a.wav"; "notes.txt"; "c.mp3"]%string
  else if String.eqb dir "inst" then Ok ["a.wav"; "z.flac"]%string
  else Raise OSError.

(** A two-channel magnitude spectrogram with one bin and two frames whose
    largest entry is 13. *)
Definition magnitudes_7_13 : ndarray3 float32 :=
  [[[f32_of_Z 7; f32_of_Z 13]]; [[f32_of_Z 1; f32_of_Z 2]]].

(** The binary32 number next above 7. *)
Definition f32_above_7 : float32 := S754_finite false 14680065 (-21).

(** A two-channel magnitude spectrogram whose largest entry is 2. *)
Definition magnitudes_1_2 : ndarray3 float32 :=
  [[[f32_of_Z 1; f32_of_Z 2; f32_of_Z 1]]; [[f32_of_Z 2; f32_of_Z 1; f32_of_Z 2]]].

(** An all-zero spectrogram with two channels, one bin and three frames. *)
Definition silence : ndarray3 float32 :=
  [[[S754_zero false; S754_zero false; S754_zero false]];
   [[S754_zero false; S754_zero false; S754_zero false]]].

(** A complex number with integer real part and zero imaginary part. *)
Definition c64_of_Z (n : Z) : complex64 := Complex (f32_of_Z n) zero.

(** A dataset with one entry of shape [(2, 1, 1)]: the channels hold 1 and 3. *)
Definition one_patch : ndarray4 complex64 := [[[[c64_of_Z 1]]; [[c64_of_Z 3]]]].

(** The binary64 value of the literal [0.51]. *)
Definition p_051 : float64 := S754_finite false 0x1051eb851eb852 (-53).

(** Spectrograms with two channels and two bins, of widths 1, 3 and 5. *)
Definition spectrogram_w1 : ndarray3 complex64 :=
  [[[c64_of_Z 1]; [c64_of_Z 2]]; [[c64_of_Z 3]; [c64_of_Z 4]]].

Definition spectrogram_w3 : ndarray3 complex64 :=
  [[[c64_of_Z 1; c64_of_Z 2; c64_of_Z 3]; [c64_of_Z 2; c64_of_Z 3; c64_of_Z 4]];
   [[c64_of_Z 3; c64_of_Z 4; c64_of_Z 5]; [c64_of_Z 4; c64_of_Z 5; c64_of_Z 6]]].

Definition spectrogram_w5 : ndarray3 complex64 :=
  [[[c64_of_Z 1; c64_of_Z 2; c64_of_Z 3; c64_of_Z 4; c64_of_Z 5];
    [c64_of_Z 2; c64_of_Z 3; c64_of_Z 4; c64_of_Z 5; c64_of_Z 6]];
   [[c64_of_Z 3; c64_of_Z 4; c64_of_Z 5; c64_of_Z 6; c64_of_Z 7];
    [c64_of_Z 4; c64_of_Z 5; c64_of_Z 6; c64_of_Z 7; c64_of_Z 8]]].

(** A cache that holds the same spectrogram for the mixture and the target
    of every file pair. *)
Definition constant_cache (S : ndarray3 complex64)
  : string -> string -> Z -> Z -> Z
    -> result (ndarray3 complex64 * ndarray3 complex64) :=
  fun _ _ _ _ _ => Ok (S, S).

(** A random source whose integer outcomes count up from zero and whose
    uniform draws are all [0.51]. *)
Definition rng0 : Rng :=
  {| int_tape := fun k => Z.of_nat k;
     uniform_tape := fun _ => p_051;
     int_pos := 0;
     uniform_pos := 0 |}.

Definition one_file : list (string * string) :=
  [("mix/a.wav", "inst/a.wav")]%string.

(** Two training arrays of two entries each, at addresses 0 and 1. *)
Definition training_heap : heap (ndarray3 float32) :=
  [[magnitudes_1_2; magnitudes_7_13]; [magnitudes_7_13; magnitudes_1_2]].

(** Four entries per array, as integers for readability. *)
Definition small_heap : heap Z := [[10; 20; 30; 40]; [1; 2; 3; 4]].

(** A random permutation that happens to reverse the order. *)
Definition reversing (m : Z) : list Z := rev (range m).

(** Another admissible outcome of [np.argsort]: equal entries come in the
    reverse of their original order. *)
Definition reversed_ties_argsort (a : list spec_float) : list Z :=
  map (fun i => Z.of_nat (length a) - 1 - i) (insertion_argsort (rev a)).

(** Four losses of which three are equal. *)
Definition tied_losses : list spec_float :=
  [f32_of_Z 3; f32_of_Z 1; f32_of_Z 3; f32_of_Z 3].

(** The binary64 values [1.5], [0.5] and [0.0]. *)
Definition rate_1_5 : float64 := binary_normalize f64_prec f64_emax 3 (-1) false.
Definition rate_0_5 : float64 := binary_normalize f64_prec f64_emax 1 (-1) false.
Definition rate_0 : float64 := S754_zero false.

(* ================================================================== *)
(** * Part I, continued. The remaining functions *)
(* ================================================================== *)

(** ** [inference.py]: the windows that [reconstruct] hands to the model *)

Section Windows3.
Context {A : Type} `{Dtype A}.

(** Lines 17-33 of [reconstruct]: the list of [X_window] values, in the
    order in which the loop passes them to [model.predict]. *)
Definition reconstruct_windows (X : ndarray3 A) (window_size : Z)
    (model : Predictor A) (tta : bool) : result (list (ndarray3 A)) :=
  coef <- amax X ;;
  width <- shape2 X ;;
  '(l, r, roi_size, n_window) <- tiling width window_size model tta ;;
  X_pad <- pad_time (divide X coef) l r ;;
  Ok (map (fun i =>
             let start := i * roi_size in
             slice_time (Some start) (Some (start + window_size)) X_pad)
          (range n_window)).
End Windows3.

(** ** [lib/dataset.py]: [train_val_split] *)

(** Equality of two lists of strings, as Python's [==] on lists. *)
Fixpoint list_string_eqb (a b : list string) : bool :=
  match a, b with
  | [], [] => true
  | x :: a', y :: b' => String.eqb x y && list_string_eqb a' b'
  | _, _ => false
  end.

(** The validation list that [train_val_split] returns: a slice of the
    pair list (tuples) or the caller's own list of two-element lists. *)
Inductive val_list : Type :=
| ValTuples (l : list (string * string))
| ValLists (l : list (list string)).

Section TrainValSplit.
Variable listdir : string -> result (list string).
(** [random.shuffle]: the order it leaves the list in. *)
Variable shuffle : list (string * string) -> list (string * string).

Definition train_val_split (mix_dir inst_dir : string) (val_rate : float64)
    (val_filelist : list (list string))
  : result (list (string * string) * val_list) :=
  filelist <- make_pair listdir mix_dir inst_dir ;;
  let filelist := shuffle filelist in
  if (length val_filelist =? 0)%nat then
    val_size <- py_int (f64_mul (f64_of_Z (Z.of_nat (length filelist)))
                                val_rate) ;;
    let train_filelist := py_slice None (Some (- val_size)) filelist in
    let val_filelist := py_slice (Some (- val_size)) None filelist in
    Ok (train_filelist, ValTuples val_filelist)
  else
    let train_filelist :=
      filter (fun pair =>
                negb (existsb (list_string_eqb [fst pair; snd pair])
                              val_filelist))
             filelist in
    Ok (train_filelist, ValLists val_filelist).
End TrainValSplit.

(** ** [lib/dataset.py]: [mixup_generator] *)

Section Mixup.
(** [T] is one entry of [X] or [y]; [scale lam e] is [lam * e] and
    [plus a b] is [a + b] on entries. *)
Context {T : Type}.
Variable scale : float64 -> T -> T.
Variable plus : T -> T -> T.
(** [np.random.permutation] and the successive outcomes of
    [np.random.beta(alpha, alpha)]. *)
Variable permutation : Z -> list Z.
Variable beta : float64 -> nat -> float64.

(** [a[i] = v] on the array at address [p]. *)
Definition setitem_at (h : heap T) (p : ref) (i : Z) (v : T)
  : result (heap T) :=
  b <- read h p ;;
  _ <- getitem b i ;;
  let len := Z.of_nat (length b) in
  Ok (store h p (Z.to_nat (if i <? 0 then i + len else i)) v).

(** [lam * a[i] + (1 - lam) * a[j]] on the array at address [p]. *)
Definition mixed_entry (h : heap T) (p : ref) (lam : float64) (i j : Z)
  : result T :=
  b <- read h p ;;
  u <- getitem b i ;;
  v <- getitem b j ;;
  Ok (plus (scale lam u) (scale (f64_sub (f64_of_Z 1) lam) v)).

(** Lines 66-68: one turn of the loop; the state is the store and the number
    of beta draws made so far. *)
Definition mixup_step (X y : ref) (perm : list Z) (alpha : float64)
    (st : heap T * nat) (i : Z) : result (heap T * nat) :=
  let '(h, draws) := st in
  let lam := beta alpha draws in
  pi <- getitem perm i ;;
  pi1 <- getitem perm (i + 1) ;;
  vX <- mixed_entry h X lam pi pi1 ;;
  h <- setitem_at h X pi vX ;;
  vy <- mixed_entry h y lam pi pi1 ;;
  h <- setitem_at h y pi vy ;;
  Ok (h, S draws).

Definition mixup_generator (h : heap T) (X y : ref) (rate alpha : float64)
  : result (ref * ref * heap T) :=
  Xs <- read h X ;;
  let len := Z.of_nat (length Xs) in
  k <- py_int (f64_mul (f64_of_Z len) rate) ;;
  let perm := py_slice None (Some k) (permutation len) in
  '(h, _) <- foldM (mixup_step X y perm alpha)
                   (range (Z.of_nat (length perm) - 1)) (h, 0%nat) ;;
  Ok (X, y, h).
End Mixup.

(** ** [lib/dataset.py]: [make_validation_set] and the validation set *)

(** [str(z)] for an integer. *)
Definition py_str (z : Z) : string :=
  DecimalString.NilZero.string_of_int (Z.to_int z).

(** [os.path.basename(p)] (POSIX). *)
Definition basename (p : string) : string :=
  let i := Z.to_nat (rfind "/" p + 1) in
  substring i (String.length p - i) p.

(** [os.path.splitext(p)[0]] (POSIX). *)
Definition splitext_root (p : string) : string :=
  let sepIndex := rfind "/" p in
  let dotIndex := rfind "." p in
  if sepIndex <? dotIndex then
    let filenameIndex := Z.to_nat (sepIndex + 1) in
    let stem := substring filenameIndex (Z.to_nat dotIndex - filenameIndex) p in
    if existsb (fun a => negb (Ascii.eqb a ".")) (list_ascii_of_string stem)
    then substring 0 (Z.to_nat dotIndex) p
    else p
  else p.

(** ['cs{}_sr{}_hl{}_nf{}_of{}'.format(cropsize, sr, hop_length, n_fft, offset)] *)
Definition patch_dir_name (cropsize sr hop_length n_fft offset : Z) : string :=
  ("cs" ++ py_str cropsize ++ "_sr" ++ py_str sr ++ "_hl" ++ py_str hop_length
   ++ "_nf" ++ py_str n_fft ++ "_of" ++ py_str offset)%string.

(** ['{}_p{}.npz'.format(basename, j)] *)
Definition patch_name (stem : string) (j : Z) : string :=
  (stem ++ "_p" ++ py_str j ++ ".npz")%string.

(** The validation set object: the list of patch files. *)
Record VocalRemoverValidationSet : Type := { filelist : list string }.

(** What a path holds on disk: a directory, an [.npz] archive with its
    named arrays, or anything else (a truncated or foreign file); for the
    last, [e] is the exception in which loading it ends. *)
Inductive node (A : Type) : Type :=
| Dir
| Npz (members : list (string * ndarray3 A))
| Other (e : exn).

Arguments Dir {A}.
Arguments Npz {A} members.
Arguments Other {A} e.

Section ValidationSet.
Context {A : Type} `{Dtype A}.
Variable cache_or_load :
  string -> string -> Z -> Z -> Z -> result (ndarray3 A * ndarray3 A).

(** Whether the operating system lets the program create the given path
    (permissions, free space). *)
Variable writable : string -> bool.

(** The disk, most recent entry first. *)
Definition disk : Type := list (string * node A).

Fixpoint lookup (d : disk) (path : string) : option (node A) :=
  match d with
  | [] => None
  | (p, v) :: d' => if String.eqb p path then Some v else lookup d' path
  end.

(** [os.path.exists(path)]: true of directories and of files of any
    kind. *)
Definition path_exists (d : disk) (path : string) : bool :=
  match lookup d path with Some _ => true | None => false end.

(** [os.makedirs(path, exist_ok=True)] for a path of one component: an
    existing directory is accepted, anything else of that name is a
    [FileExistsError] (an [OSError]). *)
Definition makedirs (d : disk) (path : string) : result disk :=
  match lookup d path with
  | Some Dir => Ok d
  | Some _ => Raise OSError
  | None => if writable path then Ok ((path, Dir) :: d) else Raise OSError
  end.

(** [np.savez(path, X=X, y=y)]: writes, or overwrites, the archive.  The
    directory of [path] is the one [makedirs] has just made. *)
Definition np_savez (d : disk) (path : string) (X y : ndarray3 A)
  : result disk :=
  match lookup d path with
  | Some Dir => Raise OSError
  | _ =>
      if writable path
      then Ok ((path, Npz [("X"%string, X); ("y"%string, y)]) :: d)
      else Raise OSError
  end.

(** [np.load(path)]: a missing path and a directory are [OSError]s. *)
Definition np_load (d : disk) (path : string)
  : result (list (string * ndarray3 A)) :=
  match lookup d path with
  | Some (Npz members) => Ok members
  | Some (Other e) => Raise e
  | Some Dir => Raise OSError
  | None => Raise OSError
  end.

(** [data[key]] on a loaded archive. *)
Fixpoint npz_getitem (data : list (string * ndarray3 A)) (key : string)
  : result (ndarray3 A) :=
  match data with
  | [] => Raise KeyError
  | (k, v) :: data' => if String.eqb k key then Ok v else npz_getitem data' key
  end.

(** Lines 151-158: one patch of one file. *)
Definition validation_patch_step (patch_dir stem : string)
    (cropsize roi_size : Z) (X_pad y_pad : ndarray3 A)
    (st : list string * disk) (j : Z) : result (list string * disk) :=
  let '(patch_list, d) := st in
  let outpath := path_join patch_dir (patch_name stem j) in
  let start := j * roi_size in
  d <- (if negb (path_exists d outpath) then
          np_savez d outpath
            (slice_time (Some start) (Some (start + cropsize)) X_pad)
            (slice_time (Some start) (Some (start + cropsize)) y_pad)
        else Ok d) ;;
  Ok (patch_list ++ [outpath], d).

(** Lines 139-158: one file pair. *)
Definition validation_file_step (patch_dir : string)
    (cropsize sr hop_length n_fft offset : Z)
    (st : list string * disk) (entry : Z * (string * string))
  : result (list string * disk) :=
  let '(i, (X_path, y_path)) := entry in
  let stem := splitext_root (basename X_path) in
  '(X, y) <- cache_or_load X_path y_path sr hop_length n_fft ;;
  Xmax <- amax X ;;
  ymax <- amax y ;;
  let coef := maximum Xmax ymax in
  let X := divide X coef in
  let y := divide y coef in
  width <- shape2 X ;;
  '(l, r, roi_size) <- make_padding width cropsize offset ;;
  X_pad <- pad_time X l r ;;
  y_pad <- pad_time y l r ;;
  let len_dataset := ceil_div width roi_size in
  foldM (validation_patch_step patch_dir stem cropsize roi_size X_pad y_pad)
        (range len_dataset) st.

(** [make_validation_set], with the disk before and after. *)
Definition make_validation_set (d : disk) (files : list (string * string))
    (cropsize sr hop_length n_fft offset : Z)
  : result (VocalRemoverValidationSet * disk) :=
  let patch_dir := patch_dir_name cropsize sr hop_length n_fft offset in
  d <- makedirs d patch_dir ;;
  '(patch_list, d) <-
    foldM (validation_file_step patch_dir cropsize sr hop_length n_fft offset)
          (combine (range (Z.of_nat (length files))) files)
          ([], d) ;;
  Ok ({| filelist := patch_list |}, d).

(** [VocalRemoverValidationSet.__len__] *)
Definition validation_len (s : VocalRemoverValidationSet) : Z :=
  Z.of_nat (length (filelist s)).

(** [VocalRemoverValidationSet.__getitem__]; [absolute] is [np.abs] on one
    element. *)
Definition validation_getitem {M : Type} (absolute : A -> M) (d : disk)
    (s : VocalRemoverValidationSet) (idx : Z)
  : result (ndarray3 M * ndarray3 M) :=
  path <- getitem (filelist s) idx ;;
  data <- np_load d path ;;
  X <- npz_getitem data "X" ;;
  y <- npz_getitem data "y" ;;
  Ok (map_rows (map absolute) X, map_rows (map absolute) y).
End ValidationSet.

Arguments disk A : clear implicits.

(** ** Auxiliary notions for the further properties *)

(** Ascending order on paths, as Python compares strings. *)
Definition string_le (a b : string) : Prop := String.leb a b = true.

(** ** Concrete inputs for the further properties *)

(** A directory tree with two recognised files in each directory. *)
Definition even_tree (dir : string) : result (list string) :=
  if String.eqb dir "mix" then Ok ["b.wav"; "readme.md"; "a.mp3"]%string
  else if String.eqb dir "inst" then Ok ["a.flac"; "b.wav"]%string
  else Raise OSError.

(** A shuffle that happens to reverse the list. *)
Definition reversing_shuffle (l : list (string * string))
  : list (string * string) := rev l.

(** The binary64 value nearest to [0.1]. *)
Definition rate_0_1 : float64 := S754_finite false 0x1999999999999a (-56).

(** The binary64 values of the literals [0.25] and [0.53]. *)
Definition p_025 : float64 := S754_finite false 0x10000000000000 (-54).
Definition p_053 : float64 := S754_finite false 0x10f5c28f5c28f6 (-53).

(** A second dataset with one entry of shape [(2, 1, 1)]: the channels hold
    5 and 7. *)
Definition other_patch : ndarray4 complex64 :=
  [[[[c64_of_Z 5]]; [[c64_of_Z 7]]]].

(** A random source whose uniform draws are all [0.75]. *)
Definition rng_plain : Rng :=
  {| int_tape := fun k => Z.of_nat k;
     uniform_tape := fun _ => S754_finite false 0x18000000000000 (-53);
     int_pos := 0;
     uniform_pos := 0 |}.

(** Two-channel arrays with one bin and three frames. *)
Definition padded_mix : ndarray3 complex64 :=
  [[[c64_of_Z 1; c64_of_Z 2; c64_of_Z 3]]; [[c64_of_Z 4; c64_of_Z 5; c64_of_Z 6]]].
Definition padded_inst : ndarray3 complex64 :=
  [[[c64_of_Z 0; c64_of_Z 1; c64_of_Z 2]]; [[c64_of_Z 3; c64_of_Z 4; c64_of_Z 5]]].

(** A dataset with one entry of shape [(2, 1, 2)], all zero. *)
Definition blank_entry : ndarray4 complex64 :=
  [[[[c64_of_Z 0; c64_of_Z 0]]; [[c64_of_Z 0; c64_of_Z 0]]]].

(** [extends d d']: every archive of [d] is still there, unchanged, in [d']. *)
Definition extends {A : Type} (d d' : disk A) : Prop :=
  forall p v, lookup d p = Some v -> lookup d' p = Some v.

(** The path of patch [j] of the file with stem [stem]. *)
Definition outpath (patch_dir stem : string) (j : Z) : string :=
  path_join patch_dir (patch_name stem j).

(** The number of validation patches of files with the given widths. *)
Definition patch_count (roi_size : Z) (widths : list nat) : Z :=
  fold_right Z.add 0 (map (fun w => ceil_div (Z.of_nat w) roi_size) widths).

(** [np.abs] on complex numbers whose imaginary part is zero, as in the
    examples: the absolute value of the real part. *)
Definition abs_of_real (z : complex64) : float32 := SFabs (re z).

(** The archive that [np.savez(path, X=X, y=y)] leaves. *)
Definition archive {A : Type} (X y : ndarray3 A) : node A :=
  Npz [("X"%string, X); ("y"%string, y)].

(** The last character of a string. *)
Fixpoint last_ascii (s : string) : option ascii :=
  match s with
  | EmptyString => None
  | String a s' =>
      match last_ascii s' with
      | None => Some a
      | Some c => Some c
      end
  end.

(** An operating system that refuses no write. *)
Definition all_writable (path : string) : bool := true.

(** A disk on which the first patch of [mix/a.wav] for the parameters
    [(4, 44100, 1024, 2, 1)] is already there, but is not an archive. *)
Definition stale_disk : disk complex64 :=
  [("cs4_sr44100_hl1024_nf2_of1/a_p0.npz"%string, Other ValueError)].

(** A disk on which a regular file has the name of the patch directory for
    the parameters [(4, 44100, 1024, 2, 1)]. *)
Definition blocked_disk : disk complex64 :=
  [("cs4_sr44100_hl1024_nf2_of1"%string, Other ValueError)].

(** Two file pairs with different stems. *)
Definition two_files : list (string * string) :=
  [("mix/a.wav", "inst/a.wav"); ("mix/b.wav", "inst/b.wav")]%string.

Section MixupNotions.
Context {T : Type}.
Variable scale : float64 -> T -> T.
Variable plus : T -> T -> T.


End MixupNotions.

(** Concrete inputs for [mixup_generator]: arrays of binary64 scalars, with
    the scalar product and sum that numpy applies entrywise, and a beta
    source that always draws [0.5]. *)
Definition f64_add : float64 -> float64 -> float64 := SFadd f64_prec f64_emax.

Definition float_heap : heap float64 :=
  [map f64_of_Z [10; 20; 30; 40]; map f64_of_Z [1; 2; 3; 4]].

Definition half_beta (alpha : float64) (draw : nat) : float64 := rate_0_5.

(* ================================================================== *)
(** * Part II. Properties *)
(* ================================================================== *)

(** ** The padding calculator *)

Lemma make_padding_eq (width cropsize offset : Z) :
  0 < cropsize ->
  let roi_size :=
    if cropsize - 2 * offset =? 0 then cropsize else cropsize - 2 * offset in
  make_padding width cropsize offset
  = Ok (offset, roi_size - width mod roi_size + offset, roi_size).
Proof.
  intros Hc roi_size. unfold make_padding.
  replace (cropsize - offset * 2) with (cropsize - 2 * offset) by lia.
  fold roi_size.
  assert (Hroi : roi_size <> 0).
  { unfold roi_size. destruct (cropsize - 2 * offset =? 0) eqn:E; lia. }
  apply Z.eqb_neq in Hroi. rewrite Hroi. reflexivity.
Qed.

Lemma padded_width_multiple (width roi_size : Z) :
  roi_size <> 0 ->
  (width + (roi_size - width mod roi_size)) mod roi_size = 0.
Proof.
  intros Hroi.
  replace (width + (roi_size - width mod roi_size))
    with ((width / roi_size + 1) * roi_size)
    by (pose proof (Z.div_mod width roi_size Hroi); lia).
  apply Z.mod_mul. exact Hroi.
Qed.

(** C2. For [width > 0], [tile_size > 0], [offset >= 0] and
    [tile_size > 2 * offset], [make_padding] returns [left = offset],
    [roi_size = tile_size - 2 * offset] and
    [right = roi_size - width mod roi_size + left]; then
    [(width + left + right - 2 * offset) mod roi_size = 0], and at an exact
    multiple of [roi_size] the right pad is [roi_size + left]. *)
Theorem make_padding_spec (width tile_size offset : Z) :
  0 < width -> 0 < tile_size -> 0 <= offset -> 2 * offset < tile_size ->
  exists left right roi_size,
    make_padding width tile_size offset = Ok (left, right, roi_size)
    /\ left = offset
    /\ roi_size = tile_size - 2 * offset
    /\ right = roi_size - width mod roi_size + left
    /\ (width + left + right - 2 * offset) mod roi_size = 0
    /\ (width mod roi_size = 0 -> right = roi_size + left).
Proof.
  intros Hw Ht Ho Hroi.
  pose proof (make_padding_eq width tile_size offset Ht) as E. cbv zeta in E.
  assert (Hnz : (tile_size - 2 * offset =? 0) = false) by (apply Z.eqb_neq; lia).
  rewrite Hnz in E.
  eexists _, _, _. split; [exact E|].
  repeat split.
  - replace (width + offset
             + (tile_size - 2 * offset
                - width mod (tile_size - 2 * offset) + offset) - 2 * offset)
      with (width + ((tile_size - 2 * offset)
                     - width mod (tile_size - 2 * offset))) by lia.
    apply padded_width_multiple. lia.
  - intros Hm. rewrite Hm. lia.
Qed.

Lemma make_padding_spec_witness :
  exists left right roi_size,
    make_padding 10 8 2 = Ok (left, right, roi_size)
    /\ left = 2
    /\ roi_size = 8 - 2 * 2
    /\ right = roi_size - 10 mod roi_size + left
    /\ (10 + left + right - 2 * 2) mod roi_size = 0
    /\ (10 mod roi_size = 0 -> right = roi_size + left).
Proof. apply (make_padding_spec 10 8 2); lia. Defined.

(** The worked example of the specification: width 10, tile 8, margin 2. *)
Example make_padding_example : make_padding 10 8 2 = Ok (2, 4, 4).
Proof. reflexivity. Qed.

(** C4 as stated fails: with [tile_size = 4] and [offset = 3] the difference
    [tile_size - 2 * offset] is negative, and [make_padding] keeps it as
    [roi_size] instead of falling back to [tile_size]. *)
Lemma make_padding_negative_roi :
  make_padding 10 4 3 = Ok (3, 1, -2)
  /\ ~ (0 < 10 -> 0 < 4 -> 0 <= 3 -> 4 - 2 * 3 <= 0 ->
        exists left right, make_padding 10 4 3 = Ok (left, right, 4)).
Proof.
  split; [reflexivity|].
  intros Hclaim.
  destruct Hclaim as (l & r & E); try lia.
  discriminate E.
Qed.

(** C4, amended. For [width > 0], [tile_size > 0] and [offset >= 0],
    [make_padding] returns [roi_size = tile_size] exactly when
    [tile_size - 2 * offset] is zero, and [roi_size = tile_size - 2 * offset]
    otherwise, also when that difference is negative. *)
Theorem make_padding_roi_size (width tile_size offset : Z) :
  0 < width -> 0 < tile_size -> 0 <= offset ->
  exists left right roi_size,
    make_padding width tile_size offset = Ok (left, right, roi_size)
    /\ (tile_size - 2 * offset = 0 -> roi_size = tile_size)
    /\ (tile_size - 2 * offset <> 0 -> roi_size = tile_size - 2 * offset).
Proof.
  intros _ Ht _.
  pose proof (make_padding_eq width tile_size offset Ht) as E. cbv zeta in E.
  eexists _, _, _. split; [exact E|].
  destruct (Z.eqb_spec (tile_size - 2 * offset) 0); split; intros; lia.
Qed.

Lemma make_padding_roi_size_witness :
  exists left right roi_size,
    make_padding 10 4 2 = Ok (left, right, roi_size)
    /\ (4 - 2 * 2 = 0 -> roi_size = 4)
    /\ (4 - 2 * 2 <> 0 -> roi_size = 4 - 2 * 2).
Proof. apply (make_padding_roi_size 10 4 2); lia. Defined.

(** ** The file pair list *)

Lemma insert_sorted_length (x : string) (l : list string) :
  length (insert_sorted x l) = S (length l).
Proof.
  induction l as [|y l IH]; simpl; [reflexivity|].
  destruct (String.leb x y); simpl; [reflexivity|].
  now rewrite IH.
Qed.

Lemma sorted_length (l : list string) : length (sorted l) = length l.
Proof.
  induction l as [|x l IH]; simpl; [reflexivity|].
  now rewrite insert_sorted_length, IH.
Qed.

(** C5 as stated fails: listings of unequal length do not stop the build;
    the surplus mixture file is dropped and the remaining files are paired
    by position. *)
Lemma make_pair_uneven_truncates :
  audio_files uneven_tree "mix" = Ok ["mix/a.wav"; "mix/b.wav"; "mix/c.mp3"]%string
  /\ audio_files uneven_tree "inst" = Ok ["inst/a.wav"; "inst/z.flac"]%string
  /\ make_pair uneven_tree "mix" "inst"
     = Ok [("mix/a.wav", "inst/a.wav"); ("mix/b.wav", "inst/z.flac")]%string
  /\ ~ (exists e, make_pair uneven_tree "mix" "inst" = Raise e).
Proof.
  repeat split; try reflexivity.
  intros [e E]. vm_compute in E. discriminate E.
Qed.

(** C5, amended. When both directories can be listed, [make_pair] returns
    the position-wise pairing of the two filtered, sorted listings, cut to
    the length of the shorter one; no error is raised when the lengths
    differ. *)
Theorem make_pair_truncates (listdir : string -> result (list string))
    (mix_dir inst_dir : string) (mix_names inst_names : list string) :
  listdir mix_dir = Ok mix_names ->
  listdir inst_dir = Ok inst_names ->
  let X_list := sorted (map (path_join mix_dir)
                            (filter has_input_ext mix_names)) in
  let y_list := sorted (map (path_join inst_dir)
                            (filter has_input_ext inst_names)) in
  make_pair listdir mix_dir inst_dir = Ok (combine X_list y_list)
  /\ length (combine X_list y_list)
     = Nat.min (length (filter has_input_ext mix_names))
               (length (filter has_input_ext inst_names)).
Proof.
  intros Hm Hi X_list y_list. split.
  - unfold make_pair, audio_files. rewrite Hm, Hi. reflexivity.
  - rewrite length_combine. unfold X_list, y_list.
    now rewrite !sorted_length, !length_map.
Qed.

Lemma make_pair_truncates_witness :
  make_pair uneven_tree "mix" "inst"
  = Ok (combine
          (sorted (map (path_join "mix")
                       (filter has_input_ext
                               ["b.wav"; "a.wav"; "notes.txt"; "c.mp3"]%string)))
          (sorted (map (path_join "inst")
                       (filter has_input_ext ["a.wav"; "z.flac"]%string)))).
Proof.
  exact (proj1 (make_pair_truncates uneven_tree "mix" "inst"
                  ["b.wav"; "a.wav"; "notes.txt"; "c.mp3"]%string
                  ["a.wav"; "z.flac"]%string eq_refl eq_refl)).
Defined.

(** ** Python slices as [firstn] and [skipn] *)

Lemma firstn_plus {B : Type} (a b : nat) (l : list B) :
  firstn (a + b) l = firstn a l ++ firstn b (skipn a l).
Proof.
  revert l. induction a as [|a IH]; intros l; simpl; [reflexivity|].
  destruct l as [|x l]; simpl.
  - now rewrite firstn_nil.
  - now rewrite IH.
Qed.

Lemma py_slice_nonneg {B : Type} (s e : Z) (l : list B) :
  0 <= s -> 0 <= e ->
  py_slice (Some s) (Some e) l
  = firstn (Z.to_nat e - Z.to_nat s) (skipn (Z.to_nat s) l).
Proof.
  intros Hs He. unfold py_slice, clamp_index.
  destruct (Z.ltb_spec s 0); [lia|]. destruct (Z.ltb_spec e 0); [lia|].
  destruct (Z_lt_le_dec s (Z.of_nat (length l))) as [Hlt|Hge].
  - replace (Z.max 0 (Z.min (Z.of_nat (length l)) s)) with s by lia.
    destruct (Z_lt_le_dec e (Z.of_nat (length l))) as [Hlt'|Hge'].
    + replace (Z.max 0 (Z.min (Z.of_nat (length l)) e)) with e by lia.
      f_equal. lia.
    + replace (Z.max 0 (Z.min (Z.of_nat (length l)) e))
        with (Z.of_nat (length l)) by lia.
      rewrite !firstn_all2; try reflexivity; rewrite length_skipn; lia.
  - rewrite !(skipn_all2 l) by lia. now rewrite !firstn_nil.
Qed.

Lemma py_slice_to {B : Type} (e : Z) (l : list B) :
  0 <= e -> py_slice None (Some e) l = firstn (Z.to_nat e) l.
Proof.
  intros He. unfold py_slice, clamp_index. simpl skipn.
  destruct (Z.ltb_spec e 0); [lia|].
  destruct (Z_lt_le_dec e (Z.of_nat (length l))) as [Hlt|Hge].
  - f_equal. lia.
  - rewrite !firstn_all2; try reflexivity; lia.
Qed.

Lemma py_slice_from {B : Type} (s : Z) (l : list B) :
  0 <= s -> py_slice (Some s) None l = skipn (Z.to_nat s) l.
Proof.
  intros Hs. unfold py_slice, clamp_index.
  destruct (Z.ltb_spec s 0); [lia|].
  destruct (Z_lt_le_dec s (Z.of_nat (length l))) as [Hlt|Hge].
  - replace (Z.max 0 (Z.min (Z.of_nat (length l)) s)) with s by lia.
    apply firstn_all2. rewrite length_skipn. lia.
  - rewrite !(skipn_all2 l) by lia. now rewrite firstn_nil.
Qed.

Lemma py_slice_full {B : Type} (l : list B) :
  py_slice (Some 0) (Some (Z.of_nat (length l))) l = l.
Proof.
  rewrite py_slice_nonneg by lia. simpl. apply firstn_all2. lia.
Qed.

(** ** Windows over one padded row *)

Section Windows.
Context {B : Type}.

Lemma kept_eq (roi T o : nat) (p : list B) (i : nat) :
  kept roi T o p i
  = firstn (Nat.min T (length p - i * roi) - 2 * o) (skipn (i * roi + o) p).
Proof.
  unfold kept. rewrite length_firstn, length_skipn.
  rewrite skipn_firstn_comm, firstn_firstn, skipn_skipn.
  f_equal; [lia|]. f_equal. lia.
Qed.

Lemma kept_full (roi T o : nat) (p : list B) (i : nat) :
  T = (roi + 2 * o)%nat -> (i * roi + T <= length p)%nat ->
  kept roi T o p i = firstn roi (skipn (i * roi + o) p).
Proof.
  intros HT Hlen. rewrite kept_eq. f_equal. lia.
Qed.

Lemma concat_strided (roi o : nat) (p : list B) (n : nat) :
  concat (map (fun i => firstn roi (skipn (i * roi + o) p)) (seq 0 n))
  = firstn (n * roi) (skipn o p).
Proof.
  induction n as [|n IH]; [reflexivity|].
  rewrite seq_S, map_app, concat_app, IH. simpl.
  rewrite app_nil_r, (Nat.add_comm roi), firstn_plus, skipn_skipn.
  reflexivity.
Qed.

(** Concatenating the kept parts of [n + 1] windows, dropping [h] leading
    frames and keeping [W]: the row comes back when the first [n] windows
    are full and the last one reaches far enough. *)
Lemma kept_windows_row (roi T o h n W r : nat) (z : B) (row : list B) :
  T = (roi + 2 * o)%nat ->
  length row = W ->
  let p := repeat z (o + h) ++ row ++ repeat z r in
  (n * roi + 2 * o <= length p)%nat ->
  (W + h + 2 * o <= n * roi + Nat.min T (length p - n * roi))%nat ->
  firstn W (skipn h (concat (map (kept roi T o p) (seq 0 (S n))))) = row.
Proof.
  intros HT HW p Hfull Hlast.
  rewrite seq_S, map_app, concat_app. simpl. rewrite app_nil_r.
  rewrite (map_ext_in _ (fun i => firstn roi (skipn (i * roi + o) p))).
  2:{ intros i Hi. apply in_seq in Hi. apply kept_full; [exact HT|]. nia. }
  rewrite concat_strided, kept_eq.
  replace (skipn (n * roi + o) p) with (skipn (n * roi) (skipn o p))
    by (rewrite skipn_skipn; reflexivity).
  rewrite <- firstn_plus.
  rewrite skipn_firstn_comm, firstn_firstn, skipn_skipn.
  replace (Nat.min W _) with W by lia.
  unfold p. rewrite skipn_app, repeat_length.
  rewrite (skipn_all2 (repeat z (o + h))) by (rewrite repeat_length; lia).
  replace (h + o - (o + h))%nat with 0%nat by lia. simpl.
  rewrite firstn_app, HW, Nat.sub_diag.
  rewrite (firstn_all2 row) by lia.
  simpl. apply app_nil_r.
Qed.
End Windows.

(** ** Row-wise array operations *)

Lemma map_rows_map_rows {A B C : Type} (f : list B -> list C)
    (g : list A -> list B) (X : ndarray3 A) :
  map_rows f (map_rows g X) = map_rows (fun row => f (g row)) X.
Proof.
  unfold map_rows. rewrite map_map. apply map_ext. intros ch. apply map_map.
Qed.

Lemma map_rows_ext_in {A B : Type} (f g : list A -> list B) (X : ndarray3 A) :
  (forall ch row, In ch X -> In row ch -> f row = g row) ->
  map_rows f X = map_rows g X.
Proof.
  intros Hfg. unfold map_rows. apply map_ext_in. intros ch Hch.
  apply map_ext_in. intros row Hrow. now apply (Hfg ch).
Qed.

Lemma map_rows_id {A : Type} (f : list A -> list A) (X : ndarray3 A) :
  (forall ch row, In ch X -> In row ch -> f row = row) ->
  map_rows f X = X.
Proof.
  intros Hf. rewrite (map_rows_ext_in f (fun row => row)) by exact Hf.
  unfold map_rows. rewrite (map_ext _ (fun ch => ch)); [apply map_id|].
  intros ch. apply map_id.
Qed.

Lemma zip_strict_map {A B : Type} (f g : A -> B) (k : B -> B -> result B)
    (j : A -> B) (l : list A) :
  (forall x, In x l -> k (f x) (g x) = Ok (j x)) ->
  zip_strict k (map f l) (map g l) = Ok (map j l).
Proof.
  induction l as [|x l IH]; intros Hk; simpl; [reflexivity|].
  rewrite Hk by (now left). simpl.
  rewrite IH by (intros y Hy; apply Hk; now right). reflexivity.
Qed.

Lemma concatenate2_map_rows {A B : Type} (f g : list A -> list B)
    (X : ndarray3 A) :
  concatenate2 (map_rows f X) (map_rows g X)
  = Ok (map_rows (fun row => f row ++ g row) X).
Proof.
  unfold concatenate2, map_rows.
  apply zip_strict_map. intros ch _.
  apply zip_strict_map. intros row _. reflexivity.
Qed.

Lemma concatenate_fold_map_rows {A B : Type} (fs : list (list A -> list B))
    (g : list A -> list B) (X : ndarray3 A) :
  fold_left (fun acc b => a' <- acc ;; concatenate2 a' b)
            (map (fun f => map_rows f X) fs) (Ok (map_rows g X))
  = Ok (map_rows (fun row => g row ++ concat (map (fun f => f row) fs)) X).
Proof.
  revert g. induction fs as [|f fs IH]; intros g; simpl.
  - f_equal. apply map_rows_ext_in. intros. now rewrite app_nil_r.
  - rewrite concatenate2_map_rows, IH. f_equal.
    apply map_rows_ext_in. intros. now rewrite app_assoc.
Qed.

Lemma concatenate_map_rows {A B : Type} (fs : list (list A -> list B))
    (X : ndarray3 A) :
  fs <> [] ->
  concatenate (map (fun f => map_rows f X) fs)
  = Ok (map_rows (fun row => concat (map (fun f => f row) fs)) X).
Proof.
  destruct fs as [|f fs]; [congruence|]. intros _. simpl.
  apply concatenate_fold_map_rows.
Qed.

Lemma has_shape_row {B : Type} (X : ndarray3 B) (c f t : nat) :
  has_shape X c f t ->
  forall ch row, In ch X -> In row ch -> length row = t.
Proof.
  intros [_ HX] ch row Hch Hrow.
  rewrite Forall_forall in HX. destruct (HX ch Hch) as [_ Hrows].
  rewrite Forall_forall in Hrows. now apply Hrows.
Qed.

Lemma has_shape_map_rows {A B : Type} (g : list A -> list B)
    (X : ndarray3 A) (c f t t' : nat) :
  has_shape X c f t ->
  (forall row, length row = t -> length (g row) = t') ->
  has_shape (map_rows g X) c f t'.
Proof.
  intros [Hc HX] Hg. split; [unfold map_rows; now rewrite length_map|].
  unfold map_rows. rewrite Forall_map.
  eapply Forall_impl; [|exact HX]. intros ch [Hf Hrows]. split.
  - now rewrite length_map.
  - rewrite Forall_map. eapply Forall_impl; [|exact Hrows].
    intros row Hrow. now apply Hg.
Qed.

Lemma shape2_has_shape {B : Type} (X : ndarray3 B) (c f t : nat) :
  has_shape X c f t -> (0 < c)%nat -> (0 < f)%nat ->
  shape2 X = Ok (Z.of_nat t).
Proof.
  intros [Hc HX] Hcpos Hfpos.
  destruct X as [|ch X]; [simpl in Hc; lia|].
  inversion HX as [|? ? [Hf Hrows] _]; subst.
  destruct ch as [|row ch]; [simpl in Hfpos; lia|].
  inversion Hrows; subst. reflexivity.
Qed.

Lemma amax_has_shape {A : Type} `{Dtype A} (X : ndarray3 A) (c f t : nat) :
  has_shape X c f t -> (0 < c)%nat -> (0 < f)%nat -> (0 < t)%nat ->
  exists coef, amax X = Ok coef.
Proof.
  intros [Hc HX] Hcpos Hfpos Htpos.
  destruct X as [|ch X]; [simpl in Hc; lia|].
  inversion HX as [|? ? [Hf Hrows] _]; subst.
  destruct ch as [|row ch]; [simpl in Hfpos; lia|].
  inversion Hrows as [|? ? Hrow _]; subst.
  destruct row as [|x row]; [simpl in Htpos; lia|].
  unfold amax. simpl. eexists. reflexivity.
Qed.

(** ** Windows at the level of [reconstruct] *)

Lemma trim_firstn {B : Type} (o : Z) (w : list B) :
  0 <= o ->
  trim o w = firstn (length w - 2 * Z.to_nat o) (skipn (Z.to_nat o) w).
Proof.
  intros Ho. unfold trim.
  destruct (Z_le_gt_dec o (Z.of_nat (length w))) as [Hle|Hgt].
  - rewrite py_slice_nonneg by lia. f_equal. lia.
  - replace (length w - 2 * Z.to_nat o)%nat with 0%nat by lia.
    unfold py_slice, clamp_index.
    destruct (Z.ltb_spec o 0); [lia|].
    destruct (Z.ltb_spec (Z.of_nat (length w) - o) 0); [|lia].
    replace (Z.to_nat _) with 0%nat by lia. reflexivity.
Qed.

Lemma trim_zero {B : Type} (w : list B) : trim 0 w = w.
Proof.
  rewrite trim_firstn by lia. simpl. apply firstn_all2. lia.
Qed.

(** A predictor without margin that returns each window unchanged returns
    the region of interest of each window. *)
Lemma identity_returns_roi {A : Type} (model : Predictor A) :
  offset model = 0 -> (forall w, predict model w = w) -> returns_roi model.
Proof.
  intros Ho Hid w. rewrite Hid, Ho. symmetry.
  apply map_rows_id. intros. apply trim_zero.
Qed.

Lemma trimming_model_returns_roi {A : Type} (o : Z) :
  returns_roi (@trimming_model A o).
Proof. intros w. reflexivity. Qed.

Lemma window_kept {B : Type} (roi T o : Z) (p : list B) (i : nat) :
  0 <= roi -> 0 <= T -> 0 <= o ->
  trim o (py_slice (Some (Z.of_nat i * roi)) (Some (Z.of_nat i * roi + T)) p)
  = kept (Z.to_nat roi) (Z.to_nat T) (Z.to_nat o) p i.
Proof.
  intros Hroi HT Ho.
  rewrite trim_firstn by exact Ho.
  rewrite py_slice_nonneg by nia.
  unfold kept.
  replace (Z.to_nat (Z.of_nat i * roi)) with (i * Z.to_nat roi)%nat
    by (rewrite Z2Nat.inj_mul, Nat2Z.id; lia).
  replace (Z.to_nat (Z.of_nat i * roi + T) - i * Z.to_nat roi)%nat
    with (Z.to_nat T)
    by (rewrite Z2Nat.inj_add, Z2Nat.inj_mul, Nat2Z.id; lia).
  reflexivity.
Qed.

(** Bounds on the number of windows. *)
Lemma ceil_div_bounds (w roi : Z) :
  0 < roi -> w <= ceil_div w roi * roi < w + roi.
Proof.
  intros Hroi. unfold ceil_div.
  pose proof (Z.div_mod (- w) roi ltac:(lia)) as E.
  pose proof (Z.mod_pos_bound (- w) roi Hroi) as Hb.
  lia.
Qed.

Section Reconstruction.
Context {A : Type} `{Dtype A}.

(** What the windows of one row give back, in terms of Python slices. *)
Lemma windows_row (roi T o h N r : Z) (W : nat) (row : list A) :
  0 < roi -> 0 <= o -> T = roi + 2 * o -> 0 <= h -> 1 <= N -> o <= r ->
  length row = W ->
  (N - 1) * roi <= h + Z.of_nat W + r - o ->
  Z.of_nat W + h <= N * roi ->
  firstn W
    (skipn (Z.to_nat h)
       (concat
          (map (fun i =>
                  trim o (py_slice (Some (i * roi)) (Some (i * roi + T))
                            (zeros (o + h) ++ row ++ zeros r)))
               (range N))))
  = row.
Proof.
  intros Hroi Ho HT Hh HN Hr HW Hfull Hlast.
  unfold range. rewrite map_map.
  rewrite (map_ext _ (kept (Z.to_nat roi) (Z.to_nat T) (Z.to_nat o)
                           (zeros (o + h) ++ row ++ zeros r)))
    by (intros i; apply window_kept; lia).
  replace (Z.to_nat N) with (S (Z.to_nat (N - 1))) by lia.
  unfold zeros.
  replace (Z.to_nat (o + h)) with (Z.to_nat o + Z.to_nat h)%nat by lia.
  assert (Hprod : Z.of_nat (Z.to_nat (N - 1) * Z.to_nat roi) = (N - 1) * roi)
    by (rewrite Nat2Z.inj_mul, !Z2Nat.id; lia).
  apply kept_windows_row; try lia.
  - rewrite !length_app, !repeat_length. lia.
  - rewrite !length_app, !repeat_length. lia.
Qed.

(** For a predictor that returns the region of interest of each window,
    [reconstruct] gives back every entry divided and then multiplied by the
    normalisation coefficient, with or without the shifted pass. *)
Lemma reconstruct_rescales (X : ndarray3 A) (tile_size : Z)
    (model : Predictor A) (tta : bool) (c f w : nat) (coef : A) :
  has_shape X c f w -> (0 < c)%nat -> (0 < f)%nat -> (0 < w)%nat ->
  0 <= offset model -> 2 * offset model < tile_size ->
  returns_roi model ->
  amax X = Ok coef ->
  reconstruct X tile_size model tta = Ok (multiply (divide X coef) coef).
Proof.
  intros HX Hc Hf Hw Ho HT Hroi Hmax.
  set (o := offset model) in *.
  set (roi := tile_size - 2 * o).
  set (W := Z.of_nat w).
  set (r := roi - W mod roi + o).
  set (n := ceil_div W roi).
  set (h := if tta then roi / 2 else 0).
  assert (Hroipos : 0 < roi) by (unfold roi; lia).
  pose proof (ceil_div_bounds W roi Hroipos) as Hn. fold n in Hn.
  pose proof (Z.mod_pos_bound W roi Hroipos) as Hm.
  assert (Hh : 0 <= h /\ 2 * h <= roi /\ (tta = true -> roi - 1 <= 2 * h)).
  { unfold h. destruct tta.
    - pose proof (Z.div_mod roi 2 ltac:(lia)).
      pose proof (Z.mod_pos_bound roi 2 ltac:(lia)). lia.
    - repeat split; first [lia | discriminate]. }
  assert (Hn1 : 1 <= n) by (unfold W in *; nia).
  assert (Htiling : tiling W tile_size model tta
                    = Ok (o + h, r + h, roi,
                          if tta then n + 1 else n)).
  { unfold tiling. fold o. rewrite make_padding_eq by lia. cbv zeta.
    fold roi. replace (roi =? 0) with false by (symmetry; apply Z.eqb_neq; lia).
    simpl. fold r n. unfold h. destruct tta; [reflexivity|].
    now rewrite !Z.add_0_r. }
  unfold reconstruct.
  rewrite Hmax. simpl.
  rewrite (shape2_has_shape X c f w HX Hc Hf). simpl. fold W.
  rewrite Htiling. simpl.
  unfold pad_time.
  replace ((o + h <? 0) || (r + h <? 0)) with false
    by (symmetry; apply orb_false_iff; split; apply Z.ltb_ge; unfold r; lia).
  simpl.
  unfold slice_time, divide, multiply.
  rewrite map_rows_map_rows.
  rewrite (map_ext _
    (fun i => map_rows
       (fun row =>
          trim (offset model)
            (py_slice (Some (i * roi)) (Some (i * roi + tile_size))
               (zeros (o + h) ++ map (fun x => div x coef) row
                              ++ zeros (r + h)))) X))
    by (intros i; rewrite Hroi, !map_rows_map_rows; reflexivity).
  rewrite <- (map_map
    (fun i row =>
       trim (offset model)
         (py_slice (Some (i * roi)) (Some (i * roi + tile_size))
            (zeros (o + h) ++ map (fun x => div x coef) row ++ zeros (r + h))))
    (fun g => map_rows g X)).
  rewrite concatenate_map_rows.
  2:{ unfold range. destruct tta.
      - replace (Z.to_nat (n + 1)) with (S (Z.to_nat n)) by lia. discriminate.
      - replace (Z.to_nat n) with (S (Z.to_nat (n - 1))) by lia. discriminate. }
  simpl. f_equal.
  assert (Hrow : forall row, length row = w ->
    py_slice None (Some W)
      (py_slice (Some h) None
         (concat
            (map (fun g => g row)
               (map (fun i row0 =>
                  trim (offset model)
                    (py_slice (Some (i * roi)) (Some (i * roi + tile_size))
                       (zeros (o + h) ++ map (fun x => div x coef) row0
                                      ++ zeros (r + h))))
                  (range (if tta then n + 1 else n))))))
    = map (fun x => div x coef) row).
  { intros row Hlen. rewrite map_map.
    rewrite py_slice_to by lia. rewrite py_slice_from by lia.
    replace (Z.to_nat W) with w by (unfold W; lia). fold o.
    apply windows_row; fold W; try lia.
    - destruct tta; lia.
    - now rewrite length_map.
    - unfold r. destruct tta.
      + destruct Hh as (_ & _ & Hodd). specialize (Hodd eq_refl). lia.
      + lia.
    - destruct tta; lia. }
  clear Hh Htiling. subst h.
  destruct tta; cbv iota in Hrow |- *.
  - rewrite !map_rows_map_rows.
    apply map_rows_ext_in. intros ch row Hch Hin.
    rewrite (Hrow row); [reflexivity|].
    exact (has_shape_row X c f w HX ch row Hch Hin).
  - rewrite !map_rows_map_rows.
    apply map_rows_ext_in. intros ch row Hch Hin.
    rewrite <- (Hrow row) by exact (has_shape_row X c f w HX ch row Hch Hin).
    f_equal. f_equal. rewrite py_slice_from by lia. reflexivity.
Qed.
End Reconstruction.

(** ** Reconstruction under an identity predictor *)

Lemma all_entries_map_rows_id {A : Type} (g : A -> A) (X : ndarray3 A) :
  all_entries (fun x => g x = x) X -> map_rows (map g) X = X.
Proof.
  intros Hall. apply map_rows_id. intros ch row Hch Hrow.
  unfold all_entries in Hall. rewrite Forall_forall in Hall.
  specialize (Hall ch Hch). rewrite Forall_forall in Hall.
  specialize (Hall row Hrow). rewrite Forall_forall in Hall.
  rewrite (map_ext_in g (fun x => x)) by exact Hall. apply map_id.
Qed.

Lemma multiply_divide {A : Type} `{Dtype A} (X : ndarray3 A) (coef : A) :
  multiply (divide X coef) coef
  = map_rows (map (fun x => mul (div x coef) coef)) X.
Proof.
  unfold multiply, divide. rewrite map_rows_map_rows.
  apply map_rows_ext_in. intros. apply map_map.
Qed.

(** C1 as stated fails: in binary32, dividing 7 by the coefficient 13 and
    multiplying back gives the next float above 7, so the reconstruction
    under the identity predictor differs from its input. *)
Lemma reconstruct_identity_not_exact :
  reconstruct magnitudes_7_13 4 (untrimmed_identity 0) false
  = Ok [[[f32_above_7; f32_of_Z 13]]; [[f32_of_Z 1; f32_of_Z 2]]]
  /\ SFeqb f32_above_7 (f32_of_Z 7) = false
  /\ reconstruct magnitudes_7_13 4 (untrimmed_identity 0) false
     <> Ok magnitudes_7_13.
Proof.
  split; [vm_compute; reflexivity|]. split; [vm_compute; reflexivity|].
  intros E. vm_compute in E. discriminate E.
Qed.

(** A predictor that declares a margin but returns whole windows shifts the
    output: the left padding ends up in the result. *)
Example reconstruct_untrimmed_margin :
  reconstruct [[[f32_of_Z 1; f32_of_Z 2; f32_of_Z 4]]] 4
              (untrimmed_identity 1) false
  = Ok [[[S754_zero false; f32_of_Z 1; f32_of_Z 2]]].
Proof. vm_compute. reflexivity. Qed.

(** C1, amended. For a spectrogram of shape [(c, f, w)] with positive
    dimensions, a tile size above twice the margin, and a predictor that
    returns each window without its margin (with margin 0: the identity on
    each window), [reconstruct] without the shifted pass returns every
    entry [x] as [(x / coef) * coef], where [coef] is the maximum of the
    input; this is the input itself whenever every entry survives the
    division and multiplication unchanged. *)
Theorem reconstruct_identity_unshifted {A : Type} `{Dtype A}
    (X : ndarray3 A) (tile_size : Z) (model : Predictor A) (c f w : nat) :
  has_shape X c f w -> (0 < c)%nat -> (0 < f)%nat -> (0 < w)%nat ->
  0 <= offset model -> 2 * offset model < tile_size ->
  returns_roi model ->
  exists coef,
    amax X = Ok coef
    /\ reconstruct X tile_size model false
       = Ok (map_rows (map (fun x => mul (div x coef) coef)) X)
    /\ (all_entries (fun x => mul (div x coef) coef = x) X ->
        reconstruct X tile_size model false = Ok X).
Proof.
  intros HX Hc Hf Hw Ho HT Hroi.
  destruct (amax_has_shape X c f w HX Hc Hf Hw) as [coef Hmax].
  exists coef. split; [exact Hmax|].
  pose proof (reconstruct_rescales X tile_size model false c f w coef
                HX Hc Hf Hw Ho HT Hroi Hmax) as E.
  rewrite multiply_divide in E. split; [exact E|].
  intros Hall. rewrite E. f_equal. now apply all_entries_map_rows_id.
Qed.

Lemma reconstruct_identity_unshifted_witness :
  reconstruct magnitudes_1_2 4 (untrimmed_identity 0) false = Ok magnitudes_1_2.
Proof.
  destruct (reconstruct_identity_unshifted magnitudes_1_2 4
              (untrimmed_identity 0) 2 1 3) as (coef & Hmax & _ & Hexact).
  - split; [reflexivity|]. repeat constructor.
  - lia.
  - lia.
  - lia.
  - simpl. lia.
  - simpl. lia.
  - apply identity_returns_roi; reflexivity.
  - apply Hexact. vm_compute in Hmax. injection Hmax as <-.
    repeat constructor.
Defined.

(** C3 as stated fails for the same reason as C1: with the shifted pass the
    entry 7 also comes back as the next float above it. *)
Lemma reconstruct_shifted_not_exact :
  reconstruct magnitudes_7_13 4 (untrimmed_identity 0) true
  = Ok [[[f32_above_7; f32_of_Z 13]]; [[f32_of_Z 1; f32_of_Z 2]]]
  /\ SFeqb f32_above_7 (f32_of_Z 7) = false
  /\ reconstruct magnitudes_7_13 4 (untrimmed_identity 0) true
     <> Ok magnitudes_7_13.
Proof.
  split; [vm_compute; reflexivity|]. split; [vm_compute; reflexivity|].
  intros E. vm_compute in E. discriminate E.
Qed.

(** C3, amended. Under the hypotheses of C1, the shifted pass adds
    [roi_size / 2] to both pad amounts and one window to the count, and
    [reconstruct] with the shifted pass returns every entry [x] as
    [(x / coef) * coef]; this is the input itself whenever every entry
    survives the division and multiplication unchanged. *)
Theorem reconstruct_identity_shifted {A : Type} `{Dtype A}
    (X : ndarray3 A) (tile_size : Z) (model : Predictor A) (c f w : nat) :
  has_shape X c f w -> (0 < c)%nat -> (0 < f)%nat -> (0 < w)%nat ->
  0 <= offset model -> 2 * offset model < tile_size ->
  returns_roi model ->
  (exists l r roi_size n_window,
      tiling (Z.of_nat w) tile_size model false = Ok (l, r, roi_size, n_window)
      /\ tiling (Z.of_nat w) tile_size model true
         = Ok (l + roi_size / 2, r + roi_size / 2, roi_size, n_window + 1))
  /\ exists coef,
      amax X = Ok coef
      /\ reconstruct X tile_size model true
         = Ok (map_rows (map (fun x => mul (div x coef) coef)) X)
      /\ (all_entries (fun x => mul (div x coef) coef = x) X ->
          reconstruct X tile_size model true = Ok X).
Proof.
  intros HX Hc Hf Hw Ho HT Hroi. split.
  - unfold tiling. rewrite make_padding_eq by lia. cbv zeta.
    replace (tile_size - 2 * offset model =? 0) with false
      by (symmetry; apply Z.eqb_neq; lia).
    replace (tile_size - 2 * offset model =? 0) with false
      by (symmetry; apply Z.eqb_neq; lia).
    simpl. eexists _, _, _, _. split; reflexivity.
  - destruct (amax_has_shape X c f w HX Hc Hf Hw) as [coef Hmax].
    exists coef. split; [exact Hmax|].
    pose proof (reconstruct_rescales X tile_size model true c f w coef
                  HX Hc Hf Hw Ho HT Hroi Hmax) as E.
    rewrite multiply_divide in E. split; [exact E|].
    intros Hall. rewrite E. f_equal. now apply all_entries_map_rows_id.
Qed.

Lemma reconstruct_identity_shifted_witness :
  reconstruct magnitudes_1_2 4 (untrimmed_identity 0) true = Ok magnitudes_1_2.
Proof.
  destruct (reconstruct_identity_shifted magnitudes_1_2 4
              (untrimmed_identity 0) 2 1 3) as (_ & coef & Hmax & _ & Hexact).
  - split; [reflexivity|]. repeat constructor.
  - lia.
  - lia.
  - lia.
  - simpl. lia.
  - simpl. lia.
  - apply identity_returns_roi; reflexivity.
  - apply Hexact. vm_compute in Hmax. injection Hmax as <-.
    repeat constructor.
Defined.

(** ** Reconstruction of an all-zero input *)

Lemma f32_maximum_zero (a b : float32) :
  is_zero a -> is_zero b -> f32_maximum a b = a.
Proof. destruct a, b; simpl; intros Ha Hb; try contradiction; reflexivity. Qed.

Lemma fold_maximum_zero (xs : list float32) (x : float32) :
  is_zero x -> Forall is_zero xs -> fold_left maximum xs x = x.
Proof.
  intros Hx Hxs. revert x Hx.
  induction Hxs as [|y xs Hy _ IH]; intros x Hx; simpl; [reflexivity|].
  rewrite f32_maximum_zero by assumption. now apply IH.
Qed.

Lemma amax_all_zero (X : ndarray3 float32) (coef : float32) :
  all_entries is_zero X -> amax X = Ok coef -> is_zero coef.
Proof.
  intros Hall Hmax. unfold amax in Hmax.
  assert (Hflat : Forall is_zero (concat (concat X))).
  { apply Forall_concat. apply Forall_concat. exact Hall. }
  destruct (concat (concat X)) as [|x xs]; [discriminate|].
  inversion Hflat; subst. injection Hmax as <-.
  now rewrite fold_maximum_zero.
Qed.

Lemma div_zero_zero (x coef : float32) :
  is_zero x -> is_zero coef -> div x coef = S754_nan.
Proof. destruct x, coef; simpl; intros Hx Hc; try contradiction; reflexivity. Qed.

Lemma map_rows_all_entries {A B : Type} (g k : A -> B) (P : A -> Prop)
    (X : ndarray3 A) :
  all_entries P X -> (forall x, P x -> g x = k x) ->
  map_rows (map g) X = map_rows (map k) X.
Proof.
  intros Hall Hgk. apply map_rows_ext_in. intros ch row Hch Hrow.
  unfold all_entries in Hall. rewrite Forall_forall in Hall.
  specialize (Hall ch Hch). rewrite Forall_forall in Hall.
  specialize (Hall row Hrow). rewrite Forall_forall in Hall.
  apply map_ext_in. intros x Hx. apply Hgk. now apply Hall.
Qed.

(** C10. On an all-zero spectrogram the normalisation coefficient is zero
    and every entry is divided by it: the normalised input is NaN
    throughout, and under a predictor that returns the region of interest of
    each window so is the output of [reconstruct], with or without the
    shifted pass; the input does not come back. *)
Theorem reconstruct_all_zero (X : ndarray3 float32) (tile_size : Z)
    (model : Predictor float32) (tta : bool) (c f w : nat) :
  has_shape X c f w -> (0 < c)%nat -> (0 < f)%nat -> (0 < w)%nat ->
  all_entries is_zero X ->
  0 <= offset model -> 2 * offset model < tile_size ->
  returns_roi model ->
  exists coef,
    amax X = Ok coef
    /\ is_zero coef
    /\ divide X coef = map_rows (map (fun _ => S754_nan)) X
    /\ reconstruct X tile_size model tta
       = Ok (map_rows (map (fun _ => S754_nan)) X)
    /\ reconstruct X tile_size model tta <> Ok X.
Proof.
  intros HX Hc Hf Hw Hzero Ho HT Hroi.
  destruct (amax_has_shape X c f w HX Hc Hf Hw) as [coef Hmax].
  pose proof (amax_all_zero X coef Hzero Hmax) as Hcoef.
  assert (Hrec : reconstruct X tile_size model tta
                 = Ok (map_rows (map (fun _ => S754_nan)) X)).
  { rewrite (reconstruct_rescales X tile_size model tta c f w coef)
      by assumption.
    rewrite multiply_divide. f_equal.
    apply (map_rows_all_entries _ _ is_zero); [exact Hzero|].
    intros x Hx. now rewrite div_zero_zero. }
  exists coef. repeat split; try assumption.
  - unfold divide. apply (map_rows_all_entries _ _ is_zero); [exact Hzero|].
    intros x Hx. now apply div_zero_zero.
  - rewrite Hrec. intros E. injection E as E.
    destruct HX as [HcX HX].
    destruct X as [|ch X]; [simpl in HcX; lia|].
    inversion HX as [|? ? [HfX Hrows] _]; subst.
    destruct ch as [|row ch]; [simpl in Hf; lia|].
    inversion Hrows as [|? ? Hrow _]; subst.
    destruct row as [|x row]; [simpl in Hw; lia|].
    inversion Hzero as [|? ? Hch _]; subst.
    inversion Hch as [|? ? Hr _]; subst.
    inversion Hr as [|? ? Hx _]; subst.
    simpl in E. injection E as E _. subst x. exact Hx.
Qed.

Lemma reconstruct_all_zero_witness :
  exists coef,
    amax silence = Ok coef
    /\ is_zero coef
    /\ divide silence coef = map_rows (map (fun _ => S754_nan)) silence
    /\ reconstruct silence 4 (untrimmed_identity 0) false
       = Ok (map_rows (map (fun _ => S754_nan)) silence)
    /\ reconstruct silence 4 (untrimmed_identity 0) false <> Ok silence.
Proof.
  apply (reconstruct_all_zero silence 4 (untrimmed_identity 0) false 2 1 3).
  - split; [reflexivity|]. repeat constructor.
  - lia.
  - lia.
  - lia.
  - repeat constructor.
  - simpl. lia.
  - simpl. lia.
  - apply identity_returns_roi; reflexivity.
Defined.

(** ** Assignment into a dataset entry *)

Lemma mapM_ok_id {B : Type} (f : B -> result B) (l : list B) :
  (forall x, In x l -> f x = Ok x) -> mapM f l = Ok l.
Proof.
  induction l as [|x l IH]; intros Hf; simpl; [reflexivity|].
  rewrite Hf by (now left). simpl.
  rewrite IH by (intros y Hy; apply Hf; now right). reflexivity.
Qed.

Lemma broadcast_axis_same {B : Type} (n : nat) (l : list B) :
  length l = n -> broadcast_axis n l = Ok l.
Proof.
  intros Hl. unfold broadcast_axis.
  now replace (length l =? n)%nat with true by (symmetry; apply Nat.eqb_eq; exact Hl).
Qed.

Lemma broadcast_to_same {B : Type} (v : ndarray3 B) (c f t : nat) :
  has_shape v c f t -> broadcast_to (c, f, t) v = Ok v.
Proof.
  intros [Hc Hv]. unfold broadcast_to.
  rewrite broadcast_axis_same by exact Hc. simpl.
  apply mapM_ok_id. intros ch Hch.
  rewrite Forall_forall in Hv. destruct (Hv ch Hch) as [Hf Hrows].
  rewrite broadcast_axis_same by exact Hf. simpl.
  apply mapM_ok_id. intros row Hrow.
  rewrite Forall_forall in Hrows.
  apply broadcast_axis_same. now apply Hrows.
Qed.

(** A value with a single channel is copied into both channels. *)
Lemma broadcast_to_one_channel {B : Type} (m : list (list B)) (f t : nat) :
  has_shape [m] 1 f t -> broadcast_to (2%nat, f, t) [m] = Ok [m; m].
Proof.
  intros [_ Hv]. inversion Hv as [|? ? [Hf Hrows] _]; subst.
  unfold broadcast_to. simpl.
  assert (Hch : (ch' <- broadcast_axis (length m) m ;;
                 mapM (broadcast_axis t) ch') = Ok m).
  { rewrite broadcast_axis_same by reflexivity. simpl.
    apply mapM_ok_id. intros row Hrow. rewrite Forall_forall in Hrows.
    apply broadcast_axis_same. now apply Hrows. }
  rewrite Hch. simpl. reflexivity.
Qed.




Lemma list_set_length {B : Type} (i : nat) (v : B) (l : list B) :
  (i < length l)%nat -> length (list_set i v l) = length l.
Proof.
  intros Hi. unfold list_set.
  rewrite length_app, length_firstn.
  change (length (v :: skipn (S i) l)) with (S (length (skipn (S i) l))).
  rewrite length_skipn. lia.
Qed.

Lemma list_set_nth_same {B : Type} (i : nat) (v : B) (l : list B) :
  (i < length l)%nat -> nth_error (list_set i v l) i = Some v.
Proof.
  intros Hi. unfold list_set.
  rewrite nth_error_app2 by (rewrite length_firstn; lia).
  rewrite length_firstn.
  replace (i - Nat.min i (length l))%nat with 0%nat by lia. reflexivity.
Qed.


Lemma getitem_nonneg {B : Type} (l : list B) (i : Z) :
  0 <= i < Z.of_nat (length l) ->
  exists x, getitem l i = Ok x /\ nth_error l (Z.to_nat i) = Some x.
Proof.
  intros Hi. unfold getitem.
  destruct (Z.ltb_spec i 0); [lia|].
  destruct (Z.ltb_spec i 0); [lia|].
  destruct (Z.leb_spec (Z.of_nat (length l)) i); [lia|]. simpl.
  destruct (nth_error l (Z.to_nat i)) as [x|] eqn:E.
  - now exists x.
  - apply nth_error_None in E. lia.
Qed.

Lemma getitem_ok_inv {B : Type} (l : list B) (i : Z) (x : B) :
  getitem l i = Ok x ->
  let j := if i <? 0 then i + Z.of_nat (length l) else i in
  0 <= j < Z.of_nat (length l) /\ nth_error l (Z.to_nat j) = Some x.
Proof.
  unfold getitem. intros E. cbv zeta.
  set (j := if i <? 0 then i + Z.of_nat (length l) else i) in *.
  destruct (Z.ltb_spec j 0); [discriminate|].
  destruct (Z.leb_spec (Z.of_nat (length l)) j); [discriminate|]. simpl in E.
  destruct (nth_error l (Z.to_nat j)) as [y|]; [|discriminate].
  injection E as <-. split; [lia|reflexivity].
Qed.

Lemma setitem_ok {B : Type} (c f t : nat) (D : ndarray4 B) (idx : Z)
    (v v' : ndarray3 B) :
  0 <= idx < Z.of_nat (length D) ->
  broadcast_to (c, f, t) v = Ok v' ->
  setitem (c, f, t) D idx v = Ok (list_set (Z.to_nat idx) v' D).
Proof.
  intros Hidx Hv. unfold setitem.
  destruct (getitem_nonneg D idx Hidx) as (x & -> & _). cbn [bind].
  rewrite Hv. cbn [bind].
  destruct (Z.ltb_spec idx 0); [lia|]. reflexivity.
Qed.


Lemma getitem_list_set {B : Type} (D : list B) (idx : Z) (v : B) :
  0 <= idx < Z.of_nat (length D) ->
  getitem (list_set (Z.to_nat idx) v D) idx = Ok v.
Proof.
  intros Hidx.
  assert (Hlen : length (list_set (Z.to_nat idx) v D) = length D)
    by (apply list_set_length; lia).
  destruct (getitem_nonneg (list_set (Z.to_nat idx) v D) idx) as (x & E & Hx);
    [lia|].
  rewrite list_set_nth_same in Hx by lia. now injection Hx as <-.
Qed.

(** ** The mono augmentation *)

Lemma add_channels_shape {A : Type} `{Dtype A} (g : A -> A)
    (a b : list (list A)) (f t : nat) :
  has_shape [a; b] 2 f t ->
  has_shape [map (map g) (add_channels a b)] 1 f t.
Proof.
  intros [_ Hab].
  inversion Hab as [|? ? [Hfa Hra] Hb]; subst.
  inversion Hb as [|? ? [Hfb Hrb] _]; subst.
  split; [reflexivity|]. constructor; [|constructor]. split.
  - unfold add_channels. rewrite !length_map, length_combine. lia.
  - unfold add_channels. rewrite Forall_map, Forall_map.
    apply Forall_forall. intros [r1 r2] Hin. simpl.
    rewrite !length_map, length_combine.
    rewrite Forall_forall in Hra, Hrb.
    rewrite (Hra r1) by (eapply in_combine_l; exact Hin).
    rewrite (Hrb r2) by (eapply in_combine_r; exact Hin).
    lia.
Qed.

(** C6 as stated fails: for [p = 0.51] the entry keeps two channels, both
    equal to the channel mean; the single-channel mean itself is not what is
    stored. *)
Lemma augment_mono_keeps_two_channels :
  SFltb p_051 p_swap = false
  /\ SFltb p_051 p_mono = true
  /\ mean_axis0 [[[c64_of_Z 1]]; [[c64_of_Z 3]]] = [[[c64_of_Z 2]]]
  /\ augment (2%nat, 1%nat, 1%nat) one_patch one_patch 0 p_051
     = Ok ([[[[c64_of_Z 2]]; [[c64_of_Z 2]]]], [[[[c64_of_Z 2]]; [[c64_of_Z 2]]]])
  /\ augment (2%nat, 1%nat, 1%nat) one_patch one_patch 0 p_051
     <> Ok ([[[[c64_of_Z 2]]]], [[[[c64_of_Z 2]]]]).
Proof.
  repeat split; try (vm_compute; reflexivity).
  intros E. vm_compute in E. discriminate E.
Qed.

(** C6, amended. When the draw [p] satisfies [0.50 <= p < 0.52], the
    mixture entry and the target entry of the dataset are both replaced by
    their mean across channels, copied into each of the two channels of the
    entry: the size-one channel axis exists only in the value that is
    assigned, and the stored entry keeps two (now identical) channels. *)
Theorem augment_mono_broadcasts {A : Type} `{Dtype A} (f t : nat)
    (X_dataset y_dataset : ndarray4 A) (idx : Z) (p : float64)
    (Xi yi : ndarray3 A) :
  0 <= idx ->
  getitem X_dataset idx = Ok Xi -> getitem y_dataset idx = Ok yi ->
  has_shape Xi 2 f t -> has_shape yi 2 f t ->
  SFltb p p_swap = false -> SFltb p p_mono = true ->
  exists X' y' mX my,
    augment (2%nat, f, t) X_dataset y_dataset idx p = Ok (X', y')
    /\ mean_axis0 Xi = [mX] /\ mean_axis0 yi = [my]
    /\ getitem X' idx = Ok [mX; mX]
    /\ getitem y' idx = Ok [my; my]
    /\ length X' = length X_dataset /\ length y' = length y_dataset.
Proof.
  intros Hidx HXi Hyi HsX Hsy Hswap Hmono.
  assert (Htwo : forall v : ndarray3 A, has_shape v 2 f t ->
            exists a b, v = [a; b]).
  { intros v [Hlen _]. destruct v as [|a [|b [|? ?]]]; try discriminate.
    now exists a, b. }
  destruct (Htwo Xi HsX) as (X0 & X1 & ->).
  destruct (Htwo yi Hsy) as (y0 & y1 & ->).
  pose proof (getitem_ok_inv _ _ _ HXi) as HjX. cbv zeta in HjX.
  pose proof (getitem_ok_inv _ _ _ Hyi) as Hjy. cbv zeta in Hjy.
  destruct (Z.ltb_spec idx 0); [lia|].
  destruct HjX as [HjX _]. destruct Hjy as [Hjy _].
  set (mX := map (map (fun s => div s (of_count 2))) (add_channels X0 X1)).
  set (my := map (map (fun s => div s (of_count 2))) (add_channels y0 y1)).
  exists (list_set (Z.to_nat idx) [mX; mX] X_dataset),
         (list_set (Z.to_nat idx) [my; my] y_dataset), mX, my.
  unfold augment. rewrite Hswap, Hmono, HXi. cbn [bind].
  rewrite (setitem_ok 2 f t X_dataset idx (mean_axis0 [X0; X1]) [mX; mX] HjX)
    by (apply broadcast_to_one_channel; apply add_channels_shape; exact HsX).
  cbn [bind]. rewrite Hyi. cbn [bind].
  rewrite (setitem_ok 2 f t y_dataset idx (mean_axis0 [y0; y1]) [my; my] Hjy)
    by (apply broadcast_to_one_channel; apply add_channels_shape; exact Hsy).
  cbn [bind].
  repeat split; try reflexivity.
  - now apply getitem_list_set.
  - now apply getitem_list_set.
  - apply list_set_length. lia.
  - apply list_set_length. lia.
Qed.

Lemma augment_mono_broadcasts_witness :
  exists X' y' mX my,
    augment (2%nat, 1%nat, 1%nat) one_patch one_patch 0 p_051 = Ok (X', y')
    /\ mean_axis0 [[[c64_of_Z 1]]; [[c64_of_Z 3]]] = [mX]
    /\ mean_axis0 [[[c64_of_Z 1]]; [[c64_of_Z 3]]] = [my]
    /\ getitem X' 0 = Ok [mX; mX]
    /\ getitem y' 0 = Ok [my; my]
    /\ length X' = length one_patch /\ length y' = length one_patch.
Proof.
  apply (augment_mono_broadcasts 1 1 one_patch one_patch 0 p_051
           [[[c64_of_Z 1]]; [[c64_of_Z 3]]] [[[c64_of_Z 1]]; [[c64_of_Z 3]]]).
  - lia.
  - reflexivity.
  - reflexivity.
  - split; [reflexivity|]. repeat constructor.
  - split; [reflexivity|]. repeat constructor.
  - vm_compute. reflexivity.
  - vm_compute. reflexivity.
Defined.

(** ** The training patch builder: loops and shapes *)

Ltac bind_inv E :=
  match type of E with
  | bind ?m _ = Ok _ =>
      let x := fresh "x" in
      let Ex := fresh "E" in
      destruct m as [x|?] eqn:Ex; cbn [bind] in E; [|discriminate E]
  end.

Lemma foldM_raise {S B : Type} (f : S -> B -> result S) (l : list B) (x : B) :
  In x l -> (forall s, exists e, f s x = Raise e) ->
  forall s, exists e, foldM f l s = Raise e.
Proof.
  intros Hin Hx. induction l as [|y l IH]; [contradiction|].
  intros s. simpl. destruct Hin as [->|Hin].
  - destruct (Hx s) as [e ->]. now exists e.
  - destruct (f s y) as [s'|e]; cbn [bind]; [now apply IH|now exists e].
Qed.



Lemma range_length (n : Z) : length (range n) = Z.to_nat n.
Proof. unfold range. now rewrite length_map, length_seq. Qed.

Lemma in_range (n i : Z) : In i (range n) <-> 0 <= i < n.
Proof.
  unfold range. rewrite in_map_iff. split.
  - intros (k & <- & Hk). apply in_seq in Hk. lia.
  - intros Hi. exists (Z.to_nat i). split; [lia|]. apply in_seq. lia.
Qed.

Lemma nth_error_combine_seq {B : Type} (l : list B) (start k : nat) (x : B) :
  nth_error l k = Some x ->
  nth_error (combine (map Z.of_nat (seq start (length l))) l) k
  = Some (Z.of_nat (start + k), x).
Proof.
  revert start k. induction l as [|y l IH]; intros start k Hk; [now destruct k|].
  destruct k as [|k]; simpl in *.
  - injection Hk as ->. now rewrite Nat.add_0_r.
  - rewrite (IH (S start) k Hk). do 2 f_equal. lia.
Qed.

Lemma in_combine_range {B : Type} (l : list B) (x : B) :
  In x l -> exists i, In (i, x) (combine (range (Z.of_nat (length l))) l).
Proof.
  intros Hin. apply In_nth_error in Hin. destruct Hin as [k Hk].
  exists (Z.of_nat (0 + k)). apply (nth_error_In _ k).
  unfold range. rewrite Nat2Z.id. now apply nth_error_combine_seq.
Qed.


Section Builder.
Context {A : Type} `{Dtype A}.
Variable cache_or_load :
  string -> string -> Z -> Z -> Z -> result (ndarray3 A * ndarray3 A).

Lemma padded_row_length (l r : Z) (row : list A) :
  0 <= l -> 0 <= r ->
  Z.of_nat (length (zeros l ++ row ++ zeros r))
  = l + Z.of_nat (length row) + r.
Proof.
  intros Hl Hr. unfold zeros. rewrite !length_app, !repeat_length. lia.
Qed.

(** One file pair, up to the draw of the start offsets, when the tile is
    wider than twice the margin. *)
Lemma file_step_eq (shp : nat * nat * nat)
    (cropsize patches sr hop_length n_fft offset i : Z)
    (X_dataset y_dataset : ndarray4 A) (g : Rng) (X_path y_path : string)
    (X y : ndarray3 A) (c f w : nat) (Xmax ymax : A) :
  cache_or_load X_path y_path sr hop_length n_fft = Ok (X, y) ->
  has_shape X c f w -> (0 < c)%nat -> (0 < f)%nat ->
  amax X = Ok Xmax -> amax y = Ok ymax ->
  0 <= offset -> 2 * offset < cropsize ->
  let coef := maximum Xmax ymax in
  let roi_size := cropsize - 2 * offset in
  let r := roi_size - Z.of_nat w mod roi_size + offset in
  let pad := fun row => zeros offset ++ row ++ zeros r in
  file_step cache_or_load shp cropsize patches sr hop_length n_fft offset
            (X_dataset, y_dataset, g) (i, (X_path, y_path))
  = ('(starts, g') <- randint 0 (offset + Z.of_nat w + r - cropsize) patches g ;;
     foldM (patch_step shp cropsize patches i
              (map_rows pad (divide X coef)) (map_rows pad (divide y coef))
              starts)
           (range patches) (X_dataset, y_dataset, g')).
Proof.
  intros Hload HX Hc Hf HXmax Hymax Ho Hroi coef roi_size r pad.
  assert (Hr : 0 <= r).
  { pose proof (Z.mod_pos_bound (Z.of_nat w) roi_size ltac:(unfold roi_size; lia)).
    unfold r. lia. }
  unfold file_step. rewrite Hload. cbn [bind].
  rewrite HXmax. cbn [bind]. rewrite Hymax. cbn [bind]. fold coef.
  assert (HXd : has_shape (divide X coef) c f w).
  { unfold divide. apply (has_shape_map_rows _ X c f w w HX).
    intros row Hrow. now rewrite length_map. }
  rewrite (shape2_has_shape _ c f w HXd Hc Hf). cbn [bind].
  rewrite make_padding_eq by lia. cbv zeta. fold roi_size.
  replace (roi_size =? 0) with false
    by (symmetry; apply Z.eqb_neq; unfold roi_size; lia).
  fold r. cbn [bind]. unfold pad_time.
  replace ((offset <? 0) || (r <? 0)) with false
    by (symmetry; apply orb_false_iff; split; apply Z.ltb_ge; lia).
  cbn [bind]. fold pad.
  assert (HXp : has_shape (map_rows pad (divide X coef)) c f
                  (Z.to_nat (offset + Z.of_nat w + r))).
  { apply (has_shape_map_rows _ _ c f w _ HXd). intros row Hrow.
    apply Nat2Z.inj. unfold pad. rewrite padded_row_length by lia. lia. }
  rewrite (shape2_has_shape _ c f _ HXp Hc Hf). cbn [bind].
  rewrite Z2Nat.id by lia. reflexivity.
Qed.

(** C9, amended. When the tile is wider than twice the margin and at least
    one patch per file is requested, a file pair whose spectrogram is
    narrower than [roi_size] makes the builder fail: the padded width equals
    [cropsize], so the start offsets would be drawn from the empty range
    [[0, 0)], which is an error. *)
Theorem make_training_set_short_file
    (filelist : list (string * string))
    (cropsize patches sr hop_length n_fft offset : Z)
    (X_path y_path : string) (X y : ndarray3 A) (c f w : nat) :
  In (X_path, y_path) filelist ->
  cache_or_load X_path y_path sr hop_length n_fft = Ok (X, y) ->
  has_shape X c f w -> (0 < c)%nat -> (0 < f)%nat -> (0 < w)%nat ->
  0 <= offset -> 2 * offset < cropsize ->
  Z.of_nat w < cropsize - 2 * offset ->
  1 <= patches ->
  (exists l r,
      make_padding (Z.of_nat w) cropsize offset
      = Ok (l, r, cropsize - 2 * offset)
      /\ l + Z.of_nat w + r = cropsize)
  /\ (forall g, randint 0 (cropsize - cropsize) patches g = Raise ValueError)
  /\ (forall g, exists e,
        make_training_set cache_or_load filelist cropsize patches sr
                          hop_length n_fft offset g = Raise e).
Proof.
  intros Hin Hload HX Hc Hf Hw Ho Hroi Hshort Hp.
  assert (Hmod : Z.of_nat w mod (cropsize - 2 * offset) = Z.of_nat w)
    by (apply Z.mod_small; lia).
  assert (Hrand : forall g high, high <= 0 ->
            randint 0 high patches g = Raise ValueError).
  { intros g high Hhigh. unfold randint.
    destruct (Z.ltb_spec patches 0); [lia|].
    destruct (Z.eqb_spec patches 0); [lia|].
    destruct (Z.leb_spec high 0); [reflexivity|lia]. }
  split; [|split].
  - eexists _, _. split.
    + rewrite make_padding_eq by lia. cbv zeta.
      replace (cropsize - 2 * offset =? 0) with false
        by (symmetry; apply Z.eqb_neq; lia).
      reflexivity.
    + rewrite Hmod. lia.
  - intros g. apply Hrand. lia.
  - intros g. unfold make_training_set.
    destruct (np_zeros _ 2 (n_fft / 2 + 1) cropsize) as [D|e];
      cbn [bind]; [|now exists e].
    destruct (in_combine_range filelist (X_path, y_path) Hin) as [i Hi].
    destruct (foldM_raise
                (file_step cache_or_load
                   (2%nat, Z.to_nat (n_fft / 2 + 1), Z.to_nat cropsize)
                   cropsize patches sr hop_length n_fft offset)
                _ _ Hi) with (s := (D, D, g)) as [e He].
    + intros [[Xd yd] g0].
      destruct (amax_has_shape X c f w HX Hc Hf Hw) as [Xmax HXmax].
      destruct (amax y) as [ymax|e] eqn:Hymax.
      * rewrite (file_step_eq _ cropsize patches sr hop_length n_fft offset i
                   Xd yd g0 X_path y_path X y c f w Xmax ymax)
          by assumption.
        cbv zeta. rewrite Hrand by (rewrite Hmod; lia). cbn [bind].
        now exists ValueError.
      * exists e. unfold file_step. rewrite Hload. cbn [bind].
        rewrite HXmax. cbn [bind]. rewrite Hymax. reflexivity.
    + rewrite He. cbn [bind]. now exists e.
Qed.
End Builder.

(** ** The training patch builder: shape of the result *)

Section BuilderShape.
Context {A : Type} `{Dtype A}.
Variable cache_or_load :
  string -> string -> Z -> Z -> Z -> result (ndarray3 A * ndarray3 A).






End BuilderShape.

(** ** The training patch builder: success on long enough files *)

Section BuilderTotal.
Context {A : Type} `{Dtype A}.
Variable cache_or_load :
  string -> string -> Z -> Z -> Z -> result (ndarray3 A * ndarray3 A).



Lemma has_shape_rev (v : ndarray3 A) (c f t : nat) :
  has_shape v c f t -> has_shape (rev v) c f t.
Proof.
  intros [Hc Hv]. split; [now rewrite length_rev|]. now apply Forall_rev.
Qed.



Lemma slice_time_shape (X_pad : ndarray3 A) (c f wp : nat) (s T : Z) :
  has_shape X_pad c f wp -> 0 <= s -> 0 <= T -> s + T <= Z.of_nat wp ->
  has_shape (slice_time (Some s) (Some (s + T)) X_pad) c f (Z.to_nat T).
Proof.
  intros HX Hs HT Hfit. unfold slice_time.
  apply (has_shape_map_rows _ X_pad c f wp _ HX). intros row Hrow.
  rewrite py_slice_nonneg by lia.
  rewrite length_firstn, length_skipn. lia.
Qed.



End BuilderTotal.

(** ** The training patch builder: results *)




(** C9 as stated fails when the tile is exactly twice the margin: then
    [roi_size] falls back to [cropsize], a spectrogram of width 3 is
    narrower than [roi_size = 4], yet the padded width is 8, not 4, and the
    builder returns patches. *)
Lemma make_training_set_degenerate_succeeds :
  make_padding 3 4 2 = Ok (2, 3, 4)
  /\ 3 < 4
  /\ 2 + 3 + 3 <> 4
  /\ is_ok (make_training_set (constant_cache spectrogram_w3) one_file
                              4 1 44100 1024 2 2 rng0) = true.
Proof.
  split; [reflexivity|]. split; [lia|]. split; [lia|].
  vm_compute. reflexivity.
Qed.

Lemma make_training_set_short_file_witness :
  (exists l r, make_padding 1 4 1 = Ok (l, r, 4 - 2 * 1) /\ l + 1 + r = 4)
  /\ (forall g, randint 0 (4 - 4) 1 g = Raise ValueError)
  /\ (forall g, exists e,
        make_training_set (constant_cache spectrogram_w1) one_file
                          4 1 44100 1024 2 1 g = Raise e).
Proof.
  apply (make_training_set_short_file (constant_cache spectrogram_w1) one_file
           4 1 44100 1024 2 1 "mix/a.wav" "inst/a.wav"
           spectrogram_w1 spectrogram_w1 2 2 1); try lia.
  - now left.
  - reflexivity.
  - split; [reflexivity|repeat constructor].
Defined.

(** ** Hard-example resampling *)

Lemma insert_by_loss_perm (x : spec_float * Z) (l : list (spec_float * Z)) :
  Permutation (insert_by_loss x l) (x :: l).
Proof.
  induction l as [|y l IH]; simpl; [reflexivity|].
  destruct (loss_lt (fst y) (fst x)); [|reflexivity].
  rewrite IH. apply perm_swap.
Qed.

Lemma sort_by_loss_perm (l : list (spec_float * Z)) :
  Permutation (fold_right insert_by_loss [] l) l.
Proof.
  induction l as [|x l IH]; simpl; [reflexivity|].
  rewrite insert_by_loss_perm. now constructor.
Qed.

Lemma SFltb_asym (a b : spec_float) : SFltb a b = true -> SFltb b a = false.
Proof.
  unfold SFltb.
  destruct a as [sa|sa| |sa ma ea], b as [sb|sb| |sb mb eb]; simpl;
    try destruct sa; try destruct sb; simpl; try discriminate;
    try reflexivity.
  all: rewrite (Z.compare_antisym ea eb).
  all: destruct (ea ?= eb); simpl; try discriminate; try reflexivity.
  all: pose proof (Pos.compare_cont_antisym ma mb Eq) as Hanti.
  all: simpl in Hanti; rewrite <- Hanti.
  all: destruct (Pos.compare_cont Eq ma mb); simpl; try discriminate;
    reflexivity.
Qed.

Lemma SFltb_nan_r (a b : spec_float) : is_nan b = true -> SFltb a b = false.
Proof. destruct b; try discriminate. intros _. now destruct a. Qed.

Lemma SFltb_nan_l (a b : spec_float) : is_nan a = true -> SFltb a b = false.
Proof. destruct a; try discriminate. intros _. reflexivity. Qed.

Lemma loss_lt_asym (a b : spec_float) : loss_lt a b = true -> loss_lt b a = false.
Proof.
  unfold loss_lt. intros Hab. apply orb_true_iff in Hab.
  apply orb_false_iff. destruct Hab as [Hlt|Hnan].
  - split; [now apply SFltb_asym|].
    destruct (is_nan a) eqn:Ha; [|reflexivity].
    now rewrite (SFltb_nan_l a b Ha) in Hlt.
  - apply andb_true_iff in Hnan. destruct Hnan as [Hb Ha].
    split; [now apply SFltb_nan_l|]. now rewrite Hb, andb_false_r.
Qed.

(** numpy's order on floats is the lexicographic order of [loss_key]. *)
Lemma loss_lt_key (a b : spec_float) :
  loss_lt a b = true <-> key_lt (loss_key a) (loss_key b).
Proof.
  unfold loss_lt, SFltb, SFcompare, key_lt, loss_key.
  destruct a as [sa|sa| |sa ma ea], b as [sb|sb| |sb mb eb];
    try destruct sa; try destruct sb; cbn [is_nan negb andb orb];
    try (split; [discriminate|lia]); try (split; [lia|reflexivity]).
  all: change (Pos.compare_cont Eq ma mb) with (Pos.compare ma mb).
  all: destruct (Z.compare_spec ea eb); destruct (Pos.compare_spec ma mb);
    cbn [CompOpp orb]; split; try discriminate; try reflexivity; try lia.
Qed.

Lemma loss_lt_trans_false (a b c : spec_float) :
  loss_lt b a = false -> loss_lt c b = false -> loss_lt c a = false.
Proof.
  intros Hab Hbc.
  destruct (loss_lt c a) eqn:E; [|reflexivity].
  apply loss_lt_key in E.
  assert (Hab' : ~ key_lt (loss_key b) (loss_key a))
    by (rewrite <- loss_lt_key; congruence).
  assert (Hbc' : ~ key_lt (loss_key c) (loss_key b))
    by (rewrite <- loss_lt_key; congruence).
  unfold key_lt in *.
  destruct (loss_key a) as [[a1 a2] a3], (loss_key b) as [[b1 b2] b3],
    (loss_key c) as [[c1 c2] c3].
  lia.
Qed.

Lemma loss_le_trans : Relations_1.Transitive loss_le.
Proof.
  intros a b c Hab Hbc. unfold loss_le in *.
  now apply (loss_lt_trans_false (fst a) (fst b) (fst c)).
Qed.

Lemma insert_by_loss_sorted (x : spec_float * Z) (l : list (spec_float * Z)) :
  Sorted loss_le l -> Sorted loss_le (insert_by_loss x l).
Proof.
  induction 1 as [|y l Hl IH Hhd]; simpl.
  - repeat constructor.
  - destruct (loss_lt (fst y) (fst x)) eqn:E.
    + constructor; [exact IH|].
      destruct l as [|z l]; simpl.
      * constructor. now apply loss_lt_asym.
      * destruct (loss_lt (fst z) (fst x)).
        -- inversion Hhd; subst. now constructor.
        -- constructor. now apply loss_lt_asym.
    + constructor; [now constructor|]. constructor. exact E.
Qed.

(** The sort behind [argsort] leaves the losses in ascending order, NaN
    last. *)
Lemma sort_by_loss_sorted (l : list (spec_float * Z)) :
  Sorted loss_le (fold_right insert_by_loss [] l).
Proof.
  induction l as [|x l IH]; simpl; [constructor|].
  now apply insert_by_loss_sorted.
Qed.

Lemma map_snd_combine {B C : Type} (a : list B) (b : list C) :
  length a = length b -> map snd (combine a b) = b.
Proof.
  revert b. induction a as [|x a IH]; intros [|y b] Hlen; simpl in *;
    try discriminate; [reflexivity|].
  f_equal. apply IH. lia.
Qed.

Lemma insertion_argsort_perm (a : list spec_float) :
  Permutation (insertion_argsort a) (range (Z.of_nat (length a))).
Proof.
  unfold insertion_argsort. rewrite sort_by_loss_perm.
  rewrite map_snd_combine; [reflexivity|].
  now rewrite range_length, Nat2Z.id.
Qed.

Lemma combine_seq_nth_error {B : Type} (l : list B) (start : nat) :
  Forall (fun p => (start <= Z.to_nat (snd p))%nat
                   /\ nth_error l (Z.to_nat (snd p) - start) = Some (fst p))
         (combine l (map Z.of_nat (seq start (length l)))).
Proof.
  revert start. induction l as [|x l IH]; intros start; simpl;
    constructor.
  - simpl. rewrite Nat2Z.id, Nat.sub_diag. split; [lia|reflexivity].
  - eapply Forall_impl; [|apply (IH (S start))].
    intros [y i] [Hle Hnth]. simpl in *. split; [lia|].
    replace (Z.to_nat i - start)%nat with (S (Z.to_nat i - S start)) by lia.
    exact Hnth.
Qed.

Lemma combine_range_loss_at (a : list spec_float) :
  Forall (fun p => fst p = loss_at a (snd p))
         (combine a (range (Z.of_nat (length a)))).
Proof.
  unfold range. rewrite Nat2Z.id.
  eapply Forall_impl; [|apply (combine_seq_nth_error a 0)].
  intros [x i] [_ Hnth]. simpl in *. rewrite Nat.sub_0_r in Hnth.
  unfold loss_at. symmetry. now apply nth_error_nth.
Qed.

Lemma StronglySorted_map_snd (a : list spec_float)
    (l : list (spec_float * Z)) :
  Forall (fun p => fst p = loss_at a (snd p)) l ->
  StronglySorted loss_le l ->
  StronglySorted (fun i j => loss_lt (loss_at a j) (loss_at a i) = false)
                 (map snd l).
Proof.
  intros Hall Hs. induction Hs as [|p l Hs IH Hp]; simpl; [constructor|].
  inversion Hall as [|? ? Hp0 Hl]; subst.
  constructor; [now apply IH|].
  rewrite Forall_map. rewrite Forall_forall in *.
  intros q Hq. unfold loss_le in Hp.
  rewrite <- Hp0, <- (Hl q Hq). now apply Hp.
Qed.

(** The insertion sort is one of the outcomes [np.argsort] may have. *)
Lemma insertion_argsort_spec (a : list spec_float) :
  is_argsort a (insertion_argsort a).
Proof.
  split; [apply insertion_argsort_perm|].
  unfold insertion_argsort. apply StronglySorted_map_snd.
  - apply (Permutation_Forall (Permutation_sym (sort_by_loss_perm _))).
    apply combine_range_loss_at.
  - apply Sorted_StronglySorted; [exact loss_le_trans|].
    apply sort_by_loss_sorted.
Qed.

Lemma StronglySorted_app_rel {B : Type} (R : B -> B -> Prop)
    (l1 l2 : list B) (x y : B) :
  StronglySorted R (l1 ++ l2) -> In x l1 -> In y l2 -> R x y.
Proof.
  induction l1 as [|z l1 IH]; simpl; intros Hs Hx Hy; [contradiction|].
  inversion Hs as [|? ? Hs' Hz]; subst.
  destruct Hx as [->|Hx]; [|now apply IH].
  rewrite Forall_forall in Hz. apply Hz, in_or_app. now right.
Qed.

Lemma range_NoDup (n : Z) : NoDup (range n).
Proof.
  unfold range. apply Injective_map_NoDup; [|apply seq_NoDup].
  intros x y. apply Nat2Z.inj.
Qed.

Lemma firstn_NoDup {B : Type} (n : nat) (l : list B) :
  NoDup l -> NoDup (firstn n l).
Proof.
  intros Hl. rewrite <- (firstn_skipn n l) in Hl.
  now apply NoDup_app_remove_r in Hl.
Qed.

Lemma in_firstn {B : Type} (n : nat) (l : list B) (x : B) :
  In x (firstn n l) -> In x l.
Proof.
  intros Hx. rewrite <- (firstn_skipn n l). apply in_or_app. now left.
Qed.

Lemma mapM_getitem_nth (a js : list Z) :
  Forall (fun j => 0 <= j < Z.of_nat (length a)) js ->
  mapM (getitem a) js = Ok (map (fun j => nth (Z.to_nat j) a 0) js).
Proof.
  induction 1 as [|j js Hj _ IH]; simpl; [reflexivity|].
  destruct (getitem_nonneg a j Hj) as (x & -> & Hx). cbn [bind].
  rewrite IH. cbn [bind]. do 2 f_equal.
  symmetry. now apply nth_error_nth.
Qed.

Lemma mapM_getitem_ok {T : Type} (a : list T) (js : list Z) :
  Forall (fun j => 0 <= j < Z.of_nat (length a)) js ->
  exists vs, mapM (getitem a) js = Ok vs.
Proof.
  induction 1 as [|j js Hj _ [vs IH]]; simpl; [now eexists|].
  destruct (getitem_nonneg a j Hj) as (x & -> & _). cbn [bind].
  rewrite IH. cbn [bind]. now eexists.
Qed.

(** Drawing without replacement from a pool without duplicates. *)
Lemma choice_without_replacement_spec (permutation : Z -> list Z)
    (pool : list Z) (n : Z) :
  (forall m, Permutation (permutation m) (range m)) ->
  NoDup pool -> 0 <= n <= Z.of_nat (length pool) ->
  exists idx,
    choice_without_replacement permutation pool n = Ok idx
    /\ Z.of_nat (length idx) = n
    /\ NoDup idx
    /\ incl idx pool.
Proof.
  intros Hperm Hpool Hn. unfold choice_without_replacement.
  set (pop := Z.of_nat (length pool)).
  assert (Hguard : (pop =? 0) && negb (n =? 0) = false).
  { destruct (Z.eqb_spec pop 0); [|reflexivity].
    destruct (Z.eqb_spec n 0); [reflexivity|unfold pop in *; lia]. }
  rewrite Hguard.
  destruct (Z.ltb_spec pop n); [unfold pop in *; lia|].
  destruct (Z.ltb_spec n 0); [lia|].
  rewrite py_slice_to by lia.
  pose proof (Hperm pop) as Hp.
  assert (Hin : Forall (fun j => 0 <= j < Z.of_nat (length pool))
                       (firstn (Z.to_nat n) (permutation pop))).
  { apply Forall_forall. intros j Hj. apply in_firstn in Hj.
    apply (Permutation_in _ Hp) in Hj. apply in_range in Hj. exact Hj. }
  rewrite (mapM_getitem_nth pool _ Hin).
  eexists. split; [reflexivity|].
  assert (Hnd : NoDup (firstn (Z.to_nat n) (permutation pop))).
  { apply firstn_NoDup. apply (Permutation_NoDup (Permutation_sym Hp)).
    apply range_NoDup. }
  rewrite Forall_forall in Hin.
  split; [|split].
  - rewrite length_map, length_firstn.
    rewrite (Permutation_length Hp), range_length. unfold pop. lia.
  - apply Injective_map_NoDup_in; [|exact Hnd].
    intros j j' Hj Hj' E.
    apply Hin in Hj. apply Hin in Hj'.
    assert (Z.to_nat j = Z.to_nat j'); [|lia].
    apply (proj1 (NoDup_nth pool 0) Hpool); first [lia | exact E].
  - intros i Hi. apply in_map_iff in Hi. destruct Hi as (j & <- & Hj).
    apply Hin in Hj. apply nth_In. lia.
Qed.

Section OracleHeap.
Context {T : Type}.

Lemma read_alloc_old (h : heap T) (b : list T) (p : ref) :
  (p < length h)%nat -> read (h ++ [b]) p = read h p.
Proof. intros Hp. unfold read. now rewrite nth_error_app1. Qed.

Lemma read_alloc_new (h : heap T) (b : list T) :
  read (h ++ [b]) (length h) = Ok b.
Proof.
  unfold read. rewrite nth_error_app2 by lia. now rewrite Nat.sub_diag.
Qed.

Lemma read_ok_lt (h : heap T) (p : ref) (b : list T) :
  read h p = Ok b -> (p < length h)%nat.
Proof.
  unfold read. destruct (nth_error h p) eqn:E; [|discriminate].
  intros _. apply nth_error_Some. congruence.
Qed.

(** Writing into one array leaves every other array unchanged. *)
Lemma read_store_other (h : heap T) (p q : ref) (i : nat) (v : T) :
  p <> q -> read (store h q i v) p = read h p.
Proof.
  intros Hpq. unfold store.
  destruct (nth_error h q) as [b|] eqn:Eq; [|reflexivity].
  assert (Hq : (q < length h)%nat) by (apply nth_error_Some; congruence).
  assert (Hnth : nth_error
                   (firstn q h ++ (firstn i b ++ v :: skipn (S i) b)
                                  :: skipn (S q) h) p
                 = nth_error h p).
  { destruct (Nat.lt_ge_cases p q) as [Hlt|Hge].
    - rewrite nth_error_app1 by (rewrite length_firstn; lia).
      now rewrite nth_error_firstn, (proj2 (Nat.ltb_lt p q) Hlt).
    - rewrite nth_error_app2 by (rewrite length_firstn; lia).
      rewrite length_firstn.
      replace (p - Nat.min q (length h))%nat with (S (p - q - 1)) by lia.
      cbn [nth_error]. rewrite nth_error_skipn. f_equal. lia. }
  unfold read. now rewrite Hnth.
Qed.
End OracleHeap.

(** C8 as stated fails: with two samples, [oracle_rate = 1.5] and
    [oracle_drop_rate = 0] both [k] and [n] are 3, so [k >= n], but only two
    indices exist and drawing three without replacement is an error.  The
    two losses differ, so the order [[1; 0]] is the only one that
    [np.argsort] can return. *)
Lemma get_oracle_data_oversampling_raises :
  oracle_counts 2 rate_1_5 rate_0 = Ok (3, 3)
  /\ insertion_argsort [f32_of_Z 3; f32_of_Z 1] = [1; 0]
  /\ get_oracle_data insertion_argsort reversing training_heap 0%nat 1%nat
                     [f32_of_Z 3; f32_of_Z 1] rate_1_5 rate_0
     = Raise ValueError.
Proof. repeat split; vm_compute; reflexivity. Qed.

(** C8, amended. Let [np.argsort] return any order that lists every index
    once with ascending losses (ties in whatever order).  When the losses
    and the targets are as many as the samples and
    [0 <= n <= min(k, len(X))], [get_oracle_data] returns exactly [n]
    indices without duplicates, all taken from the pool of the first
    [min(k, len(X))] indices in descending order of loss; no index outside
    the pool has a loss above that of a returned index.  With them come two
    freshly allocated arrays that hold the selected entries of [X] and [y]:
    they share no buffer with [X] or [y], and writing into them leaves [X]
    and [y] unchanged. *)
Theorem get_oracle_data_samples {T : Type}
    (argsort : list spec_float -> list Z) (permutation : Z -> list Z)
    (h : heap T) (X y : ref) (Xs ys : list T)
    (instance_loss : list spec_float) (oracle_rate oracle_drop_rate : float64)
    (k n : Z) :
  is_argsort instance_loss (argsort instance_loss) ->
  (forall m, Permutation (permutation m) (range m)) ->
  read h X = Ok Xs -> read h y = Ok ys ->
  length instance_loss = length Xs -> length ys = length Xs ->
  oracle_counts (Z.of_nat (length Xs)) oracle_rate oracle_drop_rate
  = Ok (k, n) ->
  0 <= n -> n <= k -> n <= Z.of_nat (length Xs) ->
  let pool := py_slice None (Some k) (rev (argsort instance_loss)) in
  exists oracle_X oracle_y idx h' vX vy,
    get_oracle_data argsort permutation h X y instance_loss oracle_rate
                    oracle_drop_rate = Ok (oracle_X, oracle_y, idx, h')
    /\ Z.of_nat (length idx) = n
    /\ NoDup idx
    /\ incl idx pool
    /\ Z.of_nat (length pool) = Z.min k (Z.of_nat (length Xs))
    /\ (forall i j,
          In i idx -> 0 <= j < Z.of_nat (length Xs) -> ~ In j pool ->
          loss_lt (loss_at instance_loss i) (loss_at instance_loss j) = false)
    /\ mapM (getitem Xs) idx = Ok vX /\ mapM (getitem ys) idx = Ok vy
    /\ read h' oracle_X = Ok vX /\ read h' oracle_y = Ok vy
    /\ (length h <= oracle_X)%nat /\ (length h <= oracle_y)%nat
    /\ oracle_X <> oracle_y
    /\ (forall p, (p < length h)%nat -> read h' p = read h p)
    /\ (forall i v, read (store h' oracle_X i v) X = Ok Xs
                    /\ read (store h' oracle_y i v) y = Ok ys).
Proof.
  intros [Hsort Hasc] Hperm HX Hy Hloss Hys Hcounts Hn0 Hnk Hnlen pool.
  assert (Hpool_eq : pool = firstn (Z.to_nat k) (rev (argsort instance_loss)))
    by (unfold pool; apply py_slice_to; lia).
  assert (Hpool_nd : NoDup pool).
  { rewrite Hpool_eq. apply firstn_NoDup, NoDup_rev.
    apply (Permutation_NoDup (Permutation_sym Hsort)), range_NoDup. }
  assert (Hpool_size : Z.of_nat (length pool)
                       = Z.min k (Z.of_nat (length Xs))).
  { rewrite Hpool_eq, length_firstn, length_rev.
    rewrite (Permutation_length Hsort), range_length. lia. }
  assert (Hpool_len : n <= Z.of_nat (length pool)) by lia.
  assert (Hpool_in : forall i, In i pool -> 0 <= i < Z.of_nat (length Xs)).
  { intros i Hi. rewrite Hpool_eq in Hi. apply in_firstn in Hi.
    apply in_rev in Hi. apply (Permutation_in _ Hsort) in Hi.
    apply in_range in Hi. lia. }
  assert (Htop : forall i j,
            In i pool -> 0 <= j < Z.of_nat (length Xs) -> ~ In j pool ->
            loss_lt (loss_at instance_loss i) (loss_at instance_loss j)
            = false).
  { intros i j Hi Hj Hout.
    set (rest := skipn (Z.to_nat k) (rev (argsort instance_loss))).
    assert (Hsplit : argsort instance_loss = rev rest ++ rev pool).
    { rewrite <- rev_app_distr, Hpool_eq. unfold rest.
      now rewrite firstn_skipn, rev_involutive. }
    assert (Hjrest : In j rest).
    { assert (Hjall : In j (rev (argsort instance_loss))).
      { apply -> in_rev. apply (Permutation_in _ (Permutation_sym Hsort)).
        apply in_range. lia. }
      rewrite <- (firstn_skipn (Z.to_nat k)) in Hjall.
      apply in_app_or in Hjall. destruct Hjall as [Hjp|Hjr]; [|exact Hjr].
      exfalso. apply Hout. now rewrite Hpool_eq. }
    rewrite Hsplit in Hasc.
    apply (StronglySorted_app_rel _ _ _ j i Hasc); now apply -> in_rev. }
  destruct (choice_without_replacement_spec permutation pool n Hperm Hpool_nd
              ltac:(lia)) as (idx & Hchoice & Hlen & Hnd & Hincl).
  assert (HidxX : Forall (fun j => 0 <= j < Z.of_nat (length Xs)) idx).
  { apply Forall_forall. intros j Hj. apply Hpool_in, Hincl, Hj. }
  assert (Hidxy : Forall (fun j => 0 <= j < Z.of_nat (length ys)) idx)
    by (rewrite Hys; exact HidxX).
  destruct (mapM_getitem_ok Xs idx HidxX) as [vX HvX].
  destruct (mapM_getitem_ok ys idx Hidxy) as [vy Hvy].
  pose proof (read_ok_lt h X Xs HX) as HXlt.
  pose proof (read_ok_lt h y ys Hy) as Hylt.
  set (h' := (((h ++ [vX]) ++ [vX]) ++ [vy]) ++ [vy]).
  assert (Hold : forall p, (p < length h)%nat -> read h' p = read h p).
  { intros p Hp. unfold h'.
    rewrite !read_alloc_old by (rewrite ?length_app; simpl; lia).
    reflexivity. }
  assert (HnewX : read h' (S (length h)) = Ok vX).
  { unfold h'. rewrite !read_alloc_old by (rewrite !length_app; simpl; lia).
    replace (S (length h)) with (length (h ++ [vX]))
      by (rewrite length_app; simpl; lia).
    apply read_alloc_new. }
  assert (Hnewy : read h' (S (S (S (length h)))) = Ok vy).
  { unfold h'.
    replace (S (S (S (length h)))) with (length (((h ++ [vX]) ++ [vX]) ++ [vy]))
      by (rewrite !length_app; simpl; lia).
    apply read_alloc_new. }
  exists (S (length h)), (S (S (S (length h)))), idx, h', vX, vy.
  split.
  - unfold get_oracle_data. rewrite HX. cbn [bind].
    rewrite Hcounts. cbn [bind]. fold pool. rewrite Hchoice. cbn [bind].
    unfold take, copy, alloc.
    rewrite HX. cbn [bind]. rewrite HvX. cbn [bind].
    rewrite read_alloc_new. cbn [bind].
    rewrite !read_alloc_old by (rewrite ?length_app; simpl; lia).
    rewrite Hy. cbn [bind]. rewrite Hvy. cbn [bind].
    rewrite read_alloc_new. cbn [bind].
    rewrite !length_app. simpl.
    replace (length h + 1)%nat with (S (length h)) by lia.
    replace (S (length h) + 1)%nat with (S (S (length h))) by lia.
    replace (S (S (length h)) + 1)%nat with (S (S (S (length h)))) by lia.
    reflexivity.
  - split; [exact Hlen|]. split; [exact Hnd|]. split; [exact Hincl|].
    split; [exact Hpool_size|].
    split; [intros i j Hi; apply Htop, Hincl, Hi|].
    repeat split; try assumption; try lia.
    + rewrite read_store_other by lia. rewrite Hold by lia. exact HX.
    + rewrite read_store_other by lia. rewrite Hold by lia. exact Hy.
Qed.

Lemma get_oracle_data_samples_witness :
  let pool := py_slice None (Some 2) (rev (reversed_ties_argsort tied_losses)) in
  exists oracle_X oracle_y idx h' vX vy,
    get_oracle_data reversed_ties_argsort reversing small_heap 0%nat 1%nat
      tied_losses rate_0_5 rate_0
    = Ok (oracle_X, oracle_y, idx, h')
    /\ Z.of_nat (length idx) = 2
    /\ NoDup idx
    /\ incl idx pool
    /\ Z.of_nat (length pool) = Z.min 2 (Z.of_nat (length [10; 20; 30; 40]))
    /\ (forall i j,
          In i idx -> 0 <= j < Z.of_nat (length [10; 20; 30; 40]) ->
          ~ In j pool ->
          loss_lt (loss_at tied_losses i) (loss_at tied_losses j) = false)
    /\ mapM (getitem [10; 20; 30; 40]) idx = Ok vX
    /\ mapM (getitem [1; 2; 3; 4]) idx = Ok vy
    /\ read h' oracle_X = Ok vX /\ read h' oracle_y = Ok vy
    /\ (length small_heap <= oracle_X)%nat
    /\ (length small_heap <= oracle_y)%nat
    /\ oracle_X <> oracle_y
    /\ (forall p, (p < length small_heap)%nat -> read h' p = read small_heap p)
    /\ (forall i v, read (store h' oracle_X i v) 0%nat = Ok [10; 20; 30; 40]
                    /\ read (store h' oracle_y i v) 1%nat = Ok [1; 2; 3; 4]).
Proof.
  apply (get_oracle_data_samples reversed_ties_argsort reversing small_heap
           0%nat 1%nat [10; 20; 30; 40] [1; 2; 3; 4] tied_losses
           rate_0_5 rate_0 2 2).
  - split.
    + change (Permutation [1; 3; 2; 0] [0; 1; 2; 3]).
      apply perm_trans with (l' := [1; 3; 0; 2]);
        [repeat apply perm_skip; apply perm_swap|].
      apply perm_trans with (l' := [1; 0; 3; 2]);
        [apply perm_skip, perm_swap|].
      apply perm_trans with (l' := [0; 1; 3; 2]); [apply perm_swap|].
      repeat apply perm_skip. apply perm_swap.
    + change (reversed_ties_argsort tied_losses) with [1; 3; 2; 0].
      repeat constructor.
  - intros m. unfold reversing. symmetry. apply Permutation_rev.
  - reflexivity.
  - reflexivity.
  - reflexivity.
  - reflexivity.
  - vm_compute. reflexivity.
  - lia.
  - lia.
  - simpl. lia.
Defined.


(* ================================================================== *)
(** * Part III. Further properties of the code *)
(* ================================================================== *)

(** ** The padding calculator: failure and bounds *)

(** X1. [make_padding] fails exactly when both the tile size and the margin
    are zero, with a division by zero; in every other case it returns. *)
Theorem make_padding_raises_iff (width cropsize offset : Z) :
  (make_padding width cropsize offset = Raise ZeroDivisionError
   <-> cropsize = 0 /\ offset = 0)
  /\ (is_ok (make_padding width cropsize offset) = false
      <-> cropsize = 0 /\ offset = 0).
Proof.
  unfold make_padding.
  destruct (Z.eqb_spec (cropsize - offset * 2) 0) as [E|E].
  - destruct (Z.eqb_spec cropsize 0) as [E'|E']; simpl; split; split;
      intros; try discriminate; try lia; reflexivity.
  - destruct (Z.eqb_spec (cropsize - offset * 2) 0) as [E'|_]; [lia|].
    simpl. split; split; intros; try discriminate; lia.
Qed.

(** X2. When the tile is wider than twice the margin, the right pad
    exceeds the margin by at least one frame and at most one stride, and the
    padded width is the tile size plus a whole number of strides: every
    window that starts at a multiple of the stride up to the input width
    is complete. *)
Theorem make_padding_bounds (width cropsize offset : Z) :
  0 <= offset -> 2 * offset < cropsize ->
  exists left right roi_size,
    make_padding width cropsize offset = Ok (left, right, roi_size)
    /\ offset < right <= offset + roi_size
    /\ left + width + right = cropsize + roi_size * (width / roi_size)
    /\ (0 <= width -> cropsize <= left + width + right).
Proof.
  intros Ho Hroi.
  pose proof (make_padding_eq width cropsize offset ltac:(lia)) as E.
  cbv zeta in E.
  replace (cropsize - 2 * offset =? 0) with false in E
    by (symmetry; apply Z.eqb_neq; lia).
  eexists _, _, _. split; [exact E|].
  set (roi := cropsize - 2 * offset) in *.
  pose proof (Z.mod_pos_bound width roi ltac:(unfold roi; lia)) as Hm.
  pose proof (Z.div_mod width roi ltac:(unfold roi; lia)) as Hd.
  repeat split; try lia.
  intros Hw. pose proof (Z.div_pos width roi Hw ltac:(unfold roi; lia)).
  unfold roi in *. nia.
Qed.

Lemma make_padding_bounds_witness :
  exists left right roi_size,
    make_padding 10 8 2 = Ok (left, right, roi_size)
    /\ 2 < right <= 2 + roi_size
    /\ left + 10 + right = 8 + roi_size * (10 / roi_size)
    /\ (0 <= 10 -> 8 <= left + 10 + right).
Proof. apply (make_padding_bounds 10 8 2); lia. Defined.

(** ** Reconstruction: windows and failure *)

Section WindowShapes.
Context {A : Type} `{Dtype A}.

(** [reconstruct] is its list of windows, passed through the model,
    concatenated, trimmed and rescaled. *)
Lemma reconstruct_through_windows (X : ndarray3 A) (window_size : Z)
    (model : Predictor A) (tta : bool) :
  reconstruct X window_size model tta
  = (coef <- amax X ;;
     width <- shape2 X ;;
     '(_, _, roi_size, _) <- tiling width window_size model tta ;;
     ws <- reconstruct_windows X window_size model tta ;;
     pred <- concatenate (map (predict model) ws) ;;
     let pred :=
       if tta then slice_time (Some (roi_size / 2)) None pred else pred in
     Ok (multiply (slice_time None (Some width) pred) coef)).
Proof.
  unfold reconstruct, reconstruct_windows.
  destruct (amax X) as [coef|e]; cbn [bind]; [|reflexivity].
  destruct (shape2 X) as [width|e]; cbn [bind]; [|reflexivity].
  destruct (tiling width window_size model tta) as [[[[l r] roi] n]|e];
    cbn [bind]; [|reflexivity].
  destruct (pad_time (divide X coef) l r) as [X_pad|e]; cbn [bind];
    [|reflexivity].
  now rewrite map_map.
Qed.

Lemma py_slice_window_length {B : Type} (s T : Z) (p : list B) :
  0 <= s -> 0 <= T ->
  Z.of_nat (length (py_slice (Some s) (Some (s + T)) p))
  = Z.max 0 (Z.min T (Z.of_nat (length p) - s)).
Proof.
  intros Hs HT. rewrite py_slice_nonneg by lia.
  rewrite length_firstn, length_skipn. lia.
Qed.

(** The windows of [reconstruct] when the tile is wider than twice the
    margin: their number and the width of each. *)
Lemma reconstruct_windows_eq (X : ndarray3 A) (tile_size : Z)
    (model : Predictor A) (tta : bool) (c f w : nat) :
  has_shape X c f w -> (0 < c)%nat -> (0 < f)%nat -> (0 < w)%nat ->
  0 <= offset model -> 2 * offset model < tile_size ->
  let roi := tile_size - 2 * offset model in
  let h := if tta then roi / 2 else 0 in
  let n := ceil_div (Z.of_nat w) roi + (if tta then 1 else 0) in
  let padded := 2 * offset model + 2 * h + Z.of_nat w
                + roi - Z.of_nat w mod roi in
  exists X_pad,
    has_shape X_pad c f (Z.to_nat padded)
    /\ reconstruct_windows X tile_size model tta
       = Ok (map (fun i => slice_time (Some (i * roi))
                                      (Some (i * roi + tile_size)) X_pad)
                 (range n)).
Proof.
  intros HX Hc Hf Hw Ho HT roi h n padded.
  destruct (amax_has_shape X c f w HX Hc Hf Hw) as [coef Hmax].
  assert (Hroi : 0 < roi) by (unfold roi; lia).
  pose proof (Z.mod_pos_bound (Z.of_nat w) roi Hroi) as Hm.
  assert (Hh : 0 <= h).
  { unfold h. destruct tta; [apply Z.div_pos; lia|lia]. }
  set (r := roi - Z.of_nat w mod roi + offset model).
  exists (map_rows (fun row => zeros (offset model + h) ++ row ++ zeros (r + h))
                   (divide X coef)).
  split.
  - unfold divide. rewrite map_rows_map_rows.
    apply (has_shape_map_rows _ X c f w _ HX). intros row Hrow.
    apply Nat2Z.inj. unfold zeros.
    rewrite !length_app, !repeat_length, length_map, Hrow.
    unfold padded, r. lia.
  - unfold reconstruct_windows. rewrite Hmax. cbn [bind].
    rewrite (shape2_has_shape X c f w HX Hc Hf). cbn [bind].
    unfold tiling. rewrite make_padding_eq by lia. cbv zeta. fold roi.
    replace (roi =? 0) with false by (symmetry; apply Z.eqb_neq; lia).
    cbn [bind]. fold r.
    assert (Hpad : forall l' r', 0 <= l' -> 0 <= r' ->
              pad_time (divide X coef) l' r'
              = Ok (map_rows (fun row => zeros l' ++ row ++ zeros r')
                             (divide X coef))).
    { intros l' r' Hl' Hr'. unfold pad_time.
      now replace ((l' <? 0) || (r' <? 0)) with false
        by (symmetry; apply orb_false_iff; split; apply Z.ltb_ge; lia). }
    unfold n, h. destruct tta; cbn [bind].
    + rewrite Hpad by (unfold r; lia). reflexivity.
    + rewrite Hpad by (unfold r; lia). cbn [bind].
      now rewrite !Z.add_0_r.
Qed.

Lemma slice_time_width (X_pad : ndarray3 A) (c f wp : nat) (s T : Z) :
  has_shape X_pad c f wp -> 0 <= s -> 0 <= T ->
  has_shape (slice_time (Some s) (Some (s + T)) X_pad) c f
            (Z.to_nat (Z.max 0 (Z.min T (Z.of_nat wp - s)))).
Proof.
  intros HX Hs HT. unfold slice_time.
  apply (has_shape_map_rows _ X_pad c f wp _ HX). intros row Hrow.
  apply Nat2Z.inj. rewrite py_slice_window_length by lia. rewrite Hrow. lia.
Qed.

(** X3. Without the shifted pass, every window that [reconstruct] hands to
    the model has the full tile width, and there are
    [ceil(width / roi_size)] of them. *)
Theorem reconstruct_windows_unshifted (X : ndarray3 A) (tile_size : Z)
    (model : Predictor A) (c f w : nat) :
  has_shape X c f w -> (0 < c)%nat -> (0 < f)%nat -> (0 < w)%nat ->
  0 <= offset model -> 2 * offset model < tile_size ->
  exists ws,
    reconstruct_windows X tile_size model false = Ok ws
    /\ Z.of_nat (length ws)
       = ceil_div (Z.of_nat w) (tile_size - 2 * offset model)
    /\ Forall (fun win => has_shape win c f (Z.to_nat tile_size)) ws.
Proof.
  intros HX Hc Hf Hw Ho HT.
  destruct (reconstruct_windows_eq X tile_size model false c f w
              HX Hc Hf Hw Ho HT) as (X_pad & HXp & E).
  cbv zeta in HXp, E.
  set (roi := tile_size - 2 * offset model) in *.
  assert (Hroi : 0 < roi) by (unfold roi; lia).
  pose proof (ceil_div_bounds (Z.of_nat w) roi Hroi) as Hn.
  pose proof (Z.mod_pos_bound (Z.of_nat w) roi Hroi) as Hm.
  pose proof (Z.div_mod (Z.of_nat w) roi ltac:(lia)) as Hd.
  set (n := ceil_div (Z.of_nat w) roi) in *.
  eexists. split; [exact E|]. split.
  - rewrite length_map, range_length. lia.
  - rewrite Forall_map. apply Forall_forall. intros i Hi.
    apply in_range in Hi.
    pose proof (slice_time_width X_pad c f _ (i * roi) tile_size HXp
                  ltac:(nia) ltac:(lia)) as Hs.
    replace (Z.to_nat (Z.max 0 (Z.min tile_size _))) with (Z.to_nat tile_size)
      in Hs; [exact Hs|].
    rewrite Z2Nat.id by lia.
    assert (i * roi <= (n - 1) * roi) by nia.
    assert (Hq : n < Z.of_nat w / roi + 2).
    { apply (Z.mul_lt_mono_pos_r roi); [exact Hroi|].
      rewrite Z.mul_add_distr_r. lia. }
    assert (n * roi <= roi * (Z.of_nat w / roi) + roi) by nia.
    lia.
Qed.

End WindowShapes.

Lemma reconstruct_windows_unshifted_witness :
  exists ws,
    reconstruct_windows magnitudes_1_2 2 (untrimmed_identity 0) false = Ok ws
    /\ Z.of_nat (length ws) = ceil_div 3 (2 - 2 * 0)
    /\ Forall (fun win => has_shape win 2 1 2) ws.
Proof.
  apply (reconstruct_windows_unshifted magnitudes_1_2 2
           (untrimmed_identity 0) 2 1 3); simpl; try lia.
  split; [reflexivity|repeat constructor].
Defined.

Lemma range_succ (n : Z) : 0 <= n -> range (n + 1) = range n ++ [n].
Proof.
  intros Hn. unfold range.
  replace (Z.to_nat (n + 1)) with (S (Z.to_nat n)) by lia.
  rewrite seq_S, map_app. simpl. now rewrite Z2Nat.id by lia.
Qed.

Section ShiftedWindows.
Context {A : Type} `{Dtype A}.

(** X4. With the shifted pass there is one window more; all but the last
    have the full tile width, and the last one is full exactly when the
    stride is even or the input width is a multiple of the stride:
    otherwise it is one frame short. *)
Theorem reconstruct_windows_shifted (X : ndarray3 A) (tile_size : Z)
    (model : Predictor A) (c f w : nat) :
  has_shape X c f w -> (0 < c)%nat -> (0 < f)%nat -> (0 < w)%nat ->
  0 <= offset model -> 2 * offset model < tile_size ->
  let roi := tile_size - 2 * offset model in
  exists ws last,
    reconstruct_windows X tile_size model true = Ok (ws ++ [last])
    /\ Z.of_nat (length ws) = ceil_div (Z.of_nat w) roi
    /\ Forall (fun win => has_shape win c f (Z.to_nat tile_size)) ws
    /\ has_shape last c f
         (Z.to_nat (if (roi mod 2 =? 0) || (Z.of_nat w mod roi =? 0)
                    then tile_size else tile_size - 1)).
Proof.
  intros HX Hc Hf Hw Ho HT roi.
  destruct (reconstruct_windows_eq X tile_size model true c f w
              HX Hc Hf Hw Ho HT) as (X_pad & HXp & E).
  cbv zeta in HXp, E. fold roi in HXp, E.
  assert (Hroi : 0 < roi) by (unfold roi; lia).
  pose proof (ceil_div_bounds (Z.of_nat w) roi Hroi) as Hn.
  pose proof (Z.mod_pos_bound (Z.of_nat w) roi Hroi) as Hm.
  pose proof (Z.div_mod (Z.of_nat w) roi ltac:(lia)) as Hd.
  pose proof (Z.div_mod roi 2 ltac:(lia)) as Hd2.
  pose proof (Z.mod_pos_bound roi 2 ltac:(lia)) as Hm2.
  set (n := ceil_div (Z.of_nat w) roi) in *.
  set (q := Z.of_nat w / roi) in *.
  set (m := Z.of_nat w mod roi) in *.
  set (h := roi / 2) in *.
  assert (Hn1 : 1 <= n) by nia.
  assert (Hqlo : q <= n).
  { apply (Z.mul_le_mono_pos_r _ _ roi); [exact Hroi|]. lia. }
  assert (Hqhi : n < q + 2).
  { apply (Z.mul_lt_mono_pos_r roi); [exact Hroi|].
    rewrite Z.mul_add_distr_r. lia. }
  assert (Hexact : n * roi = if m =? 0 then Z.of_nat w
                             else Z.of_nat w - m + roi).
  { destruct (Z.eqb_spec m 0) as [Hm0|Hm0].
    - assert (n < q + 1); [|nia].
      apply (Z.mul_lt_mono_pos_r roi); [exact Hroi|].
      rewrite Z.mul_add_distr_r. lia.
    - assert (q < n); [|nia].
      apply (Z.mul_lt_mono_pos_r roi); [exact Hroi|]. lia. }
  rewrite range_succ in E by lia. rewrite map_app in E. simpl in E.
  eexists _, _. split; [exact E|]. split; [|split].
  - rewrite length_map, range_length. lia.
  - rewrite Forall_map. apply Forall_forall. intros i Hi.
    apply in_range in Hi.
    pose proof (slice_time_width X_pad c f _ (i * roi) tile_size HXp
                  ltac:(nia) ltac:(lia)) as Hs.
    replace (Z.to_nat (Z.max 0 (Z.min tile_size _))) with (Z.to_nat tile_size)
      in Hs; [exact Hs|].
    rewrite Z2Nat.id by lia.
    assert (i * roi <= (n - 1) * roi) by nia.
    assert (n * roi <= roi * q + roi) by nia.
    unfold roi in *. lia.
  - pose proof (slice_time_width X_pad c f _ (n * roi) tile_size HXp
                  ltac:(nia) ltac:(lia)) as Hs.
    replace (Z.to_nat (Z.max 0 (Z.min tile_size _)))
      with (Z.to_nat (if (roi mod 2 =? 0) || (m =? 0)
                      then tile_size else tile_size - 1))
      in Hs; [exact Hs|].
    rewrite Z2Nat.id by lia. f_equal. revert Hexact.
    destruct (Z.eqb_spec m 0) as [Hm0|Hm0];
      destruct (Z.eqb_spec (roi mod 2) 0) as [He|He]; cbn [orb];
      intros Hexact; unfold roi in *; lia.
Qed.
End ShiftedWindows.

(** A spectrogram of width 4 with stride 3: the last window of the shifted
    pass holds two frames instead of three. *)
Lemma reconstruct_windows_shifted_witness :
  exists ws last,
    reconstruct_windows [[[f32_of_Z 1; f32_of_Z 2; f32_of_Z 3; f32_of_Z 4]]] 3
                        (untrimmed_identity 0) true = Ok (ws ++ [last])
    /\ Z.of_nat (length ws) = ceil_div 4 3
    /\ Forall (fun win => has_shape win 1 1 3) ws
    /\ has_shape last 1 1 2.
Proof.
  apply (reconstruct_windows_shifted
           [[[f32_of_Z 1; f32_of_Z 2; f32_of_Z 3; f32_of_Z 4]]] 3
           (untrimmed_identity 0) 1 1 4); simpl; try lia.
  split; [reflexivity|repeat constructor].
Defined.

Section NarrowTile.
Context {A : Type} `{Dtype A}.

(** X5. When the tile is narrower than twice the model's margin,
    [reconstruct] without the shifted pass never returns: whatever the
    model, it ends in a [ValueError], either on the negative pad width or on
    the empty list of predictions. *)
Theorem reconstruct_narrow_tile (X : ndarray3 A) (tile_size : Z)
    (model : Predictor A) (c f w : nat) :
  has_shape X c f w -> (0 < c)%nat -> (0 < f)%nat -> (0 < w)%nat ->
  tile_size < 2 * offset model ->
  reconstruct X tile_size model false = Raise ValueError.
Proof.
  intros HX Hc Hf Hw HT.
  destruct (amax_has_shape X c f w HX Hc Hf Hw) as [coef Hmax].
  unfold reconstruct. rewrite Hmax. cbn [bind].
  rewrite (shape2_has_shape X c f w HX Hc Hf). cbn [bind].
  unfold tiling, make_padding.
  set (roi := tile_size - offset model * 2).
  assert (Hroi : roi < 0) by (unfold roi; lia).
  replace (roi =? 0) with false by (symmetry; apply Z.eqb_neq; lia).
  replace (roi =? 0) with false by (symmetry; apply Z.eqb_neq; lia).
  cbn [bind].
  destruct (pad_time (divide X coef) (offset model)
              (roi - Z.of_nat w mod roi + offset model)) as [X_pad|e] eqn:Ep.
  - cbn [bind].
    assert (Hn : ceil_div (Z.of_nat w) roi <= 0).
    { unfold ceil_div.
      replace (- Z.of_nat w / roi) with (Z.of_nat w / - roi)
        by (rewrite <- (Z.div_opp_opp (Z.of_nat w) (- roi)) by lia;
            now rewrite Z.opp_involutive).
      pose proof (Z.div_pos (Z.of_nat w) (- roi) ltac:(lia) ltac:(lia)). lia. }
    unfold range. replace (Z.to_nat (ceil_div (Z.of_nat w) roi)) with 0%nat
      by lia.
    reflexivity.
  - unfold pad_time in Ep.
    destruct ((offset model <? 0)
              || (roi - Z.of_nat w mod roi + offset model <? 0));
      [|discriminate].
    injection Ep as <-. reflexivity.
Qed.
End NarrowTile.

Lemma reconstruct_narrow_tile_witness :
  reconstruct magnitudes_1_2 4 (untrimmed_identity 3) false = Raise ValueError.
Proof.
  apply (reconstruct_narrow_tile magnitudes_1_2 4 (untrimmed_identity 3) 2 1 3);
    simpl; try lia.
  split; [reflexivity|repeat constructor].
Defined.

(** ** The file pair list: order and membership *)

Lemma insert_sorted_perm (x : string) (l : list string) :
  Permutation (insert_sorted x l) (x :: l).
Proof.
  induction l as [|y l IH]; simpl; [reflexivity|].
  destruct (String.leb x y); [reflexivity|].
  rewrite IH. apply perm_swap.
Qed.

Lemma sorted_perm (l : list string) : Permutation (sorted l) l.
Proof.
  induction l as [|x l IH]; simpl; [reflexivity|].
  rewrite insert_sorted_perm. now constructor.
Qed.

Lemma insert_sorted_Sorted (x : string) (l : list string) :
  Sorted string_le l -> Sorted string_le (insert_sorted x l).
Proof.
  induction 1 as [|y l Hl IH Hhd]; simpl.
  - repeat constructor.
  - destruct (String.leb x y) eqn:E.
    + constructor; [now constructor|]. constructor. exact E.
    + assert (Hyx : string_le y x).
      { destruct (String.leb_total x y) as [Hxy|Hyx]; [congruence|exact Hyx]. }
      constructor; [exact IH|].
      destruct l as [|z l]; simpl.
      * now constructor.
      * destruct (String.leb x z).
        -- now constructor.
        -- inversion Hhd; subst. now constructor.
Qed.

Lemma sorted_Sorted (l : list string) : Sorted string_le (sorted l).
Proof.
  induction l as [|x l IH]; simpl; [constructor|].
  now apply insert_sorted_Sorted.
Qed.

Lemma Sorted_firstn {B : Type} (R : B -> B -> Prop) (n : nat) (l : list B) :
  Sorted R l -> Sorted R (firstn n l).
Proof.
  intros Hl. revert n. induction Hl as [|x l Hl IH Hhd]; intros n.
  - rewrite firstn_nil. constructor.
  - destruct n as [|n]; simpl; [constructor|].
    constructor; [apply IH|].
    destruct Hhd as [|y l' Hxy]; destruct n; simpl; constructor. exact Hxy.
Qed.

Lemma map_fst_combine {B C : Type} (a : list B) (b : list C) :
  map fst (combine a b) = firstn (length b) a.
Proof.
  revert b. induction a as [|x a IH]; intros [|y b]; simpl; try reflexivity.
  now rewrite IH.
Qed.

Lemma map_snd_combine_firstn {B C : Type} (a : list B) (b : list C) :
  map snd (combine a b) = firstn (length a) b.
Proof.
  revert b. induction a as [|x a IH]; intros [|y b]; simpl; try reflexivity.
  now rewrite IH.
Qed.

Lemma make_pair_inv (listdir : string -> result (list string))
    (mix_dir inst_dir : string) (pairs : list (string * string)) :
  make_pair listdir mix_dir inst_dir = Ok pairs ->
  exists mix_names inst_names,
    listdir mix_dir = Ok mix_names /\ listdir inst_dir = Ok inst_names
    /\ pairs = combine
                 (sorted (map (path_join mix_dir)
                              (filter has_input_ext mix_names)))
                 (sorted (map (path_join inst_dir)
                              (filter has_input_ext inst_names))).
Proof.
  unfold make_pair, audio_files. intros E.
  destruct (listdir mix_dir) as [mix_names|e]; cbn [bind] in E; [|discriminate].
  destruct (listdir inst_dir) as [inst_names|e]; cbn [bind] in E;
    [|discriminate].
  injection E as <-. now exists mix_names, inst_names.
Qed.

(** X6. In the list that [make_pair] returns, the mixture paths are in
    ascending order and so are the target paths. *)
Theorem make_pair_sorted (listdir : string -> result (list string))
    (mix_dir inst_dir : string) (pairs : list (string * string)) :
  make_pair listdir mix_dir inst_dir = Ok pairs ->
  Sorted string_le (map fst pairs) /\ Sorted string_le (map snd pairs).
Proof.
  intros E. destruct (make_pair_inv _ _ _ _ E) as (mn & inn & _ & _ & ->).
  rewrite map_fst_combine, map_snd_combine_firstn.
  split; apply Sorted_firstn, sorted_Sorted.
Qed.

Lemma make_pair_sorted_witness :
  Sorted string_le
    (map fst [("mix/a.wav", "inst/a.wav"); ("mix/b.wav", "inst/z.flac")]%string)
  /\ Sorted string_le
       (map snd [("mix/a.wav", "inst/a.wav"); ("mix/b.wav", "inst/z.flac")]%string).
Proof.
  apply (make_pair_sorted uneven_tree "mix" "inst"). reflexivity.
Defined.

(** X7. Every pair that [make_pair] returns joins the mixture directory
    with a listed name that has a recognised audio extension, and the
    target directory with such a name of its own listing: files with other
    extensions never enter the list. *)
Theorem make_pair_members (listdir : string -> result (list string))
    (mix_dir inst_dir : string) (mix_names inst_names : list string)
    (pairs : list (string * string)) (X_path y_path : string) :
  listdir mix_dir = Ok mix_names -> listdir inst_dir = Ok inst_names ->
  make_pair listdir mix_dir inst_dir = Ok pairs ->
  In (X_path, y_path) pairs ->
  (exists name, In name mix_names /\ has_input_ext name = true
                /\ X_path = path_join mix_dir name)
  /\ (exists name, In name inst_names /\ has_input_ext name = true
                   /\ y_path = path_join inst_dir name).
Proof.
  intros Hm Hi E Hin.
  destruct (make_pair_inv _ _ _ _ E) as (mn & inn & Hm' & Hi' & ->).
  rewrite Hm in Hm'. rewrite Hi in Hi'.
  injection Hm' as <-. injection Hi' as <-.
  assert (Hmem : forall dir names p,
            In p (sorted (map (path_join dir) (filter has_input_ext names))) ->
            exists name, In name names /\ has_input_ext name = true
                         /\ p = path_join dir name).
  { intros dir names p Hp.
    apply (Permutation_in _ (sorted_perm _)) in Hp.
    apply in_map_iff in Hp. destruct Hp as (name & <- & Hname).
    apply filter_In in Hname. now exists name. }
  split; apply Hmem.
  - eapply in_combine_l. exact Hin.
  - eapply in_combine_r. exact Hin.
Qed.

Lemma make_pair_members_witness :
  (exists name, In name ["b.wav"; "a.wav"; "notes.txt"; "c.mp3"]%string
                /\ has_input_ext name = true
                /\ "mix/b.wav"%string = path_join "mix" name)
  /\ (exists name, In name ["a.wav"; "z.flac"]%string
                   /\ has_input_ext name = true
                   /\ "inst/z.flac"%string = path_join "inst" name).
Proof.
  apply (make_pair_members uneven_tree "mix" "inst"
           ["b.wav"; "a.wav"; "notes.txt"; "c.mp3"]%string
           ["a.wav"; "z.flac"]%string
           [("mix/a.wav", "inst/a.wav"); ("mix/b.wav", "inst/z.flac")]%string).
  - reflexivity.
  - reflexivity.
  - reflexivity.
  - right. now left.
Defined.

(** X8. When the two directories hold equally many recognised audio
    files, no file is dropped: the mixture paths of the pair list are the
    recognised files of the mixture directory, each exactly once, and
    likewise for the targets. *)
Theorem make_pair_complete (listdir : string -> result (list string))
    (mix_dir inst_dir : string) (mix_names inst_names : list string) :
  listdir mix_dir = Ok mix_names -> listdir inst_dir = Ok inst_names ->
  length (filter has_input_ext mix_names)
  = length (filter has_input_ext inst_names) ->
  exists pairs,
    make_pair listdir mix_dir inst_dir = Ok pairs
    /\ Permutation (map fst pairs)
         (map (path_join mix_dir) (filter has_input_ext mix_names))
    /\ Permutation (map snd pairs)
         (map (path_join inst_dir) (filter has_input_ext inst_names)).
Proof.
  intros Hm Hi Hlen. unfold make_pair, audio_files. rewrite Hm, Hi.
  cbn [bind]. eexists. split; [reflexivity|].
  rewrite map_fst_combine, map_snd_combine_firstn.
  rewrite !sorted_length, !length_map, Hlen.
  split.
  - rewrite firstn_all2 by (rewrite sorted_length, length_map; lia).
    apply sorted_perm.
  - rewrite firstn_all2 by (rewrite sorted_length, length_map; lia).
    apply sorted_perm.
Qed.

Lemma make_pair_complete_witness :
  exists pairs,
    make_pair even_tree "mix" "inst" = Ok pairs
    /\ Permutation (map fst pairs)
         (map (path_join "mix")
              (filter has_input_ext ["b.wav"; "readme.md"; "a.mp3"]%string))
    /\ Permutation (map snd pairs)
         (map (path_join "inst")
              (filter has_input_ext ["a.flac"; "b.wav"]%string)).
Proof.
  apply (make_pair_complete even_tree "mix" "inst"); reflexivity.
Defined.

(** ** The train/validation split *)

Lemma py_slice_split {B : Type} (i : Z) (l : list B) :
  py_slice None (Some i) l ++ py_slice (Some i) None l = l.
Proof.
  unfold py_slice.
  set (c := clamp_index (Z.of_nat (length l)) i).
  assert (Hc : 0 <= c <= Z.of_nat (length l)).
  { unfold c, clamp_index. destruct (i <? 0); lia. }
  replace (Z.to_nat (c - 0)) with (Z.to_nat c) by lia.
  simpl skipn.
  rewrite (firstn_all2 (skipn (Z.to_nat c) l))
    by (rewrite length_skipn; lia).
  apply firstn_skipn.
Qed.

Lemma py_slice_tail_length {B : Type} (k : Z) (l : list B) :
  1 <= k <= Z.of_nat (length l) ->
  Z.of_nat (length (py_slice (Some (- k)) None l)) = k
  /\ Z.of_nat (length (py_slice None (Some (- k)) l))
     = Z.of_nat (length l) - k.
Proof.
  intros Hk. unfold py_slice, clamp_index.
  destruct (Z.ltb_spec (- k) 0); [|lia].
  rewrite length_firstn, length_skipn. simpl skipn.
  rewrite length_firstn. lia.
Qed.

Lemma list_string_eqb_eq (a b : list string) :
  list_string_eqb a b = true <-> a = b.
Proof.
  revert b. induction a as [|x a IH]; intros [|y b]; simpl;
    try (split; [discriminate|discriminate]); [tauto|].
  rewrite andb_true_iff, String.eqb_eq, IH. split.
  - intros [-> ->]. reflexivity.
  - intros E. injection E as -> ->. now split.
Qed.

Section TrainValSplitProperties.
Variable listdir : string -> result (list string).
Variable shuffle : list (string * string) -> list (string * string).
Hypothesis shuffle_perm : forall l, Permutation (shuffle l) l.

(** X9. Without a given validation list, [train_val_split] cuts the
    shuffled pair list in two: the training list followed by the
    validation list is the shuffled list, so every pair of [make_pair]
    lands in exactly one of the two. *)
Theorem train_val_split_partition (mix_dir inst_dir : string)
    (val_rate : float64) (train : list (string * string)) (v : val_list) :
  train_val_split listdir shuffle mix_dir inst_dir val_rate [] = Ok (train, v) ->
  exists pairs val,
    make_pair listdir mix_dir inst_dir = Ok pairs
    /\ v = ValTuples val
    /\ train ++ val = shuffle pairs
    /\ Permutation (train ++ val) pairs.
Proof.
  unfold train_val_split. intros E.
  destruct (make_pair listdir mix_dir inst_dir) as [pairs|e];
    cbn [bind] in E; [|discriminate].
  simpl in E.
  destruct (py_int _) as [val_size|e]; cbn [bind] in E; [|discriminate].
  injection E as <- <-.
  eexists _, _. split; [reflexivity|]. split; [reflexivity|].
  rewrite py_slice_split. split; [reflexivity|apply shuffle_perm].
Qed.

(** X10. When the validation size [int(len(filelist) * val_rate)] is zero,
    the training list comes out empty and every pair goes to validation:
    [filelist[:-0]] is the empty list and [filelist[-0:]] the whole one. *)
Theorem train_val_split_zero (mix_dir inst_dir : string)
    (val_rate : float64) (pairs : list (string * string)) :
  make_pair listdir mix_dir inst_dir = Ok pairs ->
  py_int (f64_mul (f64_of_Z (Z.of_nat (length (shuffle pairs)))) val_rate)
  = Ok 0 ->
  train_val_split listdir shuffle mix_dir inst_dir val_rate []
  = Ok ([], ValTuples (shuffle pairs)).
Proof.
  intros Hp Hz. unfold train_val_split. rewrite Hp. cbn [bind]. simpl.
  rewrite Hz. cbn [bind]. do 3 f_equal.
  - change (- 0) with 0. now rewrite py_slice_to by lia.
  - change (- 0) with 0. now rewrite py_slice_from by lia.
Qed.

(** X11. When the validation size [k = int(len(filelist) * val_rate)] is
    between one and the number of pairs, the validation list has [k] pairs
    and the training list the remaining ones. *)
Theorem train_val_split_sizes (mix_dir inst_dir : string)
    (val_rate : float64) (pairs : list (string * string)) (k : Z) :
  make_pair listdir mix_dir inst_dir = Ok pairs ->
  py_int (f64_mul (f64_of_Z (Z.of_nat (length (shuffle pairs)))) val_rate)
  = Ok k ->
  1 <= k <= Z.of_nat (length pairs) ->
  exists train val,
    train_val_split listdir shuffle mix_dir inst_dir val_rate []
    = Ok (train, ValTuples val)
    /\ Z.of_nat (length val) = k
    /\ Z.of_nat (length train) = Z.of_nat (length pairs) - k.
Proof.
  intros Hp Hk Hrange. unfold train_val_split. rewrite Hp. cbn [bind]. simpl.
  rewrite Hk. cbn [bind]. eexists _, _. split; [reflexivity|].
  pose proof (Permutation_length (shuffle_perm pairs)) as Hlen.
  destruct (py_slice_tail_length k (shuffle pairs)) as [Hv Ht]; [lia|].
  rewrite Hv, Ht. lia.
Qed.

(** X12. With a validation list given by the caller, that list is
    returned as it is, and the training list holds exactly the shuffled
    pairs whose two paths do not form an entry of it, in shuffled order. *)
Theorem train_val_split_given (mix_dir inst_dir : string)
    (val_rate : float64) (val_filelist : list (list string))
    (pairs : list (string * string)) :
  make_pair listdir mix_dir inst_dir = Ok pairs ->
  val_filelist <> [] ->
  exists train,
    train_val_split listdir shuffle mix_dir inst_dir val_rate val_filelist
    = Ok (train, ValLists val_filelist)
    /\ (forall pair,
          In pair train
          <-> In pair pairs /\ ~ In [fst pair; snd pair] val_filelist)
    /\ exists keep, train = filter keep (shuffle pairs).
Proof.
  intros Hp Hne. unfold train_val_split. rewrite Hp. cbn [bind].
  destruct val_filelist as [|v0 vs]; [congruence|]. cbn [length Nat.eqb].
  eexists. split; [reflexivity|]. split; [|now eexists].
  intros pair. rewrite filter_In, negb_true_iff. split.
  - intros [Hin Hex]. split.
    + apply (Permutation_in _ (shuffle_perm pairs)). exact Hin.
    + intros Hv. apply not_true_iff_false in Hex. apply Hex.
      apply existsb_exists. exists [fst pair; snd pair].
      split; [exact Hv|]. now apply list_string_eqb_eq.
  - intros [Hin Hnv]. split.
    + apply (Permutation_in _ (Permutation_sym (shuffle_perm pairs))).
      exact Hin.
    + apply not_true_iff_false. intros Hex.
      apply existsb_exists in Hex. destruct Hex as (v & Hv & Heq).
      apply list_string_eqb_eq in Heq. subst v. now apply Hnv.
Qed.
End TrainValSplitProperties.

Lemma reversing_shuffle_perm (l : list (string * string)) :
  Permutation (reversing_shuffle l) l.
Proof. unfold reversing_shuffle. symmetry. apply Permutation_rev. Qed.

Lemma train_val_split_partition_witness :
  exists pairs val,
    make_pair even_tree "mix" "inst" = Ok pairs
    /\ ValTuples [("mix/a.mp3", "inst/a.flac")]%string = ValTuples val
    /\ [("mix/b.wav", "inst/b.wav")]%string ++ val = reversing_shuffle pairs
    /\ Permutation ([("mix/b.wav", "inst/b.wav")]%string ++ val) pairs.
Proof.
  apply (train_val_split_partition even_tree reversing_shuffle
           reversing_shuffle_perm "mix" "inst" rate_0_5).
  vm_compute. reflexivity.
Defined.

Lemma train_val_split_zero_witness :
  train_val_split even_tree reversing_shuffle "mix" "inst" rate_0_1 []
  = Ok ([], ValTuples (reversing_shuffle
                         [("mix/a.mp3", "inst/a.flac");
                          ("mix/b.wav", "inst/b.wav")]%string)).
Proof.
  apply (train_val_split_zero even_tree reversing_shuffle "mix" "inst"
           rate_0_1).
  - reflexivity.
  - vm_compute. reflexivity.
Defined.

Lemma train_val_split_sizes_witness :
  exists train val,
    train_val_split even_tree reversing_shuffle "mix" "inst" rate_0_5 []
    = Ok (train, ValTuples val)
    /\ Z.of_nat (length val) = 1
    /\ Z.of_nat (length train)
       = Z.of_nat (length [("mix/a.mp3", "inst/a.flac");
                           ("mix/b.wav", "inst/b.wav")]%string) - 1.
Proof.
  apply (train_val_split_sizes even_tree reversing_shuffle
           reversing_shuffle_perm "mix" "inst" rate_0_5).
  - reflexivity.
  - vm_compute. reflexivity.
  - simpl. lia.
Defined.

Lemma train_val_split_given_witness :
  exists train,
    train_val_split even_tree reversing_shuffle "mix" "inst" rate_0
                    [["mix/b.wav"; "inst/b.wav"]]%string
    = Ok (train, ValLists [["mix/b.wav"; "inst/b.wav"]]%string)
    /\ (forall pair,
          In pair train
          <-> In pair [("mix/a.mp3", "inst/a.flac");
                       ("mix/b.wav", "inst/b.wav")]%string
              /\ ~ In [fst pair; snd pair] [["mix/b.wav"; "inst/b.wav"]]%string)
    /\ exists keep,
         train = filter keep
                   (reversing_shuffle [("mix/a.mp3", "inst/a.flac");
                                       ("mix/b.wav", "inst/b.wav")]%string).
Proof.
  apply (train_val_split_given even_tree reversing_shuffle
           reversing_shuffle_perm "mix" "inst" rate_0).
  - reflexivity.
  - discriminate.
Defined.

(** ** Augmentation: the other branches *)

Lemma nth_error_list_set_other {B : Type} (i j : nat) (v : B) (l : list B) :
  (i < length l)%nat -> j <> i ->
  nth_error (list_set i v l) j = nth_error l j.
Proof.
  intros Hi Hj. unfold list_set.
  destruct (Nat.lt_ge_cases j i) as [Hlt|Hge].
  - rewrite nth_error_app1 by (rewrite length_firstn; lia).
    now rewrite nth_error_firstn, (proj2 (Nat.ltb_lt j i) Hlt).
  - rewrite nth_error_app2 by (rewrite length_firstn; lia).
    rewrite length_firstn.
    replace (j - Nat.min i (length l))%nat with (S (j - i - 1)) by lia.
    cbn [nth_error]. rewrite nth_error_skipn. f_equal. lia.
Qed.

Lemma setitem_inv {B : Type} (shp : nat * nat * nat) (D D' : ndarray4 B)
    (idx : Z) (v : ndarray3 B) :
  0 <= idx -> setitem shp D idx v = Ok D' ->
  idx < Z.of_nat (length D)
  /\ exists v', broadcast_to shp v = Ok v'
                /\ D' = list_set (Z.to_nat idx) v' D.
Proof.
  intros Hidx E. unfold setitem in E.
  destruct (getitem D idx) as [x|e] eqn:Eg; cbn [bind] in E; [|discriminate].
  destruct (broadcast_to shp v) as [v'|e] eqn:Ev; cbn [bind] in E;
    [|discriminate].
  apply getitem_ok_inv in Eg. cbv zeta in Eg.
  destruct (Z.ltb_spec idx 0); [lia|].
  injection E as <-. split; [lia|]. now exists v'.
Qed.

Lemma setitem_frame {B : Type} (shp : nat * nat * nat) (D D' : ndarray4 B)
    (idx : Z) (v : ndarray3 B) :
  0 <= idx -> setitem shp D idx v = Ok D' ->
  length D' = length D
  /\ forall j, j <> Z.to_nat idx -> nth_error D' j = nth_error D j.
Proof.
  intros Hidx E. destruct (setitem_inv shp D D' idx v Hidx E)
    as (Hlt & v' & _ & ->).
  split; [apply list_set_length; lia|].
  intros j Hj. apply nth_error_list_set_other; [lia|exact Hj].
Qed.

Section AugmentBranches.
Context {A : Type} `{Dtype A}.

(** X13. Whatever the draw, the augmentation touches no entry but the one
    at [idx]: both arrays keep their length and all their other entries. *)
Theorem augment_frame (shp : nat * nat * nat)
    (X_dataset y_dataset X' y' : ndarray4 A) (idx : Z) (p : float64) :
  0 <= idx ->
  augment shp X_dataset y_dataset idx p = Ok (X', y') ->
  length X' = length X_dataset /\ length y' = length y_dataset
  /\ forall j, j <> Z.to_nat idx ->
       nth_error X' j = nth_error X_dataset j
       /\ nth_error y' j = nth_error y_dataset j.
Proof.
  intros Hidx E. unfold augment in E.
  destruct (SFltb p p_swap); [|destruct (SFltb p p_mono);
                                [|destruct (SFltb p p_inst)]].
  - bind_inv E. bind_inv E. bind_inv E. bind_inv E. injection E as <- <-.
    destruct (setitem_frame _ _ _ _ _ Hidx E1) as [HlX HfX].
    destruct (setitem_frame _ _ _ _ _ Hidx E3) as [Hly Hfy].
    repeat split; auto.
  - bind_inv E. bind_inv E. bind_inv E. bind_inv E. injection E as <- <-.
    destruct (setitem_frame _ _ _ _ _ Hidx E1) as [HlX HfX].
    destruct (setitem_frame _ _ _ _ _ Hidx E3) as [Hly Hfy].
    repeat split; auto.
  - bind_inv E. bind_inv E. injection E as <- <-.
    destruct (setitem_frame _ _ _ _ _ Hidx E1) as [HlX HfX].
    repeat split; auto.
  - injection E as <- <-. repeat split; auto.
Qed.

(** X14. When the draw is below [0.5], the two channels of the mixture
    entry change places, and so do the two channels of the target entry. *)
Theorem augment_swap (f t : nat) (X_dataset y_dataset : ndarray4 A)
    (idx : Z) (p : float64) (X0 X1 y0 y1 : list (list A)) :
  0 <= idx ->
  getitem X_dataset idx = Ok [X0; X1] -> getitem y_dataset idx = Ok [y0; y1] ->
  has_shape [X0; X1] 2 f t -> has_shape [y0; y1] 2 f t ->
  SFltb p p_swap = true ->
  exists X' y',
    augment (2%nat, f, t) X_dataset y_dataset idx p = Ok (X', y')
    /\ getitem X' idx = Ok [X1; X0]
    /\ getitem y' idx = Ok [y1; y0].
Proof.
  intros Hidx HXi Hyi HsX Hsy Hswap.
  pose proof (getitem_ok_inv _ _ _ HXi) as HjX. cbv zeta in HjX.
  pose proof (getitem_ok_inv _ _ _ Hyi) as Hjy. cbv zeta in Hjy.
  destruct (Z.ltb_spec idx 0); [lia|].
  destruct HjX as [HjX _]. destruct Hjy as [Hjy _].
  unfold augment. rewrite Hswap, HXi. cbn [bind].
  rewrite (setitem_ok 2 f t X_dataset idx (rev [X0; X1]) [X1; X0] HjX)
    by exact (broadcast_to_same _ _ _ _ (has_shape_rev [X0; X1] 2 f t HsX)).
  cbn [bind]. rewrite Hyi. cbn [bind].
  rewrite (setitem_ok 2 f t y_dataset idx (rev [y0; y1]) [y1; y0] Hjy)
    by exact (broadcast_to_same _ _ _ _ (has_shape_rev [y0; y1] 2 f t Hsy)).
  cbn [bind]. eexists _, _. split; [reflexivity|].
  split; now apply getitem_list_set.
Qed.

(** X15. When the draw lies in [[0.52, 0.54)], the mixture entry is
    overwritten with the target entry and the target array is left as it
    is. *)
Theorem augment_inst (f t : nat) (X_dataset y_dataset : ndarray4 A)
    (idx : Z) (p : float64) (yi : ndarray3 A) :
  0 <= idx < Z.of_nat (length X_dataset) ->
  getitem y_dataset idx = Ok yi -> has_shape yi 2 f t ->
  SFltb p p_swap = false -> SFltb p p_mono = false -> SFltb p p_inst = true ->
  exists X',
    augment (2%nat, f, t) X_dataset y_dataset idx p = Ok (X', y_dataset)
    /\ getitem X' idx = Ok yi.
Proof.
  intros Hidx Hyi Hsy Hswap Hmono Hinst.
  unfold augment. rewrite Hswap, Hmono, Hinst, Hyi. cbn [bind].
  rewrite (setitem_ok 2 f t X_dataset idx yi yi Hidx)
    by (now apply broadcast_to_same).
  cbn [bind]. eexists. split; [reflexivity|].
  now apply getitem_list_set.
Qed.
End AugmentBranches.

Lemma augment_frame_witness :
  length [[[[c64_of_Z 2]]; [[c64_of_Z 2]]]] = length one_patch
  /\ length [[[[c64_of_Z 2]]; [[c64_of_Z 2]]]] = length one_patch
  /\ forall j, j <> Z.to_nat 0 ->
       nth_error [[[[c64_of_Z 2]]; [[c64_of_Z 2]]]] j = nth_error one_patch j
       /\ nth_error [[[[c64_of_Z 2]]; [[c64_of_Z 2]]]] j = nth_error one_patch j.
Proof.
  apply (augment_frame (2%nat, 1%nat, 1%nat) one_patch one_patch
           [[[[c64_of_Z 2]]; [[c64_of_Z 2]]]] [[[[c64_of_Z 2]]; [[c64_of_Z 2]]]]
           0 p_051).
  - lia.
  - vm_compute. reflexivity.
Defined.

Lemma augment_swap_witness :
  exists X' y',
    augment (2%nat, 1%nat, 1%nat) one_patch other_patch 0 p_025 = Ok (X', y')
    /\ getitem X' 0 = Ok [[[c64_of_Z 3]]; [[c64_of_Z 1]]]
    /\ getitem y' 0 = Ok [[[c64_of_Z 7]]; [[c64_of_Z 5]]].
Proof.
  apply (augment_swap 1 1 one_patch other_patch 0 p_025).
  - lia.
  - reflexivity.
  - reflexivity.
  - split; [reflexivity|repeat constructor].
  - split; [reflexivity|repeat constructor].
  - vm_compute. reflexivity.
Defined.

Lemma augment_inst_witness :
  exists X',
    augment (2%nat, 1%nat, 1%nat) one_patch other_patch 0 p_053
    = Ok (X', other_patch)
    /\ getitem X' 0 = Ok [[[c64_of_Z 5]]; [[c64_of_Z 7]]].
Proof.
  apply (augment_inst 1 1 one_patch other_patch 0 p_053).
  - simpl. lia.
  - reflexivity.
  - split; [reflexivity|repeat constructor].
  - vm_compute. reflexivity.
  - vm_compute. reflexivity.
  - vm_compute. reflexivity.
Defined.

(** ** The training patch builder: empty list and crops *)

Section BuilderEdges.
Context {A : Type} `{Dtype A}.
Variable cache_or_load :
  string -> string -> Z -> Z -> Z -> result (ndarray3 A * ndarray3 A).

(** X16. On an empty file list the builder raises nothing: it returns two
    empty arrays, whatever the number of patches per file. *)
Theorem make_training_set_empty
    (cropsize patches sr hop_length n_fft offset : Z) (g : Rng) :
  0 <= cropsize -> 0 <= n_fft / 2 + 1 ->
  make_training_set cache_or_load [] cropsize patches sr hop_length n_fft
                    offset g = Ok ([], []).
Proof.
  intros Hc Hf. unfold make_training_set, np_zeros.
  change (Z.of_nat (length (@nil (string * string)))) with 0.
  rewrite Z.mul_0_r.
  replace ((0 <? 0) || (2 <? 0) || (n_fft / 2 + 1 <? 0) || (cropsize <? 0))
    with false
    by (symmetry; rewrite !orb_false_iff; repeat split; apply Z.ltb_ge; lia).
  reflexivity.
Qed.

(** X17. One turn of the patch loop without augmentation (draw at or above
    [0.54]) stores, at the same index, the window of the padded mixture and
    the window of the padded target that start at the same drawn offset and
    are [cropsize] wide: mixture and target crops stay aligned. *)
Theorem patch_step_crop (f : nat) (cropsize patches i j wp s : Z)
    (X_pad y_pad : ndarray3 A) (starts : list Z)
    (X_dataset y_dataset : ndarray4 A) (g : Rng) :
  let idx := i * patches + j in
  let p := fst (uniform g) in
  has_shape X_pad 2 f (Z.to_nat wp) -> has_shape y_pad 2 f (Z.to_nat wp) ->
  getitem starts j = Ok s -> 0 <= s -> 0 <= cropsize -> s + cropsize <= wp ->
  0 <= idx < Z.of_nat (length X_dataset) ->
  0 <= idx < Z.of_nat (length y_dataset) ->
  SFltb p p_swap = false -> SFltb p p_mono = false -> SFltb p p_inst = false ->
  exists X' y',
    patch_step (2%nat, f, Z.to_nat cropsize) cropsize patches i X_pad y_pad
               starts (X_dataset, y_dataset, g) j
    = Ok (X', y', snd (uniform g))
    /\ getitem X' idx
       = Ok (slice_time (Some s) (Some (s + cropsize)) X_pad)
    /\ getitem y' idx
       = Ok (slice_time (Some s) (Some (s + cropsize)) y_pad).
Proof.
  intros idx p HXp Hyp Hs Hs0 Hc Hfit HiX Hiy Hswap Hmono Hinst.
  unfold patch_step. rewrite Hs. cbn [bind]. fold idx.
  rewrite (setitem_ok 2 f (Z.to_nat cropsize) X_dataset idx _ _ HiX
             (broadcast_to_same _ _ _ _
                (slice_time_shape X_pad 2 f (Z.to_nat wp) s cropsize HXp
                   Hs0 Hc ltac:(lia)))).
  cbn [bind].
  rewrite (setitem_ok 2 f (Z.to_nat cropsize) y_dataset idx _ _ Hiy
             (broadcast_to_same _ _ _ _
                (slice_time_shape y_pad 2 f (Z.to_nat wp) s cropsize Hyp
                   Hs0 Hc ltac:(lia)))).
  cbn [bind]. unfold p in *.
  destruct (uniform g) as [p0 g']. simpl in Hswap, Hmono, Hinst. simpl snd.
  unfold augment. rewrite Hswap, Hmono, Hinst. cbn [bind].
  eexists _, _. split; [reflexivity|].
  split; now apply getitem_list_set.
Qed.
End BuilderEdges.

Lemma make_training_set_empty_witness :
  make_training_set (constant_cache spectrogram_w1) [] 4 3 44100 1024 2 1 rng0
  = Ok ([], []).
Proof.
  apply (make_training_set_empty (constant_cache spectrogram_w1)
           4 3 44100 1024 2 1 rng0); simpl; lia.
Defined.

Lemma patch_step_crop_witness :
  exists X' y',
    patch_step (2%nat, 1%nat, 2%nat) 2 1 0 padded_mix padded_inst [1]
               (blank_entry, blank_entry, rng_plain) 0
    = Ok (X', y', snd (uniform rng_plain))
    /\ getitem X' 0 = Ok (slice_time (Some 1) (Some (1 + 2)) padded_mix)
    /\ getitem y' 0 = Ok (slice_time (Some 1) (Some (1 + 2)) padded_inst).
Proof.
  apply (patch_step_crop 1 2 1 0 0 3 1 padded_mix padded_inst [1]
           blank_entry blank_entry rng_plain);
    try (simpl; lia); try reflexivity.
  - split; [reflexivity|repeat constructor].
  - split; [reflexivity|repeat constructor].
Defined.

(** ** The validation patch builder *)

Lemma last_ascii_app (s t : string) (c : ascii) :
  last_ascii t = Some c -> last_ascii (s ++ t) = Some c.
Proof.
  intros Ht. induction s as [|a s IH]; simpl; [exact Ht|].
  now rewrite IH.
Qed.

Lemma last_ascii_uint (u : Decimal.uint) :
  match last_ascii (DecimalString.NilEmpty.string_of_uint u) with
  | Some c => c <> "z"%char
  | None => True
  end.
Proof.
  induction u; simpl; try exact I;
    destruct (last_ascii (DecimalString.NilEmpty.string_of_uint u));
    try exact IHu; discriminate.
Qed.

Lemma last_ascii_py_str (z : Z) :
  exists c, last_ascii (py_str z) = Some c /\ c <> "z"%char.
Proof.
  unfold py_str, DecimalString.NilZero.string_of_int,
    DecimalString.NilZero.string_of_uint.
  assert (Hu : forall u,
            exists c,
              last_ascii match u with
                         | Decimal.Nil => "0"%string
                         | _ => DecimalString.NilEmpty.string_of_uint u
                         end = Some c /\ c <> "z"%char).
  { intros u. pose proof (last_ascii_uint u) as Hl.
    destruct u; simpl in *;
      try (eexists; split; [reflexivity|discriminate]);
      destruct (last_ascii (DecimalString.NilEmpty.string_of_uint u));
      eexists; split; try reflexivity; try exact Hl; discriminate. }
  destruct (Z.to_int z) as [u|u].
  - apply Hu.
  - destruct (Hu u) as (c & Hc & Hz). exists c. split; [|exact Hz].
    simpl. now rewrite Hc.
Qed.

Lemma last_ascii_outpath (patch_dir stem : string) (j : Z) :
  last_ascii (outpath patch_dir stem j) = Some "z"%char.
Proof.
  assert (Hname : last_ascii (patch_name stem j) = Some "z"%char).
  { unfold patch_name. do 3 apply last_ascii_app. reflexivity. }
  unfold outpath, path_join.
  destruct (starts_with_sep (patch_name stem j)); [exact Hname|].
  destruct ((String.length patch_dir =? 0)%nat || ends_with_sep patch_dir).
  - now apply last_ascii_app.
  - do 2 apply last_ascii_app. exact Hname.
Qed.

(** No patch file has the name of the patch directory. *)
Lemma outpath_not_patch_dir (cropsize sr hop_length n_fft offset : Z)
    (stem : string) (j : Z) :
  outpath (patch_dir_name cropsize sr hop_length n_fft offset) stem j
  <> patch_dir_name cropsize sr hop_length n_fft offset.
Proof.
  intros Heq.
  pose proof (last_ascii_outpath
                (patch_dir_name cropsize sr hop_length n_fft offset) stem j)
    as Hout.
  rewrite Heq in Hout.
  destruct (last_ascii_py_str offset) as (c & Hc & Hz).
  unfold patch_dir_name in Hout.
  rewrite !(last_ascii_app _ _ c) in Hout by
    (repeat (apply last_ascii_app); exact Hc).
  congruence.
Qed.

Section ValidationProperties.
Context {A : Type} `{Dtype A}.
Variable cache_or_load :
  string -> string -> Z -> Z -> Z -> result (ndarray3 A * ndarray3 A).
Variable writable : string -> bool.

Lemma extends_refl (d : disk A) : extends d d.
Proof. intros p v Hp. exact Hp. Qed.

Lemma extends_trans (d1 d2 d3 : disk A) :
  extends d1 d2 -> extends d2 d3 -> extends d1 d3.
Proof. intros H12 H23 p v Hp. apply H23, H12, Hp. Qed.

Lemma path_exists_extends (d d' : disk A) (p : string) :
  extends d d' -> path_exists d p = true -> path_exists d' p = true.
Proof.
  unfold path_exists. intros Hext Hp.
  destruct (lookup d p) as [v|] eqn:E; [|discriminate].
  now rewrite (Hext p v E).
Qed.

Lemma lookup_cons (d : disk A) (p q : string) (v : node A) :
  lookup ((p, v) :: d) q = if String.eqb p q then Some v else lookup d q.
Proof. reflexivity. Qed.

Lemma extends_fresh (d : disk A) (p : string) (v : node A) :
  lookup d p = None -> extends d ((p, v) :: d).
Proof.
  intros Hp q w Hq. rewrite lookup_cons.
  destruct (String.eqb_spec p q) as [<-|_]; [congruence|exact Hq].
Qed.

(** [makedirs], when it returns: the directory is there and nothing else
    has changed. *)
Lemma makedirs_inv (d d0 : disk A) (p : string) :
  makedirs writable d p = Ok d0 ->
  lookup d0 p = Some Dir
  /\ extends d d0
  /\ (forall q, q <> p -> lookup d0 q = lookup d q)
  /\ (forall v, lookup d p = Some v -> v = Dir)
  /\ (lookup d p = Some Dir -> d0 = d).
Proof.
  unfold makedirs. intros E.
  destruct (lookup d p) as [[| |]|] eqn:El; try discriminate.
  - injection E as <-. repeat split; auto using extends_refl.
    intros v Hv. now injection Hv as <-.
  - destruct (writable p); [|discriminate]. injection E as <-.
    repeat split.
    + now rewrite lookup_cons, String.eqb_refl.
    + now apply extends_fresh.
    + intros q Hq. rewrite lookup_cons.
      destruct (String.eqb_spec p q); [congruence|reflexivity].
    + discriminate.
    + discriminate.
Qed.

(** One patch, when the step returns: the path is appended; the archive is
    written only when nothing of that name exists. *)
Lemma validation_patch_step_spec (patch_dir stem : string)
    (cropsize roi_size : Z) (X_pad y_pad : ndarray3 A)
    (pl pl' : list string) (d d' : disk A) (j : Z) :
  validation_patch_step writable patch_dir stem cropsize roi_size X_pad y_pad
                        (pl, d) j = Ok (pl', d') ->
  pl' = pl ++ [outpath patch_dir stem j]
  /\ extends d d'
  /\ path_exists d' (outpath patch_dir stem j) = true
  /\ (forall p v, lookup d' p = Some v ->
        lookup d p = Some v
        \/ (lookup d p = None
            /\ p = outpath patch_dir stem j
            /\ v = archive
                     (slice_time (Some (j * roi_size))
                                 (Some (j * roi_size + cropsize)) X_pad)
                     (slice_time (Some (j * roi_size))
                                 (Some (j * roi_size + cropsize)) y_pad))).
Proof.
  unfold validation_patch_step. fold (outpath patch_dir stem j).
  unfold path_exists, np_savez.
  destruct (lookup d (outpath patch_dir stem j)) as [v0|] eqn:Ex;
    cbn [negb bind].
  - intros E. injection E as <- <-. rewrite Ex.
    repeat split; auto using extends_refl.
  - destruct (writable (outpath patch_dir stem j)); [|discriminate].
    cbn [bind]. intros E. injection E as <- <-.
    split; [reflexivity|]. split; [now apply extends_fresh|].
    split; [now rewrite lookup_cons, String.eqb_refl|].
    intros p v Hp. rewrite lookup_cons in Hp.
    destruct (String.eqb_spec (outpath patch_dir stem j) p) as [<-|_].
    + injection Hp as <-. right. repeat split. exact Ex.
    + now left.
Qed.

(** A patch whose file exists is skipped. *)
Lemma validation_patch_step_skip (patch_dir stem : string)
    (cropsize roi_size : Z) (X_pad y_pad : ndarray3 A)
    (pl : list string) (d : disk A) (j : Z) :
  path_exists d (outpath patch_dir stem j) = true ->
  validation_patch_step writable patch_dir stem cropsize roi_size X_pad y_pad
                        (pl, d) j
  = Ok (pl ++ [outpath patch_dir stem j], d).
Proof.
  intros Hex. unfold validation_patch_step.
  fold (outpath patch_dir stem j). rewrite Hex. reflexivity.
Qed.

(** Where every write is allowed, the patch step returns. *)
Lemma validation_patch_step_total (patch_dir stem : string)
    (cropsize roi_size : Z) (X_pad y_pad : ndarray3 A)
    (pl : list string) (d : disk A) (j : Z) :
  (forall p, writable p = true) ->
  exists d',
    validation_patch_step writable patch_dir stem cropsize roi_size X_pad
                          y_pad (pl, d) j
    = Ok (pl ++ [outpath patch_dir stem j], d').
Proof.
  intros Hw. unfold validation_patch_step.
  fold (outpath patch_dir stem j). unfold path_exists, np_savez.
  destruct (lookup d (outpath patch_dir stem j)); cbn [negb bind].
  - eexists. reflexivity.
  - rewrite Hw. cbn [bind]. eexists. reflexivity.
Qed.

Lemma validation_patch_fold_spec (patch_dir stem : string)
    (cropsize roi_size : Z) (X_pad y_pad : ndarray3 A)
    (js : list Z) (pl pl' : list string) (d d' : disk A) :
  foldM (validation_patch_step writable patch_dir stem cropsize roi_size
                               X_pad y_pad) js (pl, d) = Ok (pl', d') ->
  pl' = pl ++ map (outpath patch_dir stem) js
  /\ extends d d'
  /\ Forall (fun j => path_exists d' (outpath patch_dir stem j) = true) js
  /\ (forall p v, lookup d' p = Some v ->
        lookup d p = Some v
        \/ (lookup d p = None
            /\ exists j, In j js
                 /\ p = outpath patch_dir stem j
                 /\ v = archive
                          (slice_time (Some (j * roi_size))
                                      (Some (j * roi_size + cropsize)) X_pad)
                          (slice_time (Some (j * roi_size))
                                      (Some (j * roi_size + cropsize))
                                      y_pad))).
Proof.
  revert pl d. induction js as [|j js IH]; intros pl d E; cbn [foldM] in E.
  - injection E as <- <-. simpl. rewrite app_nil_r.
    repeat split; auto using extends_refl.
  - bind_inv E. destruct x as [pl1 d1].
    destruct (validation_patch_step_spec _ _ _ _ _ _ _ _ _ _ _ E0)
      as (-> & Hext1 & Hex1 & Hnew1).
    destruct (IH _ _ E) as (-> & Hext & Hall & Hnew).
    cbn [map]. rewrite <- app_assoc.
    split; [reflexivity|]. split; [eapply extends_trans; eassumption|].
    split.
    + constructor; [eapply path_exists_extends; eassumption|exact Hall].
    + intros p v Hp.
      destruct (Hnew p v Hp) as [Hd1|(Hnone & j' & Hj' & Hpj & Hv)].
      * destruct (Hnew1 p v Hd1) as [Hd|(Hnone & Hpj & Hv)]; [now left|].
        right. split; [exact Hnone|]. exists j. split; [now left|].
        split; assumption.
      * right. split.
        -- destruct (lookup d p) as [w|] eqn:Ed; [|reflexivity].
           rewrite (Hext1 p w Ed) in Hnone. discriminate.
        -- exists j'. split; [now right|]. split; assumption.
Qed.

(** When every patch file of the loop already exists, nothing is written. *)
Lemma validation_patch_fold_skip (patch_dir stem : string)
    (cropsize roi_size : Z) (X_pad y_pad : ndarray3 A)
    (js : list Z) (pl : list string) (d : disk A) :
  Forall (fun j => path_exists d (outpath patch_dir stem j) = true) js ->
  foldM (validation_patch_step writable patch_dir stem cropsize roi_size
                               X_pad y_pad) js (pl, d)
  = Ok (pl ++ map (outpath patch_dir stem) js, d).
Proof.
  revert pl. induction js as [|j js IH]; intros pl Hall; cbn [foldM map].
  - now rewrite app_nil_r.
  - inversion Hall as [|? ? Hj Hjs]; subst.
    rewrite (validation_patch_step_skip _ _ _ _ _ _ _ _ _ Hj). cbn [bind].
    rewrite (IH _ Hjs), <- app_assoc. reflexivity.
Qed.

(** Where every write is allowed, the patch loop returns. *)
Lemma validation_patch_fold_total (patch_dir stem : string)
    (cropsize roi_size : Z) (X_pad y_pad : ndarray3 A)
    (js : list Z) (pl : list string) (d : disk A) :
  (forall p, writable p = true) ->
  exists d',
    foldM (validation_patch_step writable patch_dir stem cropsize roi_size
                                 X_pad y_pad) js (pl, d)
    = Ok (pl ++ map (outpath patch_dir stem) js, d').
Proof.
  intros Hw. revert pl d. induction js as [|j js IH]; intros pl d;
    cbn [foldM map].
  - exists d. now rewrite app_nil_r.
  - destruct (validation_patch_step_total patch_dir stem cropsize roi_size
                X_pad y_pad pl d j Hw) as [d1 E1].
    rewrite E1. cbn [bind].
    destruct (IH (pl ++ [outpath patch_dir stem j]) d1) as [d' E].
    exists d'. now rewrite E, <- app_assoc.
Qed.

(** A file step that succeeds is a patch loop whose parameters do not
    depend on the state it starts from. *)
Lemma validation_file_step_inv (patch_dir : string)
    (cropsize sr hop_length n_fft offset : Z)
    (st st' : list string * disk A) (entry : Z * (string * string)) :
  validation_file_step cache_or_load writable patch_dir cropsize sr
                       hop_length n_fft offset st entry = Ok st' ->
  exists stem roi_size X_pad y_pad n,
    forall st0,
      validation_file_step cache_or_load writable patch_dir cropsize sr
                           hop_length n_fft offset st0 entry
      = foldM (validation_patch_step writable patch_dir stem cropsize
                                     roi_size X_pad y_pad) (range n) st0.
Proof.
  destruct entry as [i [X_path y_path]]. unfold validation_file_step.
  intros E.
  bind_inv E. destruct x as [X y].
  bind_inv E. bind_inv E. bind_inv E. bind_inv E.
  destruct x2 as [[l r] roi_size].
  bind_inv E. bind_inv E.
  eexists _, _, _, _, _. intros st0.
  cbn [bind]. rewrite E1. cbn [bind]. rewrite E2. cbn [bind].
  rewrite E3. cbn [bind]. rewrite E4. cbn [bind]. rewrite E5. cbn [bind].
  rewrite E6. cbn [bind]. reflexivity.
Qed.

Lemma validation_fold_spec (patch_dir : string)
    (cropsize sr hop_length n_fft offset : Z)
    (entries : list (Z * (string * string)))
    (pl pl' : list string) (d d' : disk A) :
  foldM (validation_file_step cache_or_load writable patch_dir cropsize sr
                              hop_length n_fft offset) entries (pl, d)
  = Ok (pl', d') ->
  exists ps,
    pl' = pl ++ ps
    /\ extends d d'
    /\ Forall (fun p => path_exists d' p = true) ps
    /\ Forall (fun p => exists stem j, p = outpath patch_dir stem j) ps
    /\ (forall p v, lookup d' p = Some v ->
          lookup d p = Some v
          \/ (lookup d p = None /\ exists X y, v = archive X y))
    /\ forall pl0 D,
         extends d' D ->
         foldM (validation_file_step cache_or_load writable patch_dir
                                     cropsize sr hop_length n_fft offset)
               entries (pl0, D) = Ok (pl0 ++ ps, D).
Proof.
  revert pl d. induction entries as [|entry entries IH]; intros pl d E;
    cbn [foldM] in E.
  - injection E as <- <-. exists []. rewrite app_nil_r.
    repeat split; auto using extends_refl.
    intros pl0 D _. cbn [foldM]. now rewrite app_nil_r.
  - bind_inv E. destruct x as [pl1 d1].
    destruct (validation_file_step_inv _ _ _ _ _ _ _ _ _ E0)
      as (stem & roi & Xp & yp & n & Hstep).
    rewrite Hstep in E0.
    destruct (validation_patch_fold_spec _ _ _ _ _ _ _ _ _ _ _ E0)
      as (-> & Hext1 & Hall1 & Hnew1).
    destruct (IH _ _ E) as (ps & -> & Hext & Hall & Hnames & Hnew & Hagain).
    exists (map (outpath patch_dir stem) (range n) ++ ps).
    split; [now rewrite app_assoc|].
    split; [eapply extends_trans; eassumption|].
    split; [|split; [|split]].
    + apply Forall_app. split; [|exact Hall].
      rewrite Forall_map. eapply Forall_impl; [|exact Hall1].
      intros j Hj. eapply path_exists_extends; eassumption.
    + apply Forall_app. split; [|exact Hnames].
      rewrite Forall_map. apply Forall_forall. intros j _.
      now exists stem, j.
    + intros p v Hp.
      destruct (Hnew p v Hp) as [Hd1|(Hnone & X & y & Hv)].
      * destruct (Hnew1 p v Hd1) as [Hd|(Hnone & j & _ & _ & Hv)];
          [now left|].
        right. split; [exact Hnone|]. eexists _, _. exact Hv.
      * right. split; [|now exists X, y].
        destruct (lookup d p) as [w|] eqn:Ed; [|reflexivity].
        rewrite (Hext1 p w Ed) in Hnone. discriminate.
    + intros pl0 D HD. cbn [foldM]. rewrite Hstep.
      rewrite validation_patch_fold_skip.
      * cbn [bind]. rewrite (Hagain _ D HD). now rewrite app_assoc.
      * eapply Forall_impl; [|exact Hall1]. intros j Hj.
        eapply path_exists_extends; [|exact Hj].
        eapply extends_trans; eassumption.
Qed.

(** [make_validation_set], when it returns, in terms of its two stages. *)
Lemma make_validation_set_inv (d d' : disk A)
    (files : list (string * string))
    (cropsize sr hop_length n_fft offset : Z)
    (s : VocalRemoverValidationSet) :
  make_validation_set cache_or_load writable d files cropsize sr hop_length
                      n_fft offset = Ok (s, d') ->
  let patch_dir := patch_dir_name cropsize sr hop_length n_fft offset in
  exists d0,
    makedirs writable d patch_dir = Ok d0
    /\ foldM (validation_file_step cache_or_load writable patch_dir cropsize
                                   sr hop_length n_fft offset)
             (combine (range (Z.of_nat (length files))) files) ([], d0)
       = Ok (filelist s, d').
Proof.
  intros E. cbv zeta. unfold make_validation_set in E.
  bind_inv E. bind_inv E. destruct x0 as [pl d1]. injection E as <- <-.
  exists x. split; [reflexivity|exact E1].
Qed.

(** X18. Whenever [make_validation_set] returns, nothing that was on disk
    before has been overwritten or removed, and every path of the returned
    set exists on disk afterwards. *)
Theorem make_validation_set_disk (d d' : disk A)
    (files : list (string * string))
    (cropsize sr hop_length n_fft offset : Z)
    (s : VocalRemoverValidationSet) :
  make_validation_set cache_or_load writable d files cropsize sr hop_length
                      n_fft offset = Ok (s, d') ->
  extends d d'
  /\ Forall (fun p => path_exists d' p = true) (filelist s).
Proof.
  intros E.
  destruct (make_validation_set_inv _ _ _ _ _ _ _ _ _ E) as (d0 & Hmk & Hfold).
  destruct (makedirs_inv _ _ _ Hmk) as (_ & Hext0 & _).
  destruct (validation_fold_spec _ _ _ _ _ _ _ _ _ _ _ Hfold)
    as (ps & Hps & Hext & Hall & _).
  simpl in Hps. subst ps.
  split; [eapply extends_trans; eassumption|exact Hall].
Qed.

(** X19. Running [make_validation_set] again on the disk it left behind
    writes nothing and returns the same set. *)
Theorem make_validation_set_idempotent (d d' : disk A)
    (files : list (string * string))
    (cropsize sr hop_length n_fft offset : Z)
    (s : VocalRemoverValidationSet) :
  make_validation_set cache_or_load writable d files cropsize sr hop_length
                      n_fft offset = Ok (s, d') ->
  make_validation_set cache_or_load writable d' files cropsize sr hop_length
                      n_fft offset = Ok (s, d').
Proof.
  intros E.
  destruct (make_validation_set_inv _ _ _ _ _ _ _ _ _ E) as (d0 & Hmk & Hfold).
  destruct (makedirs_inv _ _ _ Hmk) as (Hdir & _).
  destruct (validation_fold_spec _ _ _ _ _ _ _ _ _ _ _ Hfold)
    as (ps & Hps & Hext & _ & _ & _ & Hagain).
  simpl in Hps. unfold make_validation_set, makedirs.
  rewrite (Hext _ _ Hdir). cbn [bind].
  rewrite (Hagain [] d' (extends_refl d')). cbn [bind app].
  destruct s as [fl]. simpl in Hps. now subst ps.
Qed.

(** X20. After [make_validation_set] has returned, take any index from [0]
    to [__len__() - 1].  If nothing had the name of that patch file before
    the call, the file is now the archive the call wrote and [__getitem__]
    returns the element-wise magnitudes of its two arrays.  If something
    had that name, it was skipped and is still there: [__getitem__] does on
    it what it would have done before the call, and so raises when it is
    not a readable archive. *)
Theorem validation_getitem_after_build {M : Type} (absolute : A -> M)
    (d d' : disk A) (files : list (string * string))
    (cropsize sr hop_length n_fft offset : Z)
    (s : VocalRemoverValidationSet) (idx : Z) :
  make_validation_set cache_or_load writable d files cropsize sr hop_length
                      n_fft offset = Ok (s, d') ->
  0 <= idx < validation_len s ->
  exists path,
    nth_error (filelist s) (Z.to_nat idx) = Some path
    /\ (lookup d path = None ->
        exists X y,
          lookup d' path = Some (archive X y)
          /\ validation_getitem absolute d' s idx
             = Ok (map_rows (map absolute) X, map_rows (map absolute) y))
    /\ (forall v,
          lookup d path = Some v ->
          lookup d' path = Some v
          /\ validation_getitem absolute d' s idx
             = validation_getitem absolute d s idx
          /\ (forall e, v = Other e ->
                validation_getitem absolute d' s idx = Raise e)).
Proof.
  intros E Hidx.
  destruct (make_validation_set_inv _ _ _ _ _ _ _ _ _ E) as (d0 & Hmk & Hfold).
  destruct (makedirs_inv _ _ _ Hmk) as (_ & Hext0 & Hother & _).
  destruct (validation_fold_spec _ _ _ _ _ _ _ _ _ _ _ Hfold)
    as (ps & Hps & Hext & Hall & Hnames & Hnew & _).
  simpl in Hps. subst ps.
  unfold validation_len in Hidx.
  destruct (getitem_nonneg (filelist s) idx Hidx) as (path & Eg & Hnth).
  rewrite Forall_forall in Hall, Hnames.
  pose proof (Hall path (nth_error_In _ _ Hnth)) as Hex.
  destruct (Hnames path (nth_error_In _ _ Hnth)) as (stem & j & Hpath).
  exists path. split; [exact Hnth|]. split.
  - intros Hnone.
    assert (Hnone0 : lookup d0 path = None).
    { rewrite Hother; [exact Hnone|].
      rewrite Hpath. apply outpath_not_patch_dir. }
    unfold path_exists in Hex.
    destruct (lookup d' path) as [v|] eqn:El; [|discriminate].
    destruct (Hnew path v El) as [Hold|(_ & X & y & ->)]; [congruence|].
    exists X, y. split; [reflexivity|].
    unfold validation_getitem, np_load. rewrite Eg. cbn [bind].
    rewrite El. reflexivity.
  - intros v Hv.
    assert (Hv' : lookup d' path = Some v) by (apply Hext, Hext0, Hv).
    split; [exact Hv'|].
    unfold validation_getitem, np_load. rewrite Eg. cbn [bind].
    rewrite Hv, Hv'. split; [reflexivity|].
    intros e ->. reflexivity.
Qed.

(** X24. When something that is not a directory has the name of the patch
    directory, [make_validation_set] raises an [OSError] (from
    [os.makedirs]) before any file is loaded, whatever the file list. *)
Theorem make_validation_set_blocked (d : disk A)
    (files : list (string * string))
    (cropsize sr hop_length n_fft offset : Z) (v : node A) :
  lookup d (patch_dir_name cropsize sr hop_length n_fft offset) = Some v ->
  v <> Dir ->
  make_validation_set cache_or_load writable d files cropsize sr hop_length
                      n_fft offset = Raise OSError.
Proof.
  intros Hv Hdir. unfold make_validation_set, makedirs. rewrite Hv.
  destruct v; [contradiction| |]; reflexivity.
Qed.
End ValidationProperties.

Lemma make_validation_set_disk_witness :
  exists s d',
    make_validation_set (constant_cache spectrogram_w5) all_writable
                        stale_disk one_file 4 44100 1024 2 1 = Ok (s, d')
    /\ extends stale_disk d'
    /\ Forall (fun p => path_exists d' p = true) (filelist s).
Proof.
  eexists _, _. split; [vm_compute; reflexivity|].
  apply (make_validation_set_disk (constant_cache spectrogram_w5)
           all_writable stale_disk _ one_file 4 44100 1024 2 1).
  vm_compute. reflexivity.
Defined.

Lemma make_validation_set_idempotent_witness :
  exists s d',
    make_validation_set (constant_cache spectrogram_w5) all_writable
                        [] two_files 4 44100 1024 2 1 = Ok (s, d')
    /\ make_validation_set (constant_cache spectrogram_w5) all_writable
                           d' two_files 4 44100 1024 2 1 = Ok (s, d').
Proof.
  eexists _, _. split; [vm_compute; reflexivity|].
  apply (make_validation_set_idempotent (constant_cache spectrogram_w5)
           all_writable []).
  vm_compute. reflexivity.
Defined.

Lemma validation_getitem_after_build_witness :
  exists s d',
    make_validation_set (constant_cache spectrogram_w5) all_writable
                        stale_disk one_file 4 44100 1024 2 1 = Ok (s, d')
    /\ (exists X y,
          lookup d' "cs4_sr44100_hl1024_nf2_of1/a_p2.npz" = Some (archive X y)
          /\ validation_getitem abs_of_real d' s 2
             = Ok (map_rows (map abs_of_real) X, map_rows (map abs_of_real) y))
    /\ validation_getitem abs_of_real d' s 0 = Raise ValueError.
Proof.
  eexists _, _. split; [vm_compute; reflexivity|]. split.
  - destruct (validation_getitem_after_build
                (constant_cache spectrogram_w5) all_writable abs_of_real
                stale_disk _ one_file 4 44100 1024 2 1 _ 2
                ltac:(vm_compute; reflexivity))
      as (path & Hnth & Hfresh & _).
    + vm_compute. split; [discriminate|reflexivity].
    + injection Hnth as <-. apply Hfresh. reflexivity.
  - destruct (validation_getitem_after_build
                (constant_cache spectrogram_w5) all_writable abs_of_real
                stale_disk _ one_file 4 44100 1024 2 1 _ 0
                ltac:(vm_compute; reflexivity))
      as (path & Hnth & _ & Hstale).
    + vm_compute. split; [discriminate|reflexivity].
    + injection Hnth as <-.
      destruct (Hstale (Other ValueError) eq_refl) as (_ & _ & Hraise).
      exact (Hraise ValueError eq_refl).
Defined.

Lemma make_validation_set_blocked_witness :
  make_validation_set (constant_cache spectrogram_w5) all_writable
                      blocked_disk two_files 4 44100 1024 2 1
  = Raise OSError.
Proof.
  apply (make_validation_set_blocked (constant_cache spectrogram_w5)
           all_writable blocked_disk two_files 4 44100 1024 2 1
           (Other ValueError)).
  - reflexivity.
  - discriminate.
Defined.

Section ValidationShapes.
Context {A : Type} `{Dtype A}.
Variable cache_or_load :
  string -> string -> Z -> Z -> Z -> result (ndarray3 A * ndarray3 A).
Variable writable : string -> bool.

(** One file pair of the validation builder, when the tile is wider than
    twice the margin. *)
Lemma validation_file_step_eq (patch_dir : string)
    (cropsize sr hop_length n_fft offset i : Z)
    (st : list string * disk A) (X_path y_path : string)
    (X y : ndarray3 A) (c f w : nat) (Xmax ymax : A) :
  cache_or_load X_path y_path sr hop_length n_fft = Ok (X, y) ->
  has_shape X c f w -> (0 < c)%nat -> (0 < f)%nat ->
  amax X = Ok Xmax -> amax y = Ok ymax ->
  0 <= offset -> 2 * offset < cropsize ->
  let coef := maximum Xmax ymax in
  let roi_size := cropsize - 2 * offset in
  let r := roi_size - Z.of_nat w mod roi_size + offset in
  let pad := fun row => zeros offset ++ row ++ zeros r in
  validation_file_step cache_or_load writable patch_dir cropsize sr
                       hop_length n_fft offset st (i, (X_path, y_path))
  = foldM
      (validation_patch_step writable patch_dir
         (splitext_root (basename X_path)) cropsize roi_size
         (map_rows pad (divide X coef)) (map_rows pad (divide y coef)))
      (range (ceil_div (Z.of_nat w) roi_size)) st.
Proof.
  intros Hload HX Hc Hf HXmax Hymax Ho Hroi coef roi_size r pad.
  assert (Hr : 0 <= r).
  { pose proof (Z.mod_pos_bound (Z.of_nat w) roi_size ltac:(unfold roi_size; lia)).
    unfold r. lia. }
  unfold validation_file_step. rewrite Hload. cbn [bind].
  rewrite HXmax. cbn [bind]. rewrite Hymax. cbn [bind]. fold coef.
  assert (HXd : has_shape (divide X coef) c f w).
  { unfold divide. apply (has_shape_map_rows _ X c f w w HX).
    intros row Hrow. now rewrite length_map. }
  rewrite (shape2_has_shape _ c f w HXd Hc Hf). cbn [bind].
  rewrite make_padding_eq by lia. cbv zeta. fold roi_size.
  replace (roi_size =? 0) with false
    by (symmetry; apply Z.eqb_neq; unfold roi_size; lia).
  fold r. cbn [bind]. unfold pad_time.
  replace ((offset <? 0) || (r <? 0)) with false
    by (symmetry; apply orb_false_iff; split; apply Z.ltb_ge; lia).
  cbn [bind]. reflexivity.
Qed.

Lemma validation_fold_shapes (patch_dir : string)
    (cropsize sr hop_length n_fft offset : Z) (c f : nat)
    (entries : list (Z * (string * string))) (widths : list nat) :
  (0 < c)%nat -> (0 < f)%nat -> 0 <= offset -> 2 * offset < cropsize ->
  (forall p, writable p = true) ->
  Forall2 (fun entry w =>
             (0 < w)%nat
             /\ exists X y,
                  cache_or_load (fst (snd entry)) (snd (snd entry))
                                sr hop_length n_fft = Ok (X, y)
                  /\ has_shape X c f w /\ has_shape y c f w)
          entries widths ->
  forall (pl : list string) (d : disk A),
  exists pl' d',
    foldM (validation_file_step cache_or_load writable patch_dir cropsize sr
                                hop_length n_fft offset) entries (pl, d)
    = Ok (pl', d')
    /\ Z.of_nat (length pl')
       = Z.of_nat (length pl) + patch_count (cropsize - 2 * offset) widths
    /\ forall p v, lookup d' p = Some v ->
         lookup d p = Some v
         \/ exists X_patch y_patch,
              v = archive X_patch y_patch
              /\ has_shape X_patch c f (Z.to_nat cropsize)
              /\ has_shape y_patch c f (Z.to_nat cropsize).
Proof.
  intros Hc Hf Ho Hroi Hw Hfiles.
  induction Hfiles as [|entry w entries widths Hentry _ IH]; intros pl d.
  - exists pl, d. cbn [foldM]. split; [reflexivity|].
    split; [unfold patch_count; simpl; lia|].
    intros p v Hp. now left.
  - destruct entry as [i [X_path y_path]].
    destruct Hentry as (Hw0 & X & y & Hload & HX & Hy). simpl in Hload.
    destruct (amax_has_shape X c f w HX Hc Hf Hw0) as [Xmax HXmax].
    destruct (amax_has_shape y c f w Hy Hc Hf Hw0) as [ymax Hymax].
    pose proof (validation_file_step_eq patch_dir cropsize sr hop_length n_fft
                  offset i (pl, d) X_path y_path X y c f w Xmax ymax
                  Hload HX Hc Hf HXmax Hymax Ho Hroi) as Estep.
    cbv zeta in Estep.
    set (roi := cropsize - 2 * offset) in *.
    set (r := roi - Z.of_nat w mod roi + offset) in *.
    set (coef := maximum Xmax ymax) in *.
    set (pad := fun row : list A => zeros offset ++ row ++ zeros r) in *.
    assert (Hroipos : 0 < roi) by (unfold roi; lia).
    pose proof (Z.mod_pos_bound (Z.of_nat w) roi Hroipos) as Hm.
    pose proof (Z.div_mod (Z.of_nat w) roi ltac:(lia)) as Hd.
    pose proof (ceil_div_bounds (Z.of_nat w) roi Hroipos) as Hn.
    set (n := ceil_div (Z.of_nat w) roi) in *.
    assert (Hn0 : 0 <= n) by nia.
    assert (Hq : n < Z.of_nat w / roi + 2).
    { apply (Z.mul_lt_mono_pos_r roi); [exact Hroipos|].
      rewrite Z.mul_add_distr_r. lia. }
    assert (Hfit : n * roi <= roi * (Z.of_nat w / roi) + roi) by nia.
    set (wp := offset + Z.of_nat w + r).
    assert (Hpad : forall Z0 : ndarray3 A, has_shape Z0 c f w ->
              has_shape (map_rows pad (divide Z0 coef)) c f (Z.to_nat wp)).
    { intros Z0 HZ0. unfold divide. rewrite map_rows_map_rows.
      apply (has_shape_map_rows _ Z0 c f w _ HZ0). intros row Hrow.
      apply Nat2Z.inj. unfold pad, zeros.
      rewrite !length_app, !repeat_length, length_map, Hrow.
      unfold wp, r. lia. }
    destruct (validation_patch_fold_total writable patch_dir
                (splitext_root (basename X_path)) cropsize roi
                (map_rows pad (divide X coef)) (map_rows pad (divide y coef))
                (range n) pl d Hw) as (d1 & Efold).
    destruct (validation_patch_fold_spec _ _ _ _ _ _ _ _ _ _ _ _ Efold)
      as (_ & _ & _ & Hnew).
    rewrite Efold in Estep.
    destruct (IH (pl ++ map (outpath patch_dir (splitext_root (basename X_path)))
                            (range n)) d1) as (pl' & d' & E & Hlen & Hsh).
    exists pl', d'. cbn [foldM]. rewrite Estep. cbn [bind].
    split; [exact E|].
    split.
    + rewrite Hlen, length_app, length_map, range_length.
      unfold patch_count. simpl. fold roi. fold n. lia.
    + intros p v Hp. destruct (Hsh p v Hp) as [Hd1|Hshape]; [|now right].
      destruct (Hnew p v Hd1) as [Hd0|(_ & j & Hj & _ & ->)]; [now left|].
      right. apply in_range in Hj. eexists _, _. split; [reflexivity|].
      assert (j * roi <= (n - 1) * roi) by nia.
      split; apply (slice_time_shape _ c f (Z.to_nat wp));
        try (apply Hpad; assumption); try nia; try lia;
        rewrite Z2Nat.id by (unfold wp, r; lia); unfold wp, r, roi in *; lia.
Qed.

Lemma Forall2_combine_range {B C : Type} (P : B -> C -> Prop)
    (l : list B) (l' : list C) (ixs : list Z) :
  length ixs = length l -> Forall2 P l l' ->
  Forall2 (fun entry => P (snd entry)) (combine ixs l) l'.
Proof.
  intros Hlen HP. revert ixs Hlen.
  induction HP as [|x y l l' Hxy _ IH]; intros ixs Hlen.
  - destruct ixs; constructor.
  - destruct ixs as [|i ixs]; [discriminate|]. simpl.
    constructor; [exact Hxy|]. apply IH. simpl in Hlen. lia.
Qed.

(** X21. Suppose the operating system refuses no write, nothing but a
    directory has the name of the patch directory, the tile is wider than
    twice the margin, and every file pair loads as two spectrograms of one
    shape [(c, f, w)] with [w > 0].  Then the validation builder returns;
    the set has [ceil(w / roi_size)] patches per file, and every archive
    that is new on disk holds, under the keys [X] and [y], a mixture patch
    and a target patch of the full shape [(c, f, cropsize)]. *)
Theorem make_validation_set_patches (d : disk A)
    (files : list (string * string)) (widths : list nat)
    (cropsize sr hop_length n_fft offset : Z) (c f : nat) :
  (0 < c)%nat -> (0 < f)%nat -> 0 <= offset -> 2 * offset < cropsize ->
  (forall p, writable p = true) ->
  (forall v,
     lookup d (patch_dir_name cropsize sr hop_length n_fft offset) = Some v ->
     v = Dir) ->
  Forall2 (fun pair w =>
             (0 < w)%nat
             /\ exists X y,
                  cache_or_load (fst pair) (snd pair) sr hop_length n_fft
                  = Ok (X, y)
                  /\ has_shape X c f w /\ has_shape y c f w)
          files widths ->
  exists s d',
    make_validation_set cache_or_load writable d files cropsize sr hop_length
                        n_fft offset = Ok (s, d')
    /\ validation_len s = patch_count (cropsize - 2 * offset) widths
    /\ forall p members,
         lookup d p = None -> lookup d' p = Some (Npz members) ->
         exists X_patch y_patch,
           members = [("X"%string, X_patch); ("y"%string, y_patch)]
           /\ has_shape X_patch c f (Z.to_nat cropsize)
           /\ has_shape y_patch c f (Z.to_nat cropsize).
Proof.
  intros Hc Hf Ho Hroi Hw Hdir Hfiles.
  set (patch_dir := patch_dir_name cropsize sr hop_length n_fft offset) in *.
  assert (Hmk : exists d0,
            makedirs writable d patch_dir = Ok d0
            /\ forall p v, lookup d0 p = Some v ->
                 lookup d p = Some v \/ v = Dir).
  { unfold makedirs. destruct (lookup d patch_dir) as [v|] eqn:El.
    - rewrite (Hdir v eq_refl). exists d. split; [reflexivity|]. now left.
    - rewrite Hw. eexists. split; [reflexivity|].
      intros p v Hp. rewrite lookup_cons in Hp.
      destruct (String.eqb patch_dir p); [|now left].
      injection Hp as <-. now right. }
  destruct Hmk as (d0 & Hmk & Hd0).
  destruct (validation_fold_shapes patch_dir
              cropsize sr hop_length n_fft offset c f
              (combine (range (Z.of_nat (length files))) files) widths
              Hc Hf Ho Hroi Hw) with (pl := @nil string) (d := d0)
    as (pl' & d' & E & Hlen & Hsh).
  - apply (Forall2_combine_range
             (fun pair w =>
                (0 < w)%nat
                /\ exists X y,
                     cache_or_load (fst pair) (snd pair) sr hop_length n_fft
                     = Ok (X, y)
                     /\ has_shape X c f w /\ has_shape y c f w));
      [now rewrite range_length, Nat2Z.id|exact Hfiles].
  - exists {| filelist := pl' |}, d'. unfold make_validation_set.
    fold patch_dir. rewrite Hmk. cbn [bind]. rewrite E. cbn [bind].
    split; [reflexivity|].
    split; [unfold validation_len; simpl in *; lia|].
    intros p members Hnone Hsome.
    destruct (Hsh p _ Hsome) as [Hold|(Xp & yp & Hv & HsX & Hsy)].
    + destruct (Hd0 p _ Hold) as [Hd|Hd]; [congruence|discriminate].
    + injection Hv as ->. now exists Xp, yp.
Qed.
End ValidationShapes.

Lemma make_validation_set_patches_witness :
  exists s d',
    make_validation_set (constant_cache spectrogram_w5) all_writable
                        stale_disk two_files 4 44100 1024 2 1 = Ok (s, d')
    /\ validation_len s = patch_count (4 - 2 * 1) [5%nat; 5%nat]
    /\ forall p members,
         lookup stale_disk p = None -> lookup d' p = Some (Npz members) ->
         exists X_patch y_patch,
           members = [("X"%string, X_patch); ("y"%string, y_patch)]
           /\ has_shape X_patch 2 2 (Z.to_nat 4)
           /\ has_shape y_patch 2 2 (Z.to_nat 4).
Proof.
  apply (make_validation_set_patches (constant_cache spectrogram_w5)
           all_writable stale_disk two_files [5%nat; 5%nat]
           4 44100 1024 2 1 2 2); try lia.
  - reflexivity.
  - intros v Hv. discriminate Hv.
  - repeat constructor; try lia;
      exists spectrogram_w5, spectrogram_w5;
      (split; [reflexivity|]);
      split; (split; [reflexivity|repeat constructor]).
Defined.

(** ** Mixup *)



Section MixupProperties.
Context {T : Type}.
Variable scale : float64 -> T -> T.
Variable plus : T -> T -> T.
Variable permutation : Z -> list Z.
Variable beta : float64 -> nat -> float64.

(** X22. When fewer than two indices are selected
    ([0 <= int(len(X) * rate) <= 1], as for [rate = 0]), the loop body
    never runs: [mixup_generator] returns [X] and [y] with the store
    unchanged. *)
Theorem mixup_generator_unchanged (h : heap T) (X y : ref) (Xs : list T)
    (rate alpha : float64) (k : Z) :
  read h X = Ok Xs ->
  py_int (f64_mul (f64_of_Z (Z.of_nat (length Xs))) rate) = Ok k ->
  0 <= k <= 1 ->
  mixup_generator scale plus permutation beta h X y rate alpha = Ok (X, y, h).
Proof.
  intros HX Hk Hrange. unfold mixup_generator.
  rewrite HX. cbn [bind]. rewrite Hk. cbn [bind].
  rewrite py_slice_to by lia.
  set (perm := firstn (Z.to_nat k) (permutation (Z.of_nat (length Xs)))).
  assert (Hlen : (length perm <= 1)%nat).
  { unfold perm. rewrite length_firstn. lia. }
  unfold range.
  replace (Z.to_nat (Z.of_nat (length perm) - 1)) with 0%nat by lia.
  reflexivity.
Qed.


Lemma In_firstn_nth_error {B : Type} (n : nat) (l : list B) (x : B) :
  In x (firstn n l) <-> exists t, (t < n)%nat /\ nth_error l t = Some x.
Proof.
  split.
  - intros Hin. apply In_nth_error in Hin. destruct Hin as [t Ht].
    assert (Hlt : (t < length (firstn n l))%nat)
      by (apply nth_error_Some; congruence).
    rewrite length_firstn in Hlt. exists t. split; [lia|].
    rewrite nth_error_firstn in Ht.
    now replace (t <? n)%nat with true in Ht
      by (symmetry; apply Nat.ltb_lt; lia).
  - intros (t & Ht & Hnth). apply (nth_error_In _ t).
    rewrite nth_error_firstn.
    now replace (t <? n)%nat with true by (symmetry; apply Nat.ltb_lt; lia).
Qed.

End MixupProperties.

Lemma mixup_generator_unchanged_witness :
  mixup_generator f64_mul f64_add reversing half_beta float_heap 0%nat 1%nat
                  rate_0 rate_0_5
  = Ok (0%nat, 1%nat, float_heap).
Proof.
  apply (mixup_generator_unchanged f64_mul f64_add reversing half_beta
           float_heap 0%nat 1%nat (map f64_of_Z [10; 20; 30; 40])
           rate_0 rate_0_5 0).
  - reflexivity.
  - vm_compute. reflexivity.
  - lia.
Defined.

Section MixupGeneral.
Context {T : Type}.
Variable scale : float64 -> T -> T.
Variable plus : T -> T -> T.
Variable permutation : Z -> list Z.
Variable beta : float64 -> nat -> float64.


End MixupGeneral.

